(** * bet365-ws: wire decoder and live-state engine

    A shallow embedding of [src/bet365-ws/src/parser.ts] and the properties
    of its frame splitter, item-ID parser, score/odds parsers and
    [StateManager], with the loop of the frame handler of [index.ts] that
    merges the updates [processMessage] returns, and [sanitizeForFilename].

    Modelling conventions.
    - A JavaScript string is a [string]: a sequence of one-byte code units
      (the protocol is ASCII; code units above 0xFF are outside the model).
    - A JavaScript number is an IEEE-754 binary64 value, [spec_float] at
      precision 53 and maximal exponent 1024, with the operations of
      [SpecFloat] (round to nearest, ties to even).
    - A [Map] that the code iterates ([matches], [markets]) is an
      insertion-ordered association list [jsmap]; a [Map] or object that is
      only read by key ([fields], [fixtureToEvent], [selectionInfo],
      [itemToEvent]) is a [gmap].
    - A [TypeError] is the completion [Throw]; the state reached when it is
      raised is kept, as the fields of [this] are mutated in place. *)

From Stdlib Require Import ZArith NArith List String Ascii Bool Lia.
From Stdlib Require Import Floats.SpecFloat.
From stdpp Require Import base option list strings gmap.

Open Scope string_scope.
Open Scope list_scope.

(** ** Characters and strings *)

Definition isDigit (c : ascii) : bool :=
  Nat.leb 48 (nat_of_ascii c) && Nat.leb (nat_of_ascii c) 57.

Definition digitVal (c : ascii) : N := N.of_nat (nat_of_ascii c - 48).

(** WhiteSpace and LineTerminator code units below 0x100: TAB, LF, VT, FF,
    CR, SP and NBSP. *)
Definition isWhiteSpace (c : ascii) : bool :=
  let n := nat_of_ascii c in
  Nat.eqb n 9 || Nat.eqb n 10 || Nat.eqb n 11 || Nat.eqb n 12
  || Nat.eqb n 13 || Nat.eqb n 32 || Nat.eqb n 160.

(** Case folding of the [i] flag, restricted to one-byte code units: only
    [a]..[z] fold onto ASCII letters. *)
Definition upperAscii (c : ascii) : ascii :=
  let n := nat_of_ascii c in
  if Nat.leb 97 n && Nat.leb n 122 then ascii_of_nat (n - 32) else c.

Fixpoint str_map (f : ascii -> ascii) (s : string) : string :=
  match s with
  | EmptyString => EmptyString
  | String c r => String (f c) (str_map f r)
  end.

Fixpoint str_filter (p : ascii -> bool) (s : string) : string :=
  match s with
  | EmptyString => EmptyString
  | String c r => if p c then String c (str_filter p r) else str_filter p r
  end.

Definition str_isEmpty (s : string) : bool :=
  match s with EmptyString => true | _ => false end.

(** [s.split(sep)] for a one-character separator. *)
Fixpoint str_split (sep : ascii) (s : string) : list string :=
  match s with
  | EmptyString => [EmptyString]
  | String c r =>
      if Ascii.eqb c sep then EmptyString :: str_split sep r
      else match str_split sep r with
           | p :: ps => String c p :: ps
           | [] => [String c EmptyString]
           end
  end.

Definition str_startsWith (p s : string) : bool := String.prefix p s.

Fixpoint str_endsWith (suf s : string) : bool :=
  String.eqb s suf
  || match s with
     | EmptyString => false
     | String _ r => str_endsWith suf r
     end.

Fixpoint str_includes (sub s : string) : bool :=
  String.prefix sub s
  || match s with
     | EmptyString => false
     | String _ r => str_includes sub r
     end.

(** [s.indexOf(sub)]; [None] stands for -1. *)
Fixpoint str_indexOf (sub s : string) : option nat :=
  if String.prefix sub s then Some 0%nat
  else match s with
       | EmptyString => None
       | String _ r => option_map S (str_indexOf sub r)
       end.

Fixpoint str_take (n : nat) (s : string) : string :=
  match n, s with
  | S k, String c r => String c (str_take k r)
  | _, _ => EmptyString
  end.

Fixpoint str_drop (n : nat) (s : string) : string :=
  match n, s with
  | S k, String _ r => str_drop k r
  | _, _ => s
  end.

Definition str_dropEnd (n : nat) (s : string) : string :=
  str_take (String.length s - n) s.

(** [s.slice(-1)]. *)
Definition str_last (s : string) : string :=
  str_drop (String.length s - 1) s.

Fixpoint str_trimStart (s : string) : string :=
  match s with
  | EmptyString => EmptyString
  | String c r => if isWhiteSpace c then str_trimStart r else s
  end.

Fixpoint str_trimEnd (s : string) : string :=
  match s with
  | EmptyString => EmptyString
  | String c r =>
      let r' := str_trimEnd r in
      if isWhiteSpace c && str_isEmpty r' then EmptyString else String c r'
  end.

Definition str_trim (s : string) : string := str_trimEnd (str_trimStart s).

(** The longest prefix of decimal digits and what follows it. *)
Fixpoint spanDigits (s : string) : string * string :=
  match s with
  | EmptyString => (EmptyString, EmptyString)
  | String c r =>
      if isDigit c then let '(d, t) := spanDigits r in (String c d, t)
      else (EmptyString, s)
  end.

Fixpoint allDigits (s : string) : bool :=
  match s with
  | EmptyString => true
  | String c r => isDigit c && allDigits r
  end.

(** The value of a digit string, most significant digit first. *)
Fixpoint digitsValue (acc : N) (s : string) : N :=
  match s with
  | EmptyString => acc
  | String c r => digitsValue (10 * acc + digitVal c) r
  end.

(** Truthiness of a string and the [a || b] idiom on possibly-undefined
    strings. *)
Definition truthyStr (o : option string) : bool :=
  match o with
  | Some s => negb (str_isEmpty s)
  | None => false
  end.

Definition orElse (o : option string) (d : string) : string :=
  match o with
  | Some s => if str_isEmpty s then d else s
  | None => d
  end.

(** ** Numbers *)

Definition number : Type := spec_float.

Definition prec : Z := 53.
Definition emax : Z := 1024.

Definition NaN : number := S754_nan.
Definition numZero : number := S754_zero false.

(** The binary64 value nearest to the integer [z]. *)
Definition numOfZ (z : Z) : number := binary_normalize prec emax z 0 false.

Definition numAdd : number -> number -> number := SFadd prec emax.
Definition numDiv : number -> number -> number := SFdiv prec emax.

(** [x === y] on numbers. *)
Definition numEq : number -> number -> bool := SFeqb.

(** ToBoolean on numbers: [0], [-0] and [NaN] are falsy. *)
Definition truthyNum (x : number) : bool :=
  match x with
  | S754_zero _ | S754_nan => false
  | _ => true
  end.

(** [x || 0]. *)
Definition orZero (x : number) : number :=
  if truthyNum x then x else numZero.

(** The binary64 value nearest to [(-1)^sign * m * 10^e]. *)
Definition numOfDecimal (sign : bool) (m : N) (e : Z) : number :=
  match m with
  | N0 => S754_zero sign
  | Npos p =>
      if (0 <=? e)%Z then binary_round prec emax sign (p * Z.to_pos (10 ^ e)) 0
      else
        let '(q, e', l) :=
          SFdiv_core_binary prec emax (Zpos p) 0 (10 ^ (- e)) 0 in
        binary_round_aux prec emax sign q e' l
  end.

(** An optional sign; [true] is minus. *)
Definition takeSign (s : string) : bool * string :=
  match s with
  | String "-" r => (true, r)
  | String "+" r => (false, r)
  | _ => (false, s)
  end.

(** The ExponentPart of a decimal literal, when one is complete. *)
Definition takeExponent (s : string) : Z :=
  match s with
  | String c r =>
      if Ascii.eqb c "e" || Ascii.eqb c "E" then
        let '(neg, r1) := takeSign r in
        let '(ds, _) := spanDigits r1 in
        if str_isEmpty ds then 0%Z
        else let v := Z.of_N (digitsValue 0 ds) in if neg then (- v)%Z else v
      else 0%Z
  | EmptyString => 0%Z
  end.

(** [parseFloat(s)]: the longest prefix of the trimmed string that is a
    StrDecimalLiteral, correctly rounded; [NaN] when there is none. *)
Definition parseFloat (s : string) : number :=
  let '(neg, s1) := takeSign (str_trimStart s) in
  if str_startsWith "Infinity" s1 then S754_infinity neg
  else
    let '(ip, r1) := spanDigits s1 in
    let '(fp, r2) :=
      match r1 with
      | String "." t => spanDigits t
      | _ => (EmptyString, r1)
      end in
    if str_isEmpty ip && str_isEmpty fp then NaN
    else
      numOfDecimal neg (digitsValue 0 (ip +:+ fp))
        (takeExponent r2 - Z.of_nat (String.length fp)).

(** [parseInt(s, 10)]; [None] is [undefined], whose string form has no
    digits. *)
Definition parseInt (o : option string) : number :=
  match o with
  | None => NaN
  | Some s =>
      let '(neg, s1) := takeSign (str_trimStart s) in
      let '(ds, _) := spanDigits s1 in
      if str_isEmpty ds then NaN
      else numOfDecimal neg (digitsValue 0 ds) 0
  end.

(** ** Sport registry *)

Record SportConfig := {
  cfg_name : string;
  folder : string;
  nameSeparators : list string;
  usesSetScoring : bool;
  hasServing : bool;
  hasPointScore : bool
}.

(** What [SPORT_REGISTRY[key]] evaluates to. The registry is an object
    literal, so a key that is not one of its own seven is looked up on
    [Object.prototype]: the result is then a function or object without
    any [SportConfig] property, and it is truthy. *)
Inductive RegistryEntry :=
| Config (c : SportConfig)
| Inherited
| Undefined.

Definition objectPrototypeKeys : list string :=
  [ "constructor"; "hasOwnProperty"; "isPrototypeOf"; "propertyIsEnumerable";
    "toLocaleString"; "toString"; "valueOf"; "__proto__";
    "__defineGetter__"; "__defineSetter__"; "__lookupGetter__";
    "__lookupSetter__" ].

Definition mkConfig (n f : string) (seps : list string) (s v p : bool) :=
  {| cfg_name := n; folder := f; nameSeparators := seps;
     usesSetScoring := s; hasServing := v; hasPointScore := p |}.

Definition registryOwn : list (string * SportConfig) :=
  [ ("1", mkConfig "Soccer" "soccer" [" v "; " vs "] false false false);
    ("12", mkConfig "Football" "american-football" [" @ "; " v "] false false false);
    ("13", mkConfig "Tennis" "tennis" [" v "] true true true);
    ("14", mkConfig "Snooker" "snooker" [" v "] true false false);
    ("17", mkConfig "Hockey" "hockey" [" @ "; " v "; " vs "] false false false);
    ("18", mkConfig "Basketball" "basketball" [" @ "; " vs "; " v "] false false false);
    ("92", mkConfig "Table Tennis" "table-tennis" [" v "] true true true) ].

Fixpoint assocFind {V : Type} (k : string) (l : list (string * V)) : option V :=
  match l with
  | [] => None
  | (k', v) :: r => if String.eqb k' k then Some v else assocFind k r
  end.

Definition SPORT_REGISTRY (key : string) : RegistryEntry :=
  match assocFind key registryOwn with
  | Some c => Config c
  | None =>
      if existsb (String.eqb key) objectPrototypeKeys then Inherited
      else Undefined
  end.

Definition truthyEntry (e : RegistryEntry) : bool :=
  match e with Undefined => false | _ => true end.

(** Reading a flag of a registry entry: a missing property is [undefined],
    which is falsy. *)
Definition entryFlag (flag : SportConfig -> bool) (e : RegistryEntry) : bool :=
  match e with Config c => flag c | _ => false end.

(** ** Parsed records *)

Inductive RecordType := CL | CT | EV | MA | PA | MG | CG | unknown.

Inductive Action := ActF | ActU | ActD.

Record ParsedSegment := {
  header : string;
  action : Action;
  recordType : RecordType;
  fields : gmap string string
}.

(** One step of the loop of [parseFields]. Assigning a string to
    [fields["__proto__"]] is ignored by the setter of [Object.prototype]. *)
Definition parseField (acc : gmap string string) (part : string)
  : gmap string string :=
  if str_isEmpty part then acc
  else match str_indexOf "=" part with
       | None => <["_type" := part]> acc
       | Some eqIdx =>
           let k := str_take eqIdx part in
           if String.eqb k "__proto__" then acc
           else <[k := str_drop (S eqIdx) part]> acc
       end.

Definition parseFields (raw : string) : gmap string string :=
  if str_isEmpty raw then ∅
  else fold_left parseField (str_split ";" raw) ∅.

Definition detectRecordType (f : gmap string string) : RecordType :=
  match f !! "_type" with
  | Some "CL" => CL
  | Some "CT" => CT
  | Some "EV" => EV
  | Some "MA" => MA
  | Some "PA" => PA
  | Some "MG" => MG
  | Some "CG" => CG
  | _ => unknown
  end.

(** ** Item identifiers *)

Inductive ItemType := ItEvent | ItMarket | ItSelection | ItUnknown.

Record ItemId := {
  pid_eventId : string;
  pid_categoryId : string;
  pid_fixtureId : string;
  pid_selectionId : string;
  pid_marketNum : string;
  pid_type : ItemType
}.

Definition stripPrefix (p s : string) : option string :=
  if String.prefix p s then Some (str_drop (String.length p) s) else None.

Definition stripSuffix (suf s : string) : option string :=
  if str_endsWith suf s then Some (str_dropEnd (String.length suf) s)
  else None.

Fixpoint firstSome {A B : Type} (f : A -> option B) (l : list A) : option B :=
  match l with
  | [] => None
  | a :: r => match f a with Some b => Some b | None => firstSome f r end
  end.

(** [\d+] followed by the rest of the input. *)
Definition digits1 (s : string) : option (string * string) :=
  let '(d, r) := spanDigits s in
  if str_isEmpty d then None else Some (d, r).

(** [id.replace(/_(32(_0)?[UDF]?)$/, "")]: the suffixes the expression
    matches are listed; no string ends in two of them. *)
Definition stripTopicSuffix (id : string) : string :=
  match firstSome (fun suf => stripSuffix suf id)
          [ "_32_0U"; "_32_0D"; "_32_0F"; "_32_0";
            "_32U"; "_32D"; "_32F"; "_32" ] with
  | Some s => s
  | None => id
  end.

(** [(\d+)C(\d+)A$] after the prefix. *)
Definition matchEventBody (s : string) : option (string * string) :=
  '(ev, r) ← digits1 s;
  match r with
  | String "C" r1 =>
      '(cat, r2) ← digits1 r1;
      if String.eqb r2 "A" then Some (ev, cat) else None
  | _ => None
  end.

(** [(\d+)C(\d+)-(\d+)$] after the prefix. *)
Definition matchMarketBody (s : string) : option (string * string * string) :=
  '(ev, r) ← digits1 s;
  match r with
  | String "C" r1 =>
      '(cat, r2) ← digits1 r1;
      match r2 with
      | String "-" num =>
          if negb (str_isEmpty num) && allDigits num then Some (ev, cat, num)
          else None
      | _ => None
      end
  | _ => None
  end.

(** [0?(\d+)$]: the optional zero is taken when digits remain after it. *)
Definition matchSelectionNumber (t : string) : option string :=
  match t with
  | String "0" t' =>
      if negb (str_isEmpty t') && allDigits t' then Some t'
      else if allDigits t then Some t else None
  | _ => if negb (str_isEmpty t) && allDigits t then Some t else None
  end.

(** [(\d+)-0?(\d+)$] after the prefix. *)
Definition matchSelectionBody (s : string) : option (string * string) :=
  '(fx, r) ← digits1 s;
  match r with
  | String "-" t => sel ← matchSelectionNumber t; Some (fx, sel)
  | _ => None
  end.

Definition withPrefixes {A : Type} (ps : list string)
    (body : string -> option A) (s : string) : option A :=
  firstSome (fun p => stripPrefix p s ≫= body) ps.

Definition unknownItem : ItemId :=
  {| pid_eventId := ""; pid_categoryId := ""; pid_fixtureId := "";
     pid_selectionId := ""; pid_marketNum := ""; pid_type := ItUnknown |}.

Definition parseItemId (id : string) : ItemId :=
  let clean := stripTopicSuffix id in
  match withPrefixes ["OV"; "6V"] matchEventBody clean with
  | Some (ev, cat) =>
      {| pid_eventId := ev; pid_categoryId := cat; pid_fixtureId := "";
         pid_selectionId := ""; pid_marketNum := ""; pid_type := ItEvent |}
  | None =>
  match withPrefixes ["OV"; "6V"] matchMarketBody clean with
  | Some (ev, cat, num) =>
      {| pid_eventId := ev; pid_categoryId := cat; pid_fixtureId := "";
         pid_selectionId := ""; pid_marketNum := num; pid_type := ItMarket |}
  | None =>
  match withPrefixes ["OV"; "6VP"; "6V"; "OVES"] matchSelectionBody clean with
  | Some (fx, sel) =>
      {| pid_eventId := ""; pid_categoryId := ""; pid_fixtureId := fx;
         pid_selectionId := sel; pid_marketNum := ""; pid_type := ItSelection |}
  | None => unknownItem
  end end end.

(** [id.match(/^(?:OV|6V)?(\d+)C/)]: the digits, or the empty string. *)
Definition extractEventId (id : string) : string :=
  let body s :=
    '(ev, r) ← digits1 s;
    match r with String "C" _ => Some ev | _ => None end in
  match withPrefixes ["OV"; "6V"; ""] body id with
  | Some ev => ev
  | None => ""
  end.

(** ** Frame splitting *)

Definition isControlSeparator (c : ascii) : bool :=
  Nat.eqb (nat_of_ascii c) 20 || Nat.eqb (nat_of_ascii c) 21.

Definition isStripped (c : ascii) : bool :=
  Nat.eqb (nat_of_ascii c) 0 || Nat.eqb (nat_of_ascii c) 1
  || Nat.eqb (nat_of_ascii c) 8.

Definition RS : ascii := ascii_of_nat 30.

Definition cleanAndSplit (raw : string) : list string :=
  let normalized :=
    str_filter (fun c => negb (isStripped c))
      (str_map (fun c => if isControlSeparator c then RS else c) raw) in
  List.filter (fun s => negb (str_isEmpty s)) (str_split RS normalized).

Definition isTopicHeader (segment : string) : bool :=
  negb (str_isEmpty segment)
  && (existsb (fun suf => str_endsWith suf segment)
        ["_32_0F"; "_32_0U"; "_32_0D"; "_32F"; "_32U"; "_32D"]
      || existsb (String.eqb (str_map upperAscii segment))
           ["EMPTYF"; "EMPTYU"; "EMPTYD"]
      || String.eqb segment "__time"
      || str_startsWith "#" segment).

(** The pipe-based regrouping loop of [splitFrame]: [current] is the
    sub-message being filled, returned sub-messages are in wire order. *)
Fixpoint groupParts (current : list string) (parts : list string)
  : list (list string) :=
  match parts with
  | [] => match current with [] => [] | _ => [current] end
  | part :: rest =>
      if isTopicHeader part then
        match current with
        | [] => groupParts [part] rest
        | _ => current :: groupParts [part] rest
        end
      else groupParts (current ++ [part]) rest
  end.

Definition splitFrame (raw : string) : list (list string) :=
  let chunks := cleanAndSplit raw in
  if Nat.ltb 1 (List.length chunks) then map (str_split "|") chunks
  else
    let whole := match chunks with c :: _ => c | [] => raw end in
    groupParts [] (str_split "|" whole).

(** ** Score and odds parsers *)

(** [parseSetScores(ss)]; [None] is [undefined]. *)
Definition parseSetScores (ss : option string) : list (number * number) :=
  if truthyStr ss then
    map (fun set =>
           let ab := str_split "-" set in
           (orZero (parseInt (ab !! 0%nat)), orZero (parseInt (ab !! 1%nat))))
        (str_split "," (orElse ss ""))
  else [].

Definition parsePointScore (xp : option string) : string * string :=
  if truthyStr xp then
    let ps := str_split "-" (orElse xp "") in
    (orElse (ps !! 0%nat) "0", orElse (ps !! 1%nat) "0")
  else ("0", "0").

Definition fractionalToDecimal (odds : string) : number :=
  if str_isEmpty odds || negb (str_includes "/" odds) then numZero
  else
    let parts := str_split "/" odds in
    let n := match parts !! 0%nat with Some s => parseFloat s | None => NaN end in
    let d := match parts !! 1%nat with Some s => parseFloat s | None => NaN end in
    if negb (truthyNum d) then numZero
    else numAdd (numDiv n d) (numOfZ 1).

Definition parseServing (pi : option string) : nat :=
  if truthyStr pi then
    match str_split "," (orElse pi "") with
    | first :: _ => if String.eqb first "1" then 1%nat else 2%nat
    | [] => 2%nat
    end
  else 1%nat.

(** A completion of a call: a normal return or a thrown [TypeError]. *)
Inductive completion (A : Type) :=
| Normal (a : A)
| Throw.
Arguments Normal {A} a.
Arguments Throw {A}.

(** The first separator of [seps] that occurs in [name], and the two trimmed
    sides around its first occurrence. *)
Definition splitAtFirst (seps : list string) (name : string)
  : option (string * string) :=
  firstSome
    (fun sep =>
       idx ← str_indexOf sep name;
       Some (str_trim (str_take idx name),
             str_trim (str_drop (idx + String.length sep) name)))
    seps.

(** [parseTeams(name, sportId)]. When the registry lookup yields an
    inherited property, [config] is truthy and [config.nameSeparators] is
    [undefined]: iterating it raises a [TypeError]. *)
Definition parseTeams (name sportId : string) : completion (string * string) :=
  let fallback :=
    match splitAtFirst [" v "; " vs "; " @ "] name with
    | Some r => r
    | None => (name, "")
    end in
  match SPORT_REGISTRY sportId with
  | Inherited => Throw
  | Config c =>
      match splitAtFirst (nameSeparators c) name with
      | Some r => Normal r
      | None => Normal fallback
      end
  | Undefined => Normal fallback
  end.

(** ** Data model *)

Inductive Status := PreMatch | InPlay.

Record Selection := {
  sel_id : string;
  odds : string;
  oddsDecimal : number;
  position : number;
  sel_suspended : bool
}.

Record Market := {
  mkt_id : string;
  mkt_name : string;
  mkt_suspended : bool;
  selections : list Selection
}.

(** A [Map] in iteration order: keys are unique, [set] on a present key
    keeps its place, [set] on a new key appends. *)
Definition jsmap (V : Type) : Type := list (string * V).

Definition jm_get {V : Type} (k : string) (m : jsmap V) : option V :=
  assocFind k m.

Fixpoint jm_set {V : Type} (k : string) (v : V) (m : jsmap V) : jsmap V :=
  match m with
  | [] => [(k, v)]
  | (k', v') :: r =>
      if String.eqb k' k then (k, v) :: r else (k', v') :: jm_set k v r
  end.

Definition jm_delete {V : Type} (k : string) (m : jsmap V) : jsmap V :=
  List.filter (fun kv => negb (String.eqb (fst kv) k)) m.

Definition jm_values {V : Type} (m : jsmap V) : list V := map snd m.

Definition jm_keys {V : Type} (m : jsmap V) : list string := map fst m.

Record SportMatch := {
  eventId : string;
  fixtureId : string;
  itemId : string;
  name : string;
  sportId : string;
  sportName : string;
  team1 : string;
  team2 : string;
  tournament : string;
  tournamentCode : string;
  status : Status;
  scoreRaw : string;
  sets : list (number * number);
  currentGame : string * string;
  serving : nat;
  markets : jsmap Market;
  lastUpdated : string;
  scheduledStart : number
}.

(** The entries of [changes]. The source renders each as text:
    [sets: <a-b,...>], [score: <SS>], [game: <p1>-<p2>], [serving: P<n>],
    [<label>: <old> → <new>] and [deleted]. *)
Inductive Change :=
| ChSets (newSets : list (number * number))
| ChScore (ss : string)
| ChGame (p1 p2 : string)
| ChServing (n : nat)
| ChOdds (label oldOdds newOdds : string)
| ChDeleted.

Inductive UpdateType := UScore | UOdds | UDelete.

(** [upd_match] is the value of the match object when the update is
    built; in the source it is a reference to that object. *)
Record MatchUpdate := {
  upd_type : UpdateType;
  upd_eventId : string;
  upd_match : SportMatch;
  changes : list Change
}.

Record State := {
  matches : jsmap SportMatch;
  fixtureToEvent : gmap string string;
  selectionInfo : gmap string (string * number);
  itemToEvent : gmap string string;
  currentTournament : string;
  currentTournamentCode : string;
  currentCategory : string;
  currentSportId : string;
  inSupportedSport : bool;
  lastEventId : string
}.

Definition initialState : State :=
  {| matches := []; fixtureToEvent := ∅; selectionInfo := ∅;
     itemToEvent := ∅; currentTournament := ""; currentTournamentCode := "";
     currentCategory := ""; currentSportId := ""; inSupportedSport := false;
     lastEventId := "" |}.

(** *** Field updates *)

Definition withMarkets (ms : jsmap Market) (m : SportMatch) : SportMatch :=
  {| eventId := eventId m; fixtureId := fixtureId m; itemId := itemId m;
     name := name m; sportId := sportId m; sportName := sportName m;
     team1 := team1 m; team2 := team2 m; tournament := tournament m;
     tournamentCode := tournamentCode m; status := status m;
     scoreRaw := scoreRaw m; sets := sets m; currentGame := currentGame m;
     serving := serving m; markets := ms; lastUpdated := lastUpdated m;
     scheduledStart := scheduledStart m |}.

(** The scoreboard fields an event delta may assign. *)
Definition withBoard (ss : string) (st : list (number * number))
    (g : string * string) (sv : nat) (tu : string) (es : Status)
    (m : SportMatch) : SportMatch :=
  {| eventId := eventId m; fixtureId := fixtureId m; itemId := itemId m;
     name := name m; sportId := sportId m; sportName := sportName m;
     team1 := team1 m; team2 := team2 m; tournament := tournament m;
     tournamentCode := tournamentCode m; status := es;
     scoreRaw := ss; sets := st; currentGame := g;
     serving := sv; markets := markets m; lastUpdated := tu;
     scheduledStart := scheduledStart m |}.

Definition withMatches (ms : jsmap SportMatch) (s : State) : State :=
  {| matches := ms; fixtureToEvent := fixtureToEvent s;
     selectionInfo := selectionInfo s; itemToEvent := itemToEvent s;
     currentTournament := currentTournament s;
     currentTournamentCode := currentTournamentCode s;
     currentCategory := currentCategory s;
     currentSportId := currentSportId s;
     inSupportedSport := inSupportedSport s; lastEventId := lastEventId s |}.

Definition withSelectionInfo (si : gmap string (string * number)) (s : State)
  : State :=
  {| matches := matches s; fixtureToEvent := fixtureToEvent s;
     selectionInfo := si; itemToEvent := itemToEvent s;
     currentTournament := currentTournament s;
     currentTournamentCode := currentTournamentCode s;
     currentCategory := currentCategory s;
     currentSportId := currentSportId s;
     inSupportedSport := inSupportedSport s; lastEventId := lastEventId s |}.

Definition withSport (sid : string) (sup : bool) (s : State) : State :=
  {| matches := matches s; fixtureToEvent := fixtureToEvent s;
     selectionInfo := selectionInfo s; itemToEvent := itemToEvent s;
     currentTournament := currentTournament s;
     currentTournamentCode := currentTournamentCode s;
     currentCategory := currentCategory s;
     currentSportId := sid; inSupportedSport := sup;
     lastEventId := lastEventId s |}.

Definition withTournament (t code cat : string) (s : State) : State :=
  {| matches := matches s; fixtureToEvent := fixtureToEvent s;
     selectionInfo := selectionInfo s; itemToEvent := itemToEvent s;
     currentTournament := t; currentTournamentCode := code;
     currentCategory := cat; currentSportId := currentSportId s;
     inSupportedSport := inSupportedSport s; lastEventId := lastEventId s |}.

(** The assignments that register a match: [matches.set],
    [fixtureToEvent.set] when the fixture id is non-empty,
    [itemToEvent.set] and [lastEventId]. *)
Definition registerMatch (item : string) (m : SportMatch) (s : State) : State :=
  {| matches := jm_set (eventId m) m (matches s);
     fixtureToEvent :=
       if str_isEmpty (fixtureId m) then fixtureToEvent s
       else <[fixtureId m := eventId m]> (fixtureToEvent s);
     selectionInfo := selectionInfo s;
     itemToEvent := <[item := eventId m]> (itemToEvent s);
     currentTournament := currentTournament s;
     currentTournamentCode := currentTournamentCode s;
     currentCategory := currentCategory s;
     currentSportId := currentSportId s;
     inSupportedSport := inSupportedSport s; lastEventId := eventId m |}.

(** The start of [processFullDump]: the parse context is reset, and the
    four tables are cleared for a global dump. *)
Definition resetForDump (isGlobalDump : bool) (s : State) : State :=
  {| matches := if isGlobalDump then [] else matches s;
     fixtureToEvent := if isGlobalDump then ∅ else fixtureToEvent s;
     selectionInfo := if isGlobalDump then ∅ else selectionInfo s;
     itemToEvent := if isGlobalDump then ∅ else itemToEvent s;
     currentTournament := ""; currentTournamentCode := "";
     currentCategory := ""; currentSportId := ""; inSupportedSport := false;
     lastEventId := "" |}.

(** ** State manager: full dumps *)

Definition statusOfES (es : option string) : Status :=
  match es with
  | None => PreMatch
  | Some s => if str_isEmpty s then PreMatch else InPlay
  end.

(** The [SportMatch] literal built for an EV record. *)
Definition buildMatch (f : gmap string string) (evId sid : string)
    (c : SportConfig) (teams : string * string) (st : State) : SportMatch :=
  {| eventId := evId;
     fixtureId := orElse (f !! "OI") "";
     itemId := orElse (f !! "IT") (orElse (f !! "ID") "");
     name := orElse (f !! "NA") "";
     sportId := sid;
     sportName := cfg_name c;
     team1 := fst teams;
     team2 := snd teams;
     tournament := orElse (f !! "CT") (currentTournament st);
     tournamentCode := orElse (f !! "CC") (currentTournamentCode st);
     status := statusOfES (f !! "ES");
     scoreRaw := orElse (f !! "SS") "";
     sets := if usesSetScoring c then parseSetScores (f !! "SS") else [];
     currentGame :=
       if hasPointScore c then parsePointScore (f !! "XP") else ("0", "0");
     serving := if hasServing c then parseServing (f !! "PI") else 0%nat;
     markets := [];
     lastUpdated := orElse (f !! "TU") "";
     scheduledStart := orZero (parseInt (f !! "SM")) |}.

Definition buildMarket (f : gmap string string) : Market :=
  {| mkt_id := orElse (f !! "MA") (orElse (f !! "ID") "");
     mkt_name := orElse (f !! "NA") "";
     mkt_suspended := bool_decide (f !! "SU" = Some "1");
     selections := [] |}.

Definition buildSelection (f : gmap string string) : Selection :=
  {| sel_id := orElse (f !! "ID") "";
     odds := orElse (f !! "OD") "";
     oddsDecimal := fractionalToDecimal (orElse (f !! "OD") "");
     position := orZero (parseInt (f !! "OR"));
     sel_suspended := bool_decide (f !! "SU" = Some "1") |}.

Definition pushSelection (sel : Selection) (mk : Market) : Market :=
  {| mkt_id := mkt_id mk; mkt_name := mkt_name mk;
     mkt_suspended := mkt_suspended mk;
     selections := selections mk ++ [sel] |}.

(** [lastMarket.selections.push(sel)] for the market that comes last in
    the iteration of [match.markets]; nothing when there is no market. *)
Fixpoint pushToLastMarket (sel : Selection) (ms : jsmap Market) : jsmap Market :=
  match ms with
  | [] => []
  | [(k, mk)] => [(k, pushSelection sel mk)]
  | kv :: r => kv :: pushToLastMarket sel r
  end.

(** The EV branch, once the sport context accepts the record. An inherited
    registry entry passes the [!sportConfig] guard and the call of
    [parseTeams] then raises. *)
Definition applyEV (f : gmap string string) (st : State)
  : State * completion unit :=
  let evId := extractEventId (orElse (f !! "ID") "") in
  if str_isEmpty evId then (st, Normal ())
  else
    let sid := orElse (f !! "CL") (currentSportId st) in
    match SPORT_REGISTRY sid with
    | Undefined => (st, Normal ())
    | Inherited => (st, Throw)
    | Config c =>
        match parseTeams (orElse (f !! "NA") "") sid with
        | Throw => (st, Throw)
        | Normal teams =>
            let m := buildMatch f evId sid c teams st in
            (registerMatch (orElse (f !! "IT") (orElse (f !! "ID") "")) m st,
             Normal ())
        end
    end.

Definition applyMA (f : gmap string string) (st : State) : State :=
  match jm_get (lastEventId st) (matches st) with
  | None => st
  | Some m =>
      let market := buildMarket f in
      withMatches
        (jm_set (lastEventId st)
           (withMarkets (jm_set (mkt_id market) market (markets m)) m)
           (matches st)) st
  end.

Definition applyPA (f : gmap string string) (st : State) : State :=
  match jm_get (lastEventId st) (matches st) with
  | None => st
  | Some m =>
      let sel := buildSelection f in
      let st1 :=
        withMatches
          (jm_set (lastEventId st)
             (withMarkets (pushToLastMarket sel (markets m)) m)
             (matches st)) st in
      if truthyStr (f !! "FI") then
        withSelectionInfo
          (<[orElse (f !! "ID") "" := (orElse (f !! "FI") "", position sel)]>
             (selectionInfo st1)) st1
      else st1
  end.

(** The body of the record loop of [processFullDump]. *)
Definition applySegment (seg : ParsedSegment) (st : State)
  : State * completion unit :=
  let f := fields seg in
  match recordType seg with
  | CL =>
      let sid := orElse (f !! "CL") "" in
      (withSport sid (truthyEntry (SPORT_REGISTRY sid)) st, Normal ())
  | rt =>
      let st1 :=
        match rt with
        | EV =>
            if truthyStr (f !! "CL")
               && truthyEntry (SPORT_REGISTRY (orElse (f !! "CL") ""))
            then withSport (orElse (f !! "CL") "") true st
            else st
        | _ => st
        end in
      if negb (inSupportedSport st1) then (st1, Normal ())
      else
        match rt with
        | CT =>
            (withTournament (orElse (f !! "NA") "")
               (orElse (f !! "CC") (orElse (f !! "ID") ""))
               (orElse (f !! "L3") "") st1, Normal ())
        | EV => applyEV f st1
        | MA =>
            if str_isEmpty (lastEventId st1) then (st1, Normal ())
            else (applyMA f st1, Normal ())
        | PA =>
            if str_isEmpty (lastEventId st1) then (st1, Normal ())
            else (applyPA f st1, Normal ())
        | _ => (st1, Normal ())
        end
  end.

(** The record loop; a [TypeError] leaves it with the state reached. *)
Fixpoint runSegments (segs : list ParsedSegment) (st : State)
  : State * completion unit :=
  match segs with
  | [] => (st, Normal ())
  | seg :: rest =>
      match applySegment seg st with
      | (st', Normal _) => runSegments rest st'
      | (st', Throw) => (st', Throw)
      end
  end.

Definition processFullDump (segments : list ParsedSegment)
    (isGlobalDump : bool) (st : State) : State * completion unit :=
  runSegments segments (resetForDump isGlobalDump st).

(** ** State manager: deltas *)

(** [header.replace(/[UD]$/, "")]. *)
Definition stripActionSuffix (h : string) : string :=
  if str_endsWith "U" h || str_endsWith "D" h then str_dropEnd 1 h else h.

(** Whether two lists of set scores print to the same text under
    [map(s => s.join("-")).join(",")]. The entries come from
    [parseInt(..) || 0], so they are never [NaN] or [-0], and on such
    numbers the text determines the number. *)
Fixpoint sameSets (a b : list (number * number)) : bool :=
  match a, b with
  | [], [] => true
  | (x1, y1) :: a', (x2, y2) :: b' =>
      numEq x1 x2 && numEq y1 y2 && sameSets a' b'
  | _, _ => false
  end.

Definition gameText (g : string * string) : string :=
  fst g +:+ "-" +:+ snd g.

(** The field assignments of an event-scoped delta and the changes they
    record, in the order of the source. *)
Definition applyEventFields (cfg : RegistryEntry) (f : gmap string string)
    (m : SportMatch) : SportMatch * list Change :=
  let setScoring := entryFlag usesSetScoring cfg in
  let '(ss', sets', ch1) :=
    match f !! "SS" with
    | Some ss =>
        if setScoring then
          let newSets := parseSetScores (Some ss) in
          (ss, newSets,
           if sameSets (sets m) newSets then [] else [ChSets newSets])
        else
          (ss, sets m, if String.eqb (scoreRaw m) ss then [] else [ChScore ss])
    | None => (scoreRaw m, sets m, [])
    end in
  let '(game', ch2) :=
    match f !! "XP" with
    | Some xp =>
        if entryFlag hasPointScore cfg then
          let g := parsePointScore (Some xp) in
          (g, if String.eqb (gameText (currentGame m)) (gameText g) then []
              else [ChGame (fst g) (snd g)])
        else (currentGame m, [])
    | None => (currentGame m, [])
    end in
  let '(serving', ch3) :=
    match f !! "PI" with
    | Some pi =>
        if entryFlag hasServing cfg then
          let sv := parseServing (Some pi) in
          (sv, if Nat.eqb (serving m) sv then [] else [ChServing sv])
        else (serving m, [])
    | None => (serving m, [])
    end in
  let tu' := if truthyStr (f !! "TU") then orElse (f !! "TU") "" else lastUpdated m in
  let es' :=
    match f !! "ES" with
    | Some es => if str_isEmpty es then PreMatch else InPlay
    | None => status m
    end in
  (withBoard ss' sets' game' serving' tu' es' m, ch1 ++ ch2 ++ ch3).

(** The body of the inner loop over [market.selections]. *)
Definition updateSelection (f : gmap string string) (m : SportMatch)
    (isThreeWay : bool) (selId : string) (sel : Selection)
  : Selection * list Change :=
  if String.eqb (sel_id sel) selId then
    let '(odds', dec', ch) :=
      match f !! "OD" with
      | Some od =>
          if negb (String.eqb od (odds sel)) then
            let teamName :=
              if numEq (position sel) (numOfZ 0) then team1 m
              else if numEq (position sel) (numOfZ 1) then
                     (if isThreeWay then "Draw" else team2 m)
                   else team2 m in
            (od, fractionalToDecimal od, [ChOdds teamName (odds sel) od])
          else (odds sel, oddsDecimal sel, [])
      | None => (odds sel, oddsDecimal sel, [])
      end in
    let su' :=
      match f !! "SU" with
      | Some su => String.eqb su "1"
      | None => sel_suspended sel
      end in
    ({| sel_id := sel_id sel; odds := odds'; oddsDecimal := dec';
        position := position sel; sel_suspended := su' |}, ch)
  else (sel, []).

Fixpoint updateSelections (f : gmap string string) (m : SportMatch)
    (isThreeWay : bool) (selId : string) (sels : list Selection)
  : list Selection * list Change :=
  match sels with
  | [] => ([], [])
  | sel :: r =>
      let '(sel', c1) := updateSelection f m isThreeWay selId sel in
      let '(r', c2) := updateSelections f m isThreeWay selId r in
      (sel' :: r', c1 ++ c2)
  end.

Definition updateMarket (f : gmap string string) (m : SportMatch)
    (selId : string) (mk : Market) : Market * list Change :=
  let '(sels', ch) :=
    updateSelections f m (Nat.leb 3 (List.length (selections mk))) selId
      (selections mk) in
  ({| mkt_id := mkt_id mk; mkt_name := mkt_name mk;
      mkt_suspended := mkt_suspended mk; selections := sels' |}, ch).

(** The outer loop over [match.markets.values()]. *)
Fixpoint updateMarkets (f : gmap string string) (m : SportMatch)
    (selId : string) (ms : jsmap Market) : jsmap Market * list Change :=
  match ms with
  | [] => ([], [])
  | (k, mk) :: r =>
      let '(mk', c1) := updateMarket f m selId mk in
      let '(r', c2) := updateMarkets f m selId r in
      ((k, mk') :: r', c1 ++ c2)
  end.

Definition processUpdate (seg : ParsedSegment) (st : State)
  : State * option MatchUpdate :=
  if str_isEmpty (header seg) then (st, None)
  else
    let f := fields seg in
    let parsedId := parseItemId (stripActionSuffix (header seg)) in
    match pid_type parsedId with
    | ItEvent =>
        let sportConfig := SPORT_REGISTRY (pid_categoryId parsedId) in
        if negb (truthyEntry sportConfig) then (st, None)
        else
          match jm_get (pid_eventId parsedId) (matches st) with
          | None => (st, None)
          | Some m =>
              let '(m', chs) := applyEventFields sportConfig f m in
              match action seg with
              | ActD =>
                  (withMatches (jm_delete (pid_eventId parsedId) (matches st)) st,
                   Some {| upd_type := UDelete;
                           upd_eventId := pid_eventId parsedId;
                           upd_match := m'; changes := [ChDeleted] |})
              | _ =>
                  let st' :=
                    withMatches
                      (jm_set (pid_eventId parsedId) m' (matches st)) st in
                  match chs with
                  | [] => (st', None)
                  | _ =>
                      (st', Some {| upd_type := UScore;
                                    upd_eventId := pid_eventId parsedId;
                                    upd_match := m'; changes := chs |})
                  end
              end
          end
    | ItSelection =>
        match fixtureToEvent st !! pid_fixtureId parsedId with
        | None => (st, None)
        | Some evId =>
            if str_isEmpty evId then (st, None)
            else
              match jm_get evId (matches st) with
              | None => (st, None)
              | Some m =>
                  let '(ms', chs) :=
                    updateMarkets f m (pid_selectionId parsedId) (markets m) in
                  let m' := withMarkets ms' m in
                  let st' := withMatches (jm_set evId m' (matches st)) st in
                  match chs with
                  | [] => (st', None)
                  | _ =>
                      (st', Some {| upd_type := UOdds; upd_eventId := evId;
                                    upd_match := m'; changes := chs |})
                  end
              end
        end
    | _ => (st, None)
    end.

(** ** State manager: [processMessage] *)

(** Heartbeats, subscriptions and empty acknowledgements. *)
Definition isSkippedHeader (h : string) : bool :=
  str_isEmpty h || String.eqb h "__time" || str_startsWith "#" h
  || String.prefix "EMPTY" (str_map upperAscii h).

(** The records of a full-dump sub-message: trimmed, empty parts skipped. *)
Definition dumpSegments (h : string) (recs : list string) : list ParsedSegment :=
  flat_map
    (fun p =>
       let part := str_trim p in
       if str_isEmpty part then []
       else [ {| header := h; action := ActF;
                 recordType := detectRecordType (parseFields part);
                 fields := parseFields part |} ])
    recs.

(** The segment built for an incremental sub-message. *)
Definition deltaSegment (h : string) (recs : list string) : ParsedSegment :=
  let lastSeg :=
    if str_includes "/" h then List.last (str_split "/" h) h else h in
  {| header := lastSeg;
     action := if String.eqb (str_last lastSeg) "D" then ActD else ActU;
     recordType := unknown;
     fields := parseFields (orElse (option_map str_trim (recs !! 0%nat)) "") |}.

(** The body of the loop of [processMessage] for one sub-message: the new
    state and the update it pushes, if any. *)
Definition processSubMessage (parts : list string) (st : State)
  : State * completion (option MatchUpdate) :=
  match parts with
  | [] => (st, Normal None)
  | h :: recs =>
      if isSkippedHeader h then (st, Normal None)
      else if str_endsWith "F" h then
        match processFullDump (dumpSegments h recs) (str_includes "InPlay" h) st with
        | (st', Normal _) => (st', Normal None)
        | (st', Throw) => (st', Throw)
        end
      else if str_endsWith "U" h || str_endsWith "D" h || str_endsWith "I" h then
        let '(st', u) := processUpdate (deltaSegment h recs) st in
        (st', Normal u)
      else (st, Normal None)
  end.

Definition optionToList {A : Type} (o : option A) : list A :=
  match o with Some a => [a] | None => [] end.

(** The loop over sub-messages, with the updates pushed so far. *)
Fixpoint runSubMessages (subs : list (list string)) (st : State)
  : State * completion (list MatchUpdate) :=
  match subs with
  | [] => (st, Normal [])
  | parts :: rest =>
      match processSubMessage parts st with
      | (st1, Normal u) =>
          match runSubMessages rest st1 with
          | (st2, Normal us) => (st2, Normal (optionToList u ++ us))
          | (st2, Throw) => (st2, Throw)
          end
      | (st1, Throw) => (st1, Throw)
      end
  end.

Definition processMessage (raw : string) (st : State)
  : State * completion (list MatchUpdate) :=
  runSubMessages (splitFrame raw) st.

Definition getAllMatches (st : State) : list SportMatch :=
  jm_values (matches st).

Definition getLiveMatches (st : State) : list SportMatch :=
  List.filter (fun m => match status m with InPlay => true | PreMatch => false end)
    (getAllMatches st).

Definition getMatchesBySport (sid : string) (st : State) : list SportMatch :=
  List.filter (fun m => String.eqb (sportId m) sid) (getAllMatches st).

(** ** Reachable states *)

(** The states of a [StateManager] after any sequence of [processMessage]
    calls; a call that raises is caught by the caller and leaves the state
    it reached. *)
Inductive reachable : State -> Prop :=
| reach_init : reachable initialState
| reach_step raw st : reachable st -> reachable (fst (processMessage raw st)).

(** ** Scenario S1 *)

Definition S1_payload : string :=
  "OVInPlay_32_0F|CL;CL=13;NA=Tennis;|CT;NA=ATP Santiago;CC=21124106;L3=ATP3-R2;|EV;ID=190321250C13A_32_0;NA=Mariano Navone v Luciano Darderi;OI=190340113;SS=3-6,0-0;XP=40-15;PI=1,0;ES=2;CL=13;|MA;ID=1763;NA=Money Line;SU=0;|PA;ID=701873422;FI=190340113;OD=9/2;OR=0;SU=0;|PA;ID=701873420;FI=190340113;OD=1/7;OR=1;SU=0;|".

(** What S1 leaves in a fresh state manager, with the serving indicator
    [sv] of its one match left open. The decimal odds are the binary64
    values 5.5 and the one nearest to 8/7. *)
Definition S1_outcome (sv : nat) : Prop :=
  exists (m : SportMatch) (mk : Market) (s1 s2 : Selection),
    processMessage S1_payload initialState
      = (fst (processMessage S1_payload initialState), Normal [])
    /\ getAllMatches (fst (processMessage S1_payload initialState)) = [m]
    /\ eventId m = "190321250"
    /\ team1 m = "Mariano Navone" /\ team2 m = "Luciano Darderi"
    /\ sportId m = "13" /\ sportName m = "Tennis"
    /\ sets m = [(numOfZ 3, numOfZ 6); (numOfZ 0, numOfZ 0)]
    /\ currentGame m = ("40", "15")
    /\ serving m = sv
    /\ status m = InPlay
    /\ markets m = [("1763", mk)]
    /\ selections mk = [s1; s2]
    /\ odds s1 = "9/2" /\ odds s2 = "1/7"
    /\ oddsDecimal s1 = parseFloat "5.5"
    /\ oddsDecimal s2 = numDiv (numOfZ 8) (numOfZ 7)
    /\ SFltb (parseFloat "1.1428") (oddsDecimal s2) = true
    /\ SFltb (oddsDecimal s2) (parseFloat "1.1429") = true.

(** ** Well-formed odds *)

(** A non-empty string of decimal digits that denotes a positive integer,
    and the integer a digit string denotes. *)
Definition isPositiveInteger (s : string) : bool :=
  negb (str_isEmpty s) && allDigits s && negb (N.eqb (digitsValue 0 s) 0).

Definition intValue (s : string) : Z := Z.of_N (digitsValue 0 s).

(** ** Selections hit by an odds delta *)

(** The selections of a match, over all its markets in iteration order. *)
Definition allSelections (m : SportMatch) : list Selection :=
  flat_map (fun kv => selections (snd kv)) (markets m).

(** A selection with id [selId] whose stored odds are not [od]. *)
Definition oddsHit (selId od : string) (s : Selection) : bool :=
  String.eqb (sel_id s) selId && negb (String.eqb od (odds s)).

(** How many selections of [m] a delta for [selId] carrying odds [od]
    changes. *)
Definition oddsHits (selId od : string) (m : SportMatch) : nat :=
  List.length (List.filter (oddsHit selId od) (allSelections m)).

(** A state with one match whose two markets both hold selection 5. *)
Definition twoMarketsDump : string :=
  "OVInPlay_32_0F|EV;ID=1C13A_32_0;CL=13;OI=7;NA=a v b;|MA;ID=10;|PA;ID=5;OD=1/2;|MA;ID=11;|PA;ID=5;OD=1/3;|".

(** ** Index invariants *)

(** Keys of [matches] are unique, non-empty, and each is the event id of
    the match stored under it. *)
Definition wellKeyed (st : State) : Prop :=
  List.NoDup (jm_keys (matches st))
  /\ forall k m, jm_get k (matches st) = Some m -> eventId m = k /\ k <> "".

(** Every match with a fixture id has an entry in [fixtureToEvent]. *)
Definition fixturesIndexed (st : State) : Prop :=
  forall k m, jm_get k (matches st) = Some m ->
    fixtureId m = "" \/ is_Some (fixtureToEvent st !! fixtureId m).

(** The match registered last, while it is in the table, is the one its
    fixture id resolves to. *)
Definition lastRegisteredLinked (st : State) : Prop :=
  forall m, jm_get (lastEventId st) (matches st) = Some m ->
    fixtureId m = "" \/ fixtureToEvent st !! fixtureId m = Some (eventId m).

Definition indexInvariant (st : State) : Prop :=
  wellKeyed st /\ fixturesIndexed st /\ lastRegisteredLinked st.

(** Two EV records that carry the same fixture id. *)
Definition sharedFixtureDump : string :=
  "OVInPlay_32_0F|EV;ID=1C13A_32_0;CL=13;OI=7;NA=a v b;|EV;ID=2C13A_32_0;CL=13;OI=7;NA=c v d;|".

(** ** Events named by a full dump *)


(** The event id an EV record carries in its ID field. *)
Definition segmentEventId (seg : ParsedSegment) : string :=
  extractEventId (orElse (fields seg !! "ID") "").





(** ** Payloads of full dumps; sport codes *)

(** Every sub-message of the payload has a header that ends in F. *)
Definition onlyFullDumps (raw : string) : bool :=
  forallb
    (fun parts =>
       match parts with
       | h :: _ => str_endsWith "F" h
       | [] => false
       end)
    (splitFrame raw).

Definition isInherited (e : RegistryEntry) : bool :=
  match e with Inherited => true | _ => false end.

(** The CL field of the record is not a key that the registry only
    inherits from [Object.prototype]. *)
Definition sportCodeOwn (seg : ParsedSegment) : bool :=
  negb (isInherited (SPORT_REGISTRY (orElse (fields seg !! "CL") ""))).

(** [sportCodeOwn] for every record of every full-dump sub-message. *)
Definition sportCodesOwn (raw : string) : bool :=
  forallb
    (fun parts =>
       match parts with
       | h :: recs =>
           if str_endsWith "F" h then forallb sportCodeOwn (dumpSegments h recs)
           else true
       | [] => true
       end)
    (splitFrame raw).

(** A global dump whose first EV record names the sport "constructor",
    followed by a well-formed tennis record; and the same dump without the
    first record. *)
Definition inheritedSportPayload : string :=
  "OVInPlay_32_0F|EV;ID=1C1A_32_0;CL=constructor;NA=a v b;|EV;ID=2C13A_32_0;CL=13;NA=c v d;|".

Definition tennisOnlyPayload : string :=
  "OVInPlay_32_0F|EV;ID=2C13A_32_0;CL=13;NA=c v d;|".

(** A soccer match, and an event delta for it whose header carries the
    tennis category. *)
Definition soccerDump : string :=
  "OVInPlay_32_0F|CL;CL=1;NA=Soccer;|EV;ID=5C1A_32_0;NA=Home v Away;OI=9;SS=0-0;|".

Definition tennisCategoryDelta : string := "OV5C13A_32_0U|PI=1,0;|".

(** ** Concatenated payloads *)

Fixpoint str_forallb (p : ascii -> bool) (s : string) : bool :=
  match s with
  | EmptyString => true
  | String c r => p c && str_forallb p r
  end.

(** The bytes the frame splitter reacts to: 0x14, 0x15, 0x00, 0x01, 0x08
    and its own separator 0x1E. *)
Definition isFramingByte (c : ascii) : bool :=
  isControlSeparator c || isStripped c || Ascii.eqb c RS.

Definition controlFree (s : string) : bool :=
  str_forallb (fun c => negb (isFramingByte c)) s.

















(** ** Serving indicator and sport *)

(** Whether the sport of the match has a serving indicator. *)
Definition sportHasServing (m : SportMatch) : bool :=
  entryFlag hasServing (SPORT_REGISTRY (sportId m)).

(** Matches of serving sports have a server. *)
Definition serversKnown (st : State) : Prop :=
  forall k m, jm_get k (matches st) = Some m ->
    sportHasServing m = true -> serving m = 1%nat \/ serving m = 2%nat.

(** The category code carried by the header of a delta. *)
Definition headerCategory (seg : ParsedSegment) : string :=
  pid_categoryId (parseItemId (stripActionSuffix (header seg))).

(** ** Records of sports outside the registry *)

(** The CL field of the record, or the empty string in its place, is no
    key of the registry, own or inherited. *)
Definition sportUnknown (seg : ParsedSegment) : bool :=
  match SPORT_REGISTRY (orElse (fields seg !! "CL") "") with
  | Undefined => true
  | _ => false
  end.

(** The global dump of scenario S5: volleyball, which the registry does
    not hold. *)
Definition S5_records : list string :=
  ["CL;CL=91;NA=Volleyball;"; "EV;ID=555C91A_32_0;NA=X v Y;OI=9;";
   "MA;ID=1;NA=Winner;"; "PA;ID=2;FI=9;OD=1/2;"].

(** ** Records as text *)

(** The text of a record: the type tag, then [key=value] pairs, each
    closed by a semicolon. *)
Definition renderField (kv : string * string) : string :=
  fst kv +:+ "=" +:+ snd kv.

Fixpoint renderFields (kvs : list (string * string)) : string :=
  match kvs with
  | [] => ""
  | kv :: r => renderField kv +:+ ";" +:+ renderFields r
  end.

Definition renderRecord (tag : string) (kvs : list (string * string)) : string :=
  tag +:+ ";" +:+ renderFields kvs.

(** A key holds neither [;] nor [=] and is not [__proto__]; a value holds
    no [;]. *)
Definition fieldWellFormed (kv : string * string) : bool :=
  negb (str_includes ";" (fst kv)) && negb (str_includes "=" (fst kv))
  && negb (String.eqb (fst kv) "__proto__")
  && negb (str_includes ";" (snd kv)).

(** A type tag is not empty and holds neither [;] nor [=]. *)
Definition tagWellFormed (tag : string) : bool :=
  negb (str_isEmpty tag) && negb (str_includes ";" tag)
  && negb (str_includes "=" tag).

(** The literal of the union type [RecordType]. *)
Definition recordTypeName (t : RecordType) : string :=
  match t with
  | CL => "CL" | CT => "CT" | EV => "EV" | MA => "MA" | PA => "PA"
  | MG => "MG" | CG => "CG" | unknown => "unknown"
  end.

(** ** Well-formed item identifiers *)

(** A non-empty string of decimal digits. *)
Definition isNumericId (s : string) : bool :=
  negb (str_isEmpty s) && allDigits s.

(** The suffixes that [_(32(_0)?[UDF]?)$] matches. *)
Definition topicSuffixes : list string :=
  [ "_32_0U"; "_32_0D"; "_32_0F"; "_32_0"; "_32U"; "_32D"; "_32F"; "_32" ].

Definition eventItem (ev cat : string) : ItemId :=
  {| pid_eventId := ev; pid_categoryId := cat; pid_fixtureId := "";
     pid_selectionId := ""; pid_marketNum := ""; pid_type := ItEvent |}.

Definition marketItem (ev cat num : string) : ItemId :=
  {| pid_eventId := ev; pid_categoryId := cat; pid_fixtureId := "";
     pid_selectionId := ""; pid_marketNum := num; pid_type := ItMarket |}.

Definition selectionItem (fx sel : string) : ItemId :=
  {| pid_eventId := ""; pid_categoryId := ""; pid_fixtureId := fx;
     pid_selectionId := sel; pid_marketNum := ""; pid_type := ItSelection |}.

(** The characters of a string, last first. *)
Fixpoint str_rev (s : string) : string :=
  match s with
  | EmptyString => EmptyString
  | String c r => str_rev r +:+ String c EmptyString
  end.

(** ** Updates and the state they describe *)

(** What an update says about the state [st'] the delta leaves: it
    carries a change, its event id is that of its match, and the match is
    stored under that id, or gone after a delete. *)
Definition updateDescribes (st' : State) (u : MatchUpdate) : Prop :=
  changes u <> []
  /\ eventId (upd_match u) = upd_eventId u
  /\ match upd_type u with
     | UDelete =>
         changes u = [ChDeleted] /\ jm_get (upd_eventId u) (matches st') = None
     | _ => jm_get (upd_eventId u) (matches st') = Some (upd_match u)
     end.

(** The event delta of S2 and a delta that carries a timestamp and a
    status only. *)
Definition S2_segment : ParsedSegment :=
  deltaSegment "OV190321250C13A_32_0U" ["PI=0,1;XP=0-0;SS=3-6,1-0;"; ""].

Definition S2_payload : string :=
  "OV190321250C13A_32_0U|PI=0,1;XP=0-0;SS=3-6,1-0;|".

Definition timestampSegment : ParsedSegment :=
  deltaSegment "OV190321250C13A_32_0U" ["TU=20250101120000;ES=3;"; ""].

(** ** Records of markets and selections *)

(** An MA record for market 12, one that repeats market 10, and a PA
    record for selection 9. *)
Definition marketRecord12 : gmap string string := parseFields "MA;ID=12;NA=Total;".

Definition marketRecord10 : gmap string string := parseFields "MA;ID=10;NA=Again;".

Definition selectionRecord9 : gmap string string := parseFields "PA;ID=9;OD=2/1;".

(** ** The frame handler: one odds update per event *)

(** [existing.changes.push(...cs)]. *)
Definition pushChanges (cs : list Change) (u : MatchUpdate) : MatchUpdate :=
  {| upd_type := upd_type u; upd_eventId := upd_eventId u;
     upd_match := upd_match u; changes := changes u ++ cs |}.

Definition isOdds (u : MatchUpdate) : bool :=
  match upd_type u with UOdds => true | _ => false end.

(** One iteration of the loop of the [Network.webSocketFrameReceived]
    handler that merges odds updates. [updates] is the array being built;
    [oddsMap] maps an event id to the position in [updates] of the odds
    update stored for it, the object that [existing.changes.push] mutates
    in place. *)
Definition mergeStep (acc : list MatchUpdate * gmap string nat) (u : MatchUpdate)
  : list MatchUpdate * gmap string nat :=
  let '(updates, oddsMap) := acc in
  if isOdds u then
    match oddsMap !! upd_eventId u with
    | Some i => (alter (pushChanges (changes u)) i updates, oddsMap)
    | None =>
        (updates ++ [u], <[upd_eventId u := List.length updates]> oddsMap)
    end
  else (updates ++ [u], oddsMap).

(** The array [updates] that the handler formats and logs. *)
Definition mergeOddsUpdates (rawUpdates : list MatchUpdate) : list MatchUpdate :=
  fst (fold_left mergeStep rawUpdates ([], ∅)).

(** An odds update for event [e]. *)
Definition isOddsFor (e : string) (u : MatchUpdate) : bool :=
  isOdds u && String.eqb (upd_eventId u) e.

(** The first update of a list with the changes of all later ones pushed
    onto it. *)
Definition collapse (l : list MatchUpdate) : list MatchUpdate :=
  match l with
  | [] => []
  | u :: rest => [pushChanges (flat_map changes rest) u]
  end.

(** ** [parseMessage] *)

(** The body of the loop of [parseMessage] for one sub-message. The
    header of a delta is kept whole, and a header that ends in I yields
    nothing. *)
Definition parseSubMessage (parts : list string) : list ParsedSegment :=
  match parts with
  | [] => []
  | h :: recs =>
      if isSkippedHeader h then []
      else if str_endsWith "F" h then dumpSegments h recs
      else if str_endsWith "U" h || str_endsWith "D" h then
        [ {| header := h;
             action := if str_endsWith "U" h then ActU else ActD;
             recordType := unknown;
             fields :=
               parseFields (orElse (option_map str_trim (recs !! 0%nat)) "") |} ]
      else []
  end.

Definition parseMessage (raw : string) : list ParsedSegment :=
  if str_isEmpty raw then [] else flat_map parseSubMessage (splitFrame raw).

(** ** Names of log files *)

(** The characters of the class [[/:?&=.]]. *)
Definition isUrlPunctuation (c : ascii) : bool :=
  existsb (Ascii.eqb c) ["/"; ":"; "?"; "&"; "="; "."]%char.

(** [s.replace(/[class]+/g, "_")]: every maximal run of characters of the
    class becomes one underscore; [inRun] tells that the character before
    was of the class. *)
Fixpoint replaceRuns (p : ascii -> bool) (inRun : bool) (s : string) : string :=
  match s with
  | EmptyString => EmptyString
  | String c r =>
      if p c then
        if inRun then replaceRuns p true r
        else String "_" (replaceRuns p true r)
      else String c (replaceRuns p false r)
  end.

(** [toLowerCase] on a one-byte code unit: A-Z and the capital letters
    0xC0-0xDE of Latin-1, 0xD7 apart, move up by 0x20. *)
Definition lowerLatin1 (c : ascii) : ascii :=
  let n := nat_of_ascii c in
  if (Nat.leb 65 n && Nat.leb n 90)
     || (Nat.leb 192 n && Nat.leb n 222 && negb (Nat.eqb n 215))
  then ascii_of_nat (n + 32) else c.

Definition sanitizeForFilename (s : string) : string :=
  str_take 100
    (str_map lowerLatin1
       (replaceRuns isWhiteSpace false (replaceRuns isUrlPunctuation false s))).

(** A character a sanitized name may hold: no character of the class, no
    white space, no capital letter. *)
Definition isFilenameSafe (c : ascii) : bool :=
  negb (isUrlPunctuation c) && negb (isWhiteSpace c)
  && negb (Nat.leb 65 (nat_of_ascii c) && Nat.leb (nat_of_ascii c) 90).

(** ** Sub-message boundaries *)

(** The sub-message begins with a topic header. *)
Definition beginsWithHeader (sub : list string) : bool :=
  match sub with
  | h :: _ => isTopicHeader h
  | [] => false
  end.

(** The sub-message is not empty and no part after its first is a topic
    header. *)
Definition headerOnlyFirst (sub : list string) : bool :=
  match sub with
  | _ :: r => forallb (fun p => negb (isTopicHeader p)) r
  | [] => false
  end.

(** ** Deltas that name the sport of their match *)

(** The category code in the header of an event delta is the sport id of
    the stored match the delta addresses. A delta that addresses no stored
    match, or no event, agrees. *)
Definition categoryAgrees (seg : ParsedSegment) (st : State) : bool :=
  let parsedId := parseItemId (stripActionSuffix (header seg)) in
  match pid_type parsedId with
  | ItEvent =>
      match jm_get (pid_eventId parsedId) (matches st) with
      | Some m => String.eqb (pid_categoryId parsedId) (sportId m)
      | None => true
      end
  | _ => true
  end.

(** [categoryAgrees] for the delta of a sub-message, when
    [processMessage] hands it to [processUpdate]. *)
Definition subMessageAgrees (parts : list string) (st : State) : bool :=
  match parts with
  | [] => true
  | h :: recs =>
      if isSkippedHeader h then true
      else if str_endsWith "F" h then true
      else if str_endsWith "U" h || str_endsWith "D" h || str_endsWith "I" h
           then categoryAgrees (deltaSegment h recs) st
           else true
  end.

(** [subMessageAgrees] for every sub-message the loop of [processMessage]
    reaches, each in the state the sub-messages before it leave. *)
Fixpoint deltasAgree (subs : list (list string)) (st : State) : bool :=
  match subs with
  | [] => true
  | parts :: rest =>
      subMessageAgrees parts st
      && match processSubMessage parts st with
         | (st1, Normal _) => deltasAgree rest st1
         | (_, Throw) => true
         end
  end.

(** The states reached by calls of [processMessage] in which every event
    delta names, in its header, the sport of the match it addresses. *)
Inductive reachableAgreeing : State -> Prop :=
| agree_init : reachableAgreeing initialState
| agree_step raw st :
    reachableAgreeing st ->
    deltasAgree (splitFrame raw) st = true ->
    reachableAgreeing (fst (processMessage raw st)).

(** Matches of sports without a serving indicator have none. *)
Definition serversExact (st : State) : Prop :=
  forall k m, jm_get k (matches st) = Some m ->
    sportHasServing m = false -> serving m = 0%nat.

(** A delta for the soccer match of [soccerDump] whose header carries the
    soccer category. *)
Definition soccerDelta : string := "OV5C1A_32_0U|PI=1,0;SS=1-0;|".

(** ** Registrations of fixture ids *)

(** The match that the EV branch of [processFullDump] stores for a record
    read in state [st], when it stores one: the sport context accepts the
    record, the record carries an event id, and its sport is one of the
    registry's own. *)
Definition registeredBy (seg : ParsedSegment) (st : State) : option SportMatch :=
  let f := fields seg in
  match recordType seg with
  | EV =>
      let st1 :=
        if truthyStr (f !! "CL")
           && truthyEntry (SPORT_REGISTRY (orElse (f !! "CL") ""))
        then withSport (orElse (f !! "CL") "") true st
        else st in
      let sid := orElse (f !! "CL") (currentSportId st1) in
      if inSupportedSport st1 && negb (str_isEmpty (segmentEventId seg)) then
        match SPORT_REGISTRY sid, parseTeams (orElse (f !! "NA") "") sid with
        | Config c, Normal teams =>
            Some (buildMatch f (segmentEventId seg) sid c teams st1)
        | _, _ => None
        end
      else None
  | _ => None
  end.

(** The history of [fixtureToEvent.set] calls, latest first: the fixture
    id and the event id of each match stored with a fixture id. It is no
    part of the state manager; the functions below follow the loops of
    [processMessage] and record the calls. *)
Definition FixtureLog : Type := list (string * string).

Definition logSegment (seg : ParsedSegment) (st : State) (log : FixtureLog)
  : FixtureLog :=
  match registeredBy seg st with
  | Some m =>
      if str_isEmpty (fixtureId m) then log
      else (fixtureId m, eventId m) :: log
  | None => log
  end.

Fixpoint logSegments (segs : list ParsedSegment) (st : State) (log : FixtureLog)
  : FixtureLog :=
  match segs with
  | [] => log
  | seg :: rest =>
      match applySegment seg st with
      | (st', Normal _) => logSegments rest st' (logSegment seg st log)
      | (_, Throw) => logSegment seg st log
      end
  end.

(** A global dump clears [fixtureToEvent], so the history starts anew. *)
Definition logSubMessage (parts : list string) (st : State) (log : FixtureLog)
  : FixtureLog :=
  match parts with
  | [] => log
  | h :: recs =>
      if isSkippedHeader h then log
      else if str_endsWith "F" h then
        logSegments (dumpSegments h recs)
          (resetForDump (str_includes "InPlay" h) st)
          (if str_includes "InPlay" h then [] else log)
      else log
  end.

Fixpoint logSubMessages (subs : list (list string)) (st : State)
    (log : FixtureLog) : FixtureLog :=
  match subs with
  | [] => log
  | parts :: rest =>
      match processSubMessage parts st with
      | (st1, Normal _) => logSubMessages rest st1 (logSubMessage parts st log)
      | (_, Throw) => logSubMessage parts st log
      end
  end.

(** A sequence of [processMessage] calls, each caught by the caller, with
    the history of registrations. *)
Fixpoint runLogged (raws : list string) (st : State) (log : FixtureLog)
  : State * FixtureLog :=
  match raws with
  | [] => (st, log)
  | raw :: rest =>
      runLogged rest (fst (processMessage raw st))
        (logSubMessages (splitFrame raw) st log)
  end.

Definition stateAfter (raws : list string) : State :=
  fst (runLogged raws initialState []).

Definition fixtureLog (raws : list string) : FixtureLog :=
  snd (runLogged raws initialState []).

(** The index holds, for each fixture id, the event id of its latest
    registration, and every stored match with a fixture id was registered
    with it. *)
Definition logged (log : FixtureLog) (st : State) : Prop :=
  (forall fx, fixtureToEvent st !! fx = assocFind fx log)
  /\ (forall k m, jm_get k (matches st) = Some m ->
        fixtureId m = "" \/ In (fixtureId m, eventId m) log).

(** [st'] holds the index of [st], and no match that [st] does not hold
    with the same fixture id and event id. *)
Definition sameIdentities (st st' : State) : Prop :=
  fixtureToEvent st' = fixtureToEvent st
  /\ (forall k m', jm_get k (matches st') = Some m' ->
        exists m, jm_get k (matches st) = Some m
                  /\ fixtureId m' = fixtureId m /\ eventId m' = eventId m).

(** Two EV records with fixture ids of their own. *)
Definition twoFixturesDump : string :=
  "OVInPlay_32_0F|EV;ID=1C13A_32_0;CL=13;OI=7;NA=a v b;|EV;ID=2C13A_32_0;CL=13;OI=8;NA=c v d;|".

(** ** Dumps as lists of records *)

















(* ===================================================================== *)
(** * Properties *)

(** ** The embedding on the scenarios of the protocol notes *)

Example parseItemId_event :
  let r := parseItemId "OV190321250C13A_32_0" in
  (pid_type r, pid_eventId r, pid_categoryId r) = (ItEvent, "190321250", "13").
Proof. reflexivity. Qed.

Example parseItemId_market :
  let r := parseItemId "6V190284886C13-1763_32" in
  (pid_type r, pid_eventId r, pid_categoryId r, pid_marketNum r)
  = (ItMarket, "190284886", "13", "1763").
Proof. reflexivity. Qed.

Example parseItemId_selection :
  let r := parseItemId "OV190340113-0701873422_32_0" in
  (pid_type r, pid_fixtureId r, pid_selectionId r)
  = (ItSelection, "190340113", "701873422").
Proof. reflexivity. Qed.

Example parseItemId_unknown : pid_type (parseItemId "OVInPlay_32_0") = ItUnknown.
Proof. reflexivity. Qed.

Example extractEventId_detail :
  extractEventId "6V190284886C13A_32_0" = "190284886".
Proof. reflexivity. Qed.

Example parseFloat_tenth :
  parseFloat "0.1" = S754_finite false 7205759403792794 (-56).
Proof. vm_compute. reflexivity. Qed.

Example parseInt_prefix : parseInt (Some " 42px") = numOfZ 42.
Proof. vm_compute. reflexivity. Qed.

(** S2: the game-won delta after S1 yields one score update with three
    changes; by [parseServing], PI=0,1 makes player 2 the server. *)
Example S2_game_won :
  exists u,
    snd (processMessage "OV190321250C13A_32_0U|PI=0,1;XP=0-0;SS=3-6,1-0;|"
           (fst (processMessage S1_payload initialState))) = Normal [u]
    /\ upd_type u = UScore /\ upd_eventId u = "190321250"
    /\ changes u
       = [ChSets [(numOfZ 3, numOfZ 6); (numOfZ 1, numOfZ 0)];
          ChGame "0" "0"; ChServing 2].
Proof.
  eexists. split; [vm_compute; reflexivity|].
  repeat split; vm_compute; reflexivity.
Qed.

(** S3: the odds delta yields one odds update and the decimal odds 5. *)
Example S3_odds_change :
  exists u mk s1 s2,
    snd (processMessage "OV190340113-701873422_32_0U|OD=4/1;|"
           (fst (processMessage S1_payload initialState))) = Normal [u]
    /\ upd_type u = UOdds
    /\ changes u = [ChOdds "Mariano Navone" "9/2" "4/1"]
    /\ markets (upd_match u) = [("1763", mk)]
    /\ selections mk = [s1; s2]
    /\ oddsDecimal s1 = numOfZ 5.
Proof.
  do 4 eexists. split; [vm_compute; reflexivity|].
  split; [reflexivity|]. split; [reflexivity|].
  split; [vm_compute; reflexivity|].
  split; vm_compute; reflexivity.
Qed.

(** S4: the delete delta yields one delete update and empties [matches]. *)
Example S4_delete :
  exists u,
    snd (processMessage "OV190321250C13A_32_0D||"
           (fst (processMessage S1_payload initialState))) = Normal [u]
    /\ upd_type u = UDelete /\ changes u = [ChDeleted]
    /\ getAllMatches
         (fst (processMessage "OV190321250C13A_32_0D||"
                 (fst (processMessage S1_payload initialState)))) = [].
Proof.
  eexists. split; [vm_compute; reflexivity|].
  repeat split; vm_compute; reflexivity.
Qed.

(** S5: a dump that opens with an unknown sport registers nothing. *)
Example S5_unknown_sport :
  getAllMatches
    (fst (processMessage
            "OVDetail_32_0F|CL;CL=999;NA=Curling;|EV;ID=7C999A_32_0;NA=a v b;|"
            (fst (processMessage S1_payload initialState))))
  = getAllMatches (fst (processMessage S1_payload initialState)).
Proof. vm_compute. reflexivity. Qed.

(** S6: control bytes delimit two sub-messages; 0x08 is dropped. *)
Example S6_control_bytes :
  splitFrame
    (String (ascii_of_nat 21) "HEADER1F|REC1;|"
     +:+ String (ascii_of_nat 8) (String (ascii_of_nat 21) "HEADER2U|F=1;|"))
  = [["HEADER1F"; "REC1;"; ""]; ["HEADER2U"; "F=1;"; ""]].
Proof. vm_compute. reflexivity. Qed.

(** ** Scenario S1: ingestion of a tennis full dump *)

(** C3, as the code behaves: S1 from the fresh state returns no update and
    leaves exactly one match, event 190321250, Mariano Navone v Luciano
    Darderi, Tennis, sets (3,6),(0,0), game 40-15, in play, one market 1763
    with selections at 9/2 (5.5) and 1/7 (the double nearest 8/7); its
    serving indicator is 1, since [parseServing] maps a first digit "1"
    to player 1. *)
Theorem S1_full_dump_ingested : S1_outcome 1.
Proof.
  unfold S1_outcome.
  do 4 eexists.
  split; [vm_compute; reflexivity|].
  split; [vm_compute; reflexivity|].
  repeat split; vm_compute; reflexivity.
Qed.

(** C3, as stated: the expectation [serving = 2] does not hold of S1. *)
Lemma S1_serving_is_not_2 : ~ S1_outcome 2.
Proof.
  unfold S1_outcome.
  intros (m & mk & s1 & s2 & _ & Hm & H).
  vm_compute in Hm. injection Hm as <-.
  destruct H as (_ & _ & _ & _ & _ & _ & _ & Hsv & _).
  discriminate Hsv.
Qed.

(** ** Rounding never turns a positive integer into zero or NaN *)

Section RoundingPositive.

Local Open Scope Z_scope.

Lemma digits2_pos_lower (p : positive) :
  2 ^ (Zpos (digits2_pos p) - 1) <= Zpos p.
Proof.
  induction p as [p IH | p IH |]; simpl digits2_pos.
  - rewrite Pos2Z.inj_succ.
    replace (Z.succ (Zpos (digits2_pos p)) - 1)
      with (Z.succ (Zpos (digits2_pos p) - 1)) by lia.
    rewrite Z.pow_succ_r by lia. lia.
  - rewrite Pos2Z.inj_succ.
    replace (Z.succ (Zpos (digits2_pos p)) - 1)
      with (Z.succ (Zpos (digits2_pos p) - 1)) by lia.
    rewrite Z.pow_succ_r by lia. lia.
  - simpl. lia.
Qed.

Lemma shr_1_m (mrs : shr_record) :
  0 <= shr_m mrs -> shr_m (shr_1 mrs) = shr_m mrs / 2.
Proof.
  destruct mrs as [m r s]. simpl shr_m. intros Hm.
  destruct m as [| [p | p |] | p]; cbv [shr_1 shr_m]; try lia.
  - reflexivity.
  - rewrite Pos2Z.inj_xI.
    apply (Z.div_unique _ _ _ 1); lia.
  - rewrite Pos2Z.inj_xO.
    apply (Z.div_unique _ _ _ 0); lia.
  - reflexivity.
Qed.

Lemma pow2_xI (p : positive) : 2 ^ Zpos p~1 = 2 * (2 ^ Zpos p * 2 ^ Zpos p).
Proof.
  replace (Zpos p~1) with (1 + (Zpos p + Zpos p)) by lia.
  rewrite !Z.pow_add_r by lia. reflexivity.
Qed.

Lemma pow2_xO (p : positive) : 2 ^ Zpos p~0 = 2 ^ Zpos p * 2 ^ Zpos p.
Proof.
  replace (Zpos p~0) with (Zpos p + Zpos p) by lia.
  rewrite !Z.pow_add_r by lia. reflexivity.
Qed.

Lemma iter_shr_1_m (p : positive) (mrs : shr_record) :
  0 <= shr_m mrs ->
  0 <= shr_m (SpecFloat.iter_pos shr_1 p mrs)
  /\ shr_m (SpecFloat.iter_pos shr_1 p mrs) = shr_m mrs / 2 ^ Zpos p.
Proof.
  revert mrs.
  induction p as [p IH | p IH |]; intros mrs Hm; simpl SpecFloat.iter_pos.
  - assert (H1 : 0 <= shr_m (shr_1 mrs)).
    { rewrite shr_1_m by assumption. apply Z.div_pos; lia. }
    destruct (IH _ H1) as [H2 E2].
    destruct (IH _ H2) as [H3 E3].
    split; [assumption|].
    rewrite E3, E2, shr_1_m by assumption.
    assert (0 < 2 ^ Zpos p) by (apply Z.pow_pos_nonneg; lia).
    rewrite !Z.div_div by lia.
    rewrite pow2_xI. reflexivity.
  - destruct (IH _ Hm) as [H2 E2].
    destruct (IH _ H2) as [H3 E3].
    split; [assumption|].
    rewrite E3, E2.
    assert (0 < 2 ^ Zpos p) by (apply Z.pow_pos_nonneg; lia).
    rewrite !Z.div_div by lia.
    rewrite pow2_xO. reflexivity.
  - rewrite shr_1_m by assumption.
    split; [apply Z.div_pos; lia | reflexivity].
Qed.

(** Shifting a positive mantissa down to its format exponent keeps it
    positive, as long as the exponent is not below the smallest one. *)
Lemma shr_fexp_positive (m e : Z) (l : location) :
  0 < m -> emin prec emax <= e ->
  0 < shr_m (fst (shr_fexp prec emax m e l))
  /\ emin prec emax <= snd (shr_fexp prec emax m e l).
Proof.
  intros Hm He.
  destruct m as [| p | p]; try lia.
  unfold shr_fexp, shr. simpl Zdigits2.
  assert (Hrec : shr_m (shr_record_of_loc (Zpos p) l) = Zpos p).
  { destruct l as [| []]; reflexivity. }
  pose proof (digits2_pos_lower p) as Hd.
  set (d := Zpos (digits2_pos p)) in *.
  assert (Hd1 : 1 <= d) by (unfold d; lia).
  destruct (fexp prec emax (d + e) - e) as [| n | n] eqn:Hn;
    simpl fst; simpl snd; try (rewrite Hrec; lia).
  split.
  - destruct (iter_shr_1_m n (shr_record_of_loc (Zpos p) l)) as [_ E];
      [rewrite Hrec; lia|].
    rewrite E, Hrec.
    assert (Hle : Zpos n <= d - 1).
    { unfold fexp, emin, prec, emax in *. lia. }
    assert (H2 : 2 ^ Zpos n <= 2 ^ (d - 1)).
    { apply Z.pow_le_mono_r; lia. }
    assert (Hpos : 0 < 2 ^ Zpos n) by (apply Z.pow_pos_nonneg; lia).
    apply Z.div_str_pos. lia.
  - lia.
Qed.

Lemma round_nearest_even_ge (m : Z) (l : location) :
  m <= round_nearest_even m l.
Proof.
  destruct l as [| []]; simpl; try lia.
  destruct (Z.even m); lia.
Qed.

Lemma binary_round_aux_truthy (sx : bool) (m e : Z) (l : location) :
  0 < m -> emin prec emax <= e ->
  truthyNum (binary_round_aux prec emax sx m e l) = true.
Proof.
  intros Hm He. unfold binary_round_aux.
  destruct (shr_fexp_positive m e l Hm He) as [H1 H2].
  destruct (shr_fexp prec emax m e l) as [mrs1 e1].
  simpl fst in H1. simpl snd in H2.
  pose proof (round_nearest_even_ge (shr_m mrs1) (loc_of_shr_record mrs1)) as Hr.
  set (m1 := round_nearest_even (shr_m mrs1) (loc_of_shr_record mrs1)) in *.
  destruct (shr_fexp_positive m1 e1 loc_Exact ltac:(lia) H2) as [H3 _].
  destruct (shr_fexp prec emax m1 e1 loc_Exact) as [mrs2 e2].
  simpl fst in H3.
  destruct (shr_m mrs2) as [| q | q]; try lia.
  destruct (e2 <=? emax - prec); reflexivity.
Qed.

Lemma binary_round_truthy (sx : bool) (p : positive) :
  truthyNum (binary_round prec emax sx p 0) = true.
Proof.
  unfold binary_round, shl_align.
  destruct (fexp prec emax (Zpos (digits2_pos p) + 0) - 0) as [| n | n] eqn:Hn;
    apply binary_round_aux_truthy; try lia;
    unfold fexp, emin, prec, emax in *; lia.
Qed.

(** A positive integer is a truthy number. *)
Lemma numOfZ_pos_truthy (z : Z) : 0 < z -> truthyNum (numOfZ z) = true.
Proof.
  intros Hz. destruct z as [| p | p]; try lia.
  apply binary_round_truthy.
Qed.

End RoundingPositive.

(** ** Strings: splitting and searching *)

Lemma prefix_single (c x : ascii) (r : string) :
  String.prefix (String c "") (String x r) = Ascii.eqb c x.
Proof.
  simpl. destruct (ascii_dec c x) as [-> | Hne].
  - rewrite Ascii.eqb_refl. destruct r; reflexivity.
  - symmetry. apply Ascii.eqb_neq. assumption.
Qed.

Lemma str_includes_single (c x : ascii) (r : string) :
  str_includes (String c "") (String x r)
  = Ascii.eqb c x || str_includes (String c "") r.
Proof.
  change (str_includes (String c "") (String x r))
    with (String.prefix (String c "") (String x r)
          || str_includes (String c "") r).
  rewrite prefix_single. reflexivity.
Qed.

Lemma str_includes_single_empty (c : ascii) :
  str_includes (String c "") "" = false.
Proof. reflexivity. Qed.

Lemma str_split_nonempty (c : ascii) (s : string) : str_split c s <> [].
Proof.
  induction s as [| x r IH]; simpl; [discriminate|].
  destruct (Ascii.eqb x c); [discriminate|].
  destruct (str_split c r); [contradiction | discriminate].
Qed.

(** A string without the separator is a single piece. *)
Lemma str_split_without (c : ascii) (s : string) :
  str_includes (String c "") s = false -> str_split c s = [s].
Proof.
  induction s as [| x r IH]; intros H; [reflexivity|].
  rewrite str_includes_single in H.
  apply orb_false_iff in H as [Hx Hr].
  simpl. rewrite Ascii.eqb_sym, Hx, (IH Hr). reflexivity.
Qed.

(** Splitting distributes over a separator that joins two strings. *)
Lemma str_split_app (c : ascii) (a b : string) :
  str_split c (a +:+ String c b) = str_split c a ++ str_split c b.
Proof.
  induction a as [| x r IH]; simpl.
  - rewrite Ascii.eqb_refl. reflexivity.
  - destruct (Ascii.eqb x c); [rewrite IH; reflexivity|].
    rewrite IH.
    destruct (str_split c r) as [| p ps] eqn:E; [|reflexivity].
    exfalso. exact (str_split_nonempty c r E).
Qed.

Lemma str_append_cons (x : ascii) (r s : string) :
  String x r +:+ s = String x (r +:+ s).
Proof. reflexivity. Qed.

Lemma str_append_nil (s : string) : "" +:+ s = s.
Proof. reflexivity. Qed.

Lemma str_includes_app_sep (c : ascii) (a b : string) :
  str_includes (String c "") (a +:+ String c b) = true.
Proof.
  induction a as [| x r IH].
  - rewrite str_append_nil, str_includes_single, Ascii.eqb_refl. reflexivity.
  - rewrite str_append_cons, str_includes_single, IH. apply orb_true_r.
Qed.

(** ** Numbers read from digit strings *)

Lemma isDigit_not_space (c : ascii) : isDigit c = true -> isWhiteSpace c = false.
Proof.
  destruct c as [[] [] [] [] [] [] [] []]; vm_compute; congruence.
Qed.

Lemma isDigit_not_sign (c : ascii) (r : string) :
  isDigit c = true -> takeSign (String c r) = (false, String c r).
Proof.
  destruct c as [[] [] [] [] [] [] [] []]; vm_compute; congruence.
Qed.

Lemma isDigit_not_Infinity (c : ascii) (r : string) :
  isDigit c = true -> str_startsWith "Infinity" (String c r) = false.
Proof.
  destruct c as [[] [] [] [] [] [] [] []]; vm_compute; congruence.
Qed.

Lemma spanDigits_all (s : string) :
  allDigits s = true -> spanDigits s = (s, "").
Proof.
  induction s as [| c r IH]; intros H; [reflexivity|].
  simpl in H. apply andb_true_iff in H as [Hc Hr].
  simpl. rewrite Hc, (IH Hr). reflexivity.
Qed.

Lemma str_append_empty (s : string) : s +:+ "" = s.
Proof.
  induction s as [| c r IH]; [reflexivity|].
  rewrite str_append_cons, IH. reflexivity.
Qed.

(** [parseFloat] of a non-empty digit string is the nearest double of the
    integer it denotes. *)
Lemma parseFloat_digits (s : string) :
  negb (str_isEmpty s) && allDigits s = true ->
  parseFloat s = numOfDecimal false (digitsValue 0 s) 0.
Proof.
  intros H. apply andb_true_iff in H as [Hne Hall].
  destruct s as [| c r]; [discriminate Hne|].
  pose proof Hall as Hall'. simpl in Hall'.
  apply andb_true_iff in Hall' as [Hc _].
  unfold parseFloat.
  change (str_trimStart (String c r))
    with (if isWhiteSpace c then str_trimStart r else String c r).
  rewrite (isDigit_not_space c Hc), (isDigit_not_sign c r Hc).
  rewrite (isDigit_not_Infinity c r Hc), (spanDigits_all _ Hall).
  cbn [str_isEmpty andb String.length Z.of_nat takeExponent].
  rewrite str_append_empty. reflexivity.
Qed.

Lemma numOfDecimal_integer (n : N) :
  n <> 0%N -> numOfDecimal false n 0 = numOfZ (Z.of_N n).
Proof.
  destruct n as [| p]; [congruence|]. intros _.
  unfold numOfDecimal, numOfZ. simpl.
  rewrite Pos.mul_1_r. reflexivity.
Qed.

Lemma parseFloat_positive (s : string) :
  isPositiveInteger s = true ->
  parseFloat s = numOfZ (intValue s) /\ truthyNum (parseFloat s) = true.
Proof.
  unfold isPositiveInteger, intValue. intros H.
  apply andb_true_iff in H as [H Hnz].
  apply negb_true_iff, N.eqb_neq in Hnz.
  rewrite (parseFloat_digits s H), (numOfDecimal_integer _ Hnz).
  split; [reflexivity|].
  apply numOfZ_pos_truthy. lia.
Qed.

(** ** Fractional odds *)

(** C2, as the code behaves. For strings [n] and [d] without a slash:
    ["n/d"] converts to [n/d + 1] in binary64 arithmetic when both are
    positive integers; it converts to 0 when [parseFloat d] is 0 or NaN,
    which covers a zero denominator; and a string without a slash, the
    empty one included, converts to 0. *)
Theorem fractionalToDecimal_cases (n d : string)
    (Hn : str_includes "/" n = false) (Hd : str_includes "/" d = false) :
  (isPositiveInteger n = true -> isPositiveInteger d = true ->
   fractionalToDecimal (n +:+ "/" +:+ d)
   = numAdd (numDiv (numOfZ (intValue n)) (numOfZ (intValue d))) (numOfZ 1))
  /\ (truthyNum (parseFloat d) = false ->
      fractionalToDecimal (n +:+ "/" +:+ d) = numZero)
  /\ fractionalToDecimal n = numZero.
Proof.
  assert (Hsplit : str_split "/" (n +:+ "/" +:+ d) = [n; d]).
  { change ("/" +:+ d) with (String "/" d).
    rewrite str_split_app, (str_split_without _ _ Hn), (str_split_without _ _ Hd).
    reflexivity. }
  assert (Hinc : str_includes "/" (n +:+ "/" +:+ d) = true)
    by apply str_includes_app_sep.
  assert (Hne : str_isEmpty (n +:+ "/" +:+ d) = false)
    by (destruct n; reflexivity).
  repeat split.
  - intros Pn Pd.
    destruct (parseFloat_positive n Pn) as [En _].
    destruct (parseFloat_positive d Pd) as [Ed Td].
    unfold fractionalToDecimal.
    rewrite Hne, Hinc, Hsplit. cbn [orb negb lookup list_lookup].
    rewrite Td. cbn [negb]. rewrite En, Ed. reflexivity.
  - intros Fd. unfold fractionalToDecimal.
    rewrite Hne, Hinc, Hsplit. cbn [orb negb lookup list_lookup].
    rewrite Fd. reflexivity.
  - unfold fractionalToDecimal. rewrite Hn.
    destruct (str_isEmpty n); reflexivity.
Qed.

(** The theorem at the odds "9/2" (5.5), at the zero denominator "9/0" and
    at the slash-free "evens". *)
Lemma fractionalToDecimal_cases_witness :
  fractionalToDecimal "9/2" = parseFloat "5.5"
  /\ fractionalToDecimal "9/0" = numZero
  /\ fractionalToDecimal "evens" = numZero.
Proof.
  split; [|split].
  - refine (eq_trans
              (proj1 (fractionalToDecimal_cases "9" "2" eq_refl eq_refl)
                 eq_refl eq_refl) _).
    vm_compute. reflexivity.
  - exact (proj1 (proj2 (fractionalToDecimal_cases "9" "0" eq_refl eq_refl))
             eq_refl).
  - exact (proj2 (proj2 (fractionalToDecimal_cases "evens" "" eq_refl eq_refl))).
Defined.

(** C2, as stated: a malformed string is not always converted to 0. The
    first two pieces of "1/2/3" are read and the rest ignored, which gives
    1.5. *)
Lemma fractionalToDecimal_malformed_not_zero :
  fractionalToDecimal "1/2/3" = parseFloat "1.5"
  /\ fractionalToDecimal "1/2/3" <> numZero.
Proof.
  split; [vm_compute; reflexivity | vm_compute; discriminate].
Qed.

(** ** Insertion-ordered maps *)

Section JsMapFacts.
Context {V : Type}.
Implicit Types (m : jsmap V) (k : string) (v : V).

Lemma jm_get_set_eq k v m : jm_get k (jm_set k v m) = Some v.
Proof.
  induction m as [| [k' v'] r IH]; simpl.
  - unfold jm_get. simpl. rewrite String.eqb_refl. reflexivity.
  - destruct (String.eqb k' k) eqn:E; unfold jm_get in *; simpl.
    + rewrite String.eqb_refl. reflexivity.
    + rewrite E. exact IH.
Qed.

Lemma jm_get_set_ne k k' v m :
  k <> k' -> jm_get k' (jm_set k v m) = jm_get k' m.
Proof.
  intros Hne. apply String.eqb_neq in Hne.
  induction m as [| [k0 v0] r IH]; unfold jm_get in *; simpl.
  - rewrite Hne. reflexivity.
  - destruct (String.eqb k0 k) eqn:E; simpl.
    + apply String.eqb_eq in E. subst k0. rewrite Hne. reflexivity.
    + rewrite IH. reflexivity.
Qed.

Lemma jm_get_delete_eq k m : jm_get k (jm_delete k m) = None.
Proof.
  induction m as [| [k0 v0] r IH]; unfold jm_get, jm_delete in *; simpl.
  - reflexivity.
  - destruct (String.eqb k0 k) eqn:E; simpl; [exact IH|].
    rewrite E. exact IH.
Qed.

Lemma jm_get_delete_ne k k' m :
  k <> k' -> jm_get k' (jm_delete k m) = jm_get k' m.
Proof.
  intros Hne.
  induction m as [| [k0 v0] r IH]; unfold jm_get, jm_delete in *; simpl.
  - reflexivity.
  - destruct (String.eqb k0 k) eqn:E; simpl.
    + apply String.eqb_eq in E. subst k0.
      apply String.eqb_neq in Hne. rewrite Hne. exact IH.
    + rewrite IH. reflexivity.
Qed.


Lemma jm_In_set k v k' v' m :
  In (k', v') (jm_set k v m) -> (k' = k /\ v' = v) \/ In (k', v') m.
Proof.
  induction m as [| [k0 v0] r IH]; simpl.
  - intros [[= <- <-] | []]. left. split; reflexivity.
  - destruct (String.eqb k0 k) eqn:E; simpl.
    + intros [[= <- <-] | H]; [left; split; reflexivity | right; right; exact H].
    + intros [H | H]; [right; left; exact H|].
      destruct (IH H) as [? | ?]; [left | right; right]; assumption.
Qed.

Lemma jm_In_delete k k' v' m : In (k', v') (jm_delete k m) -> In (k', v') m.
Proof. unfold jm_delete. intros H. apply filter_In in H. tauto. Qed.

Lemma jm_get_is_Some_In k m :
  is_Some (jm_get k m) <-> In k (jm_keys m).
Proof.
  induction m as [| [k0 v0] r IH]; unfold jm_get, jm_keys in *; simpl.
  - split; [intros [? [=]] | intros []].
  - destruct (String.eqb k0 k) eqn:E.
    + apply String.eqb_eq in E. split; [intros _; left; exact E | eauto].
    + apply String.eqb_neq in E. rewrite IH. tauto.
Qed.

End JsMapFacts.

(** ** Odds deltas *)

Section OddsDelta.
Variables (f : gmap string string) (m : SportMatch) (selId od : string).
Hypothesis HOD : f !! "OD" = Some od.

Lemma updateSelection_changes (w : bool) (s : Selection) :
  List.length (snd (updateSelection f m w selId s))
  = if oddsHit selId od s then 1%nat else 0%nat.
Proof.
  unfold updateSelection, oddsHit. rewrite HOD.
  destruct (String.eqb (sel_id s) selId); [|reflexivity].
  destruct (String.eqb od (odds s)); reflexivity.
Qed.

Lemma updateSelections_changes (w : bool) (sels : list Selection) :
  List.length (snd (updateSelections f m w selId sels))
  = List.length (List.filter (oddsHit selId od) sels).
Proof.
  induction sels as [| s r IH]; [reflexivity|].
  simpl updateSelections.
  pose proof (updateSelection_changes w s) as H1.
  destruct (updateSelection f m w selId s) as [s' c1].
  destruct (updateSelections f m w selId r) as [r' c2].
  simpl in *. rewrite length_app, H1, IH.
  destruct (oddsHit selId od s); reflexivity.
Qed.

Lemma updateMarkets_changes (ms : jsmap Market) :
  List.length (snd (updateMarkets f m selId ms))
  = List.length
      (List.filter (oddsHit selId od)
         (flat_map (fun kv => selections (snd kv)) ms)).
Proof.
  induction ms as [| [k mk] r IH]; [reflexivity|].
  simpl updateMarkets. unfold updateMarket.
  pose proof (updateSelections_changes
                (Nat.leb 3 (List.length (selections mk))) (selections mk)) as H1.
  destruct (updateSelections f m _ selId (selections mk)) as [sels' c1].
  destruct (updateMarkets f m selId r) as [r' c2].
  simpl in *. rewrite length_app, H1, IH, List.filter_app, length_app.
  reflexivity.
Qed.

End OddsDelta.

(** C4, as the code behaves: a selection-scoped delta that resolves to a
    registered match and whose OD differs from the stored odds of [k >= 1]
    selections with the addressed id yields exactly one update, of type
    odds, for the resolved event; its [changes] has [k] entries, one per
    selection hit. *)
Theorem odds_delta_one_update (seg : ParsedSegment) (st : State)
    (evId od : string) (m : SportMatch) (k : nat)
    (Hhdr : header seg <> "")
    (Hsel : pid_type (parseItemId (stripActionSuffix (header seg))) = ItSelection)
    (Hfx : fixtureToEvent st
             !! pid_fixtureId (parseItemId (stripActionSuffix (header seg)))
           = Some evId)
    (Hev : evId <> "")
    (Hm : jm_get evId (matches st) = Some m)
    (Hod : fields seg !! "OD" = Some od)
    (Hk : oddsHits (pid_selectionId (parseItemId (stripActionSuffix (header seg))))
            od m = k)
    (Hpos : (1 <= k)%nat) :
  exists u,
    snd (processUpdate seg st) = Some u
    /\ upd_type u = UOdds
    /\ upd_eventId u = evId
    /\ List.length (changes u) = k.
Proof.
  unfold processUpdate.
  destruct (header seg) as [| c r] eqn:Eh; [congruence|].
  cbn [str_isEmpty]. rewrite Hsel, Hfx.
  destruct evId as [| c' r']; [congruence|]. cbn [str_isEmpty].
  rewrite Hm.
  pose proof (updateMarkets_changes (fields seg) m
                (pid_selectionId (parseItemId (stripActionSuffix (String c r))))
                od Hod (markets m)) as Hlen.
  destruct (updateMarkets _ m _ (markets m)) as [ms' chs].
  simpl in Hlen. unfold oddsHits, allSelections in Hk.
  rewrite Hk in Hlen.
  destruct chs as [| ch chs]; [simpl in Hlen; lia|].
  eexists. split; [reflexivity|]. simpl. auto.
Qed.

(** The theorem at scenario S3: the delta for selection 701873422 with OD=4/1
    hits one selection of the S1 match. *)
Lemma odds_delta_one_update_witness :
  exists u,
    snd (processUpdate (deltaSegment "OV190340113-701873422_32_0U" ["OD=4/1;"; ""])
           (fst (processMessage S1_payload initialState))) = Some u
    /\ upd_type u = UOdds
    /\ upd_eventId u = "190321250"
    /\ List.length (changes u) = 1%nat.
Proof.
  set (st := fst (processMessage S1_payload initialState)).
  assert (Hm : exists m, jm_get "190321250" (matches st) = Some m)
    by (vm_compute; eauto).
  destruct Hm as [m Hm].
  refine (odds_delta_one_update _ st "190321250" "4/1" m 1 _ _ _ _ Hm _ _ _).
  - vm_compute. discriminate.
  - vm_compute. reflexivity.
  - vm_compute. reflexivity.
  - discriminate.
  - vm_compute. reflexivity.
  - vm_compute in Hm. injection Hm as <-. vm_compute. reflexivity.
  - lia.
Defined.

(** C4, as stated: with two selections hit the delta does not emit two
    updates. Selection 5 sits in both markets of the match; the delta
    OV7-5 with OD=2/1 changes both and returns a single update with two
    change entries. *)
Lemma odds_delta_two_hits_one_event :
  exists (m : SportMatch) (u : MatchUpdate),
    jm_get "1" (matches (fst (processMessage twoMarketsDump initialState))) = Some m
    /\ fixtureToEvent (fst (processMessage twoMarketsDump initialState)) !! "7"
       = Some "1"
    /\ oddsHits "5" "2/1" m = 2%nat
    /\ snd (processMessage "OV7-5_32_0U|OD=2/1;|"
              (fst (processMessage twoMarketsDump initialState)))
       = Normal [u]
    /\ upd_type u = UOdds
    /\ List.length (changes u) = 2%nat
    /\ List.length [u] <> oddsHits "5" "2/1" m.
Proof.
  do 2 eexists.
  split; [vm_compute; reflexivity|].
  split; [vm_compute; reflexivity|].
  split; [vm_compute; reflexivity|].
  split; [vm_compute; reflexivity|].
  split; [vm_compute; reflexivity|].
  split; [vm_compute; reflexivity|].
  vm_compute. discriminate.
Qed.

(** ** Deleting a match *)

(** C10: an event-scoped D delta that finds its match removes the entry
    from [matches] and returns a delete update; the other entries of
    [matches] and the three reverse indexes are as before. A later
    selection-scoped delta whose fixture id still resolves to the deleted
    event returns no update and leaves the state as it is. *)
Theorem delete_leaves_indexes_stale (seg : ParsedSegment) (st : State)
    (m : SportMatch)
    (Hhdr : header seg <> "")
    (Hact : action seg = ActD)
    (Hev : pid_type (parseItemId (stripActionSuffix (header seg))) = ItEvent)
    (Hcfg : truthyEntry
              (SPORT_REGISTRY
                 (pid_categoryId (parseItemId (stripActionSuffix (header seg)))))
            = true)
    (Hm : jm_get (pid_eventId (parseItemId (stripActionSuffix (header seg))))
            (matches st) = Some m) :
  let e := pid_eventId (parseItemId (stripActionSuffix (header seg))) in
  let st' := fst (processUpdate seg st) in
  (exists u, snd (processUpdate seg st) = Some u
             /\ upd_type u = UDelete /\ upd_eventId u = e
             /\ changes u = [ChDeleted])
  /\ jm_get e (matches st') = None
  /\ (forall k, k <> e -> jm_get k (matches st') = jm_get k (matches st))
  /\ fixtureToEvent st' = fixtureToEvent st
  /\ itemToEvent st' = itemToEvent st
  /\ selectionInfo st' = selectionInfo st
  /\ (forall seg2 : ParsedSegment,
        pid_type (parseItemId (stripActionSuffix (header seg2))) = ItSelection ->
        fixtureToEvent st
          !! pid_fixtureId (parseItemId (stripActionSuffix (header seg2)))
        = Some e ->
        processUpdate seg2 st' = (st', None)).
Proof.
  intros e st'.
  assert (E : processUpdate seg st
              = (withMatches (jm_delete e (matches st)) st,
                 Some {| upd_type := UDelete; upd_eventId := e;
                         upd_match :=
                           fst (applyEventFields
                                  (SPORT_REGISTRY
                                     (pid_categoryId
                                        (parseItemId
                                           (stripActionSuffix (header seg)))))
                                  (fields seg) m);
                         changes := [ChDeleted] |})).
  { assert (Hne : str_isEmpty (header seg) = false)
      by (destruct (header seg) eqn:Eh; [congruence | reflexivity]).
    unfold processUpdate, e.
    rewrite Hne, Hev, Hcfg. cbn [negb]. rewrite Hm.
    destruct (applyEventFields _ (fields seg) m) as [m' chs].
    rewrite Hact. reflexivity. }
  subst st'. rewrite E. cbn [fst snd].
  split; [eexists; split; [reflexivity|]; simpl; auto|].
  split; [apply jm_get_delete_eq|].
  split; [intros k Hk; apply jm_get_delete_ne; congruence|].
  split; [reflexivity|]. split; [reflexivity|]. split; [reflexivity|].
  intros seg2 Hsel Hfx.
  unfold processUpdate.
  destruct (str_isEmpty (header seg2)); [reflexivity|].
  rewrite Hsel. cbn [fixtureToEvent withMatches]. rewrite Hfx.
  destruct (str_isEmpty e); [reflexivity|].
  cbn [matches withMatches]. rewrite jm_get_delete_eq. reflexivity.
Qed.

(** The theorem at scenario S4, followed by the S3 odds delta. *)
Lemma delete_leaves_indexes_stale_witness :
  let st := fst (processMessage S1_payload initialState) in
  let st' := fst (processUpdate (deltaSegment "OV190321250C13A_32_0D" [""; ""]) st) in
  jm_get "190321250" (matches st') = None
  /\ fixtureToEvent st' !! "190340113" = Some "190321250"
  /\ processUpdate (deltaSegment "OV190340113-701873422_32_0U" ["OD=4/1;"; ""]) st'
     = (st', None).
Proof.
  intros st st'.
  assert (Hm : exists m, jm_get "190321250" (matches st) = Some m)
    by (vm_compute; eauto).
  destruct Hm as [m Hm].
  destruct (delete_leaves_indexes_stale
              (deltaSegment "OV190321250C13A_32_0D" [""; ""]) st m)
    as (_ & Hgone & _ & Hfx & _ & _ & Hdrop).
  - vm_compute. discriminate.
  - vm_compute. reflexivity.
  - vm_compute. reflexivity.
  - vm_compute. reflexivity.
  - exact Hm.
  - split; [exact Hgone|].
    split; [unfold st'; rewrite Hfx; vm_compute; reflexivity|].
    apply Hdrop; vm_compute; reflexivity.
Defined.

(** ** Induction over the records of a full dump *)

Lemma str_isEmpty_false (s : string) : str_isEmpty s = false -> s <> "".
Proof. destruct s; [discriminate | discriminate]. Qed.

Lemma str_isEmpty_true (s : string) : str_isEmpty s = true -> s = "".
Proof. destruct s; [reflexivity | discriminate]. Qed.

(** A property of states that the five effects of a record preserve is
    preserved by the record loop, also when the loop is left by a
    [TypeError]. [ok] restricts the records considered. *)
Section SegmentInduction.
Variable P : State -> Prop.
Variable ok : ParsedSegment -> Prop.

Hypothesis P_sport : forall sid b st, P st -> P (withSport sid b st).
Hypothesis P_tournament :
  forall t code cat st, P st -> P (withTournament t code cat st).
Hypothesis P_register :
  forall seg st sid c teams,
    ok seg -> recordType seg = EV -> P st ->
    let evId := extractEventId (orElse (fields seg !! "ID") "") in
    evId <> "" ->
    SPORT_REGISTRY sid = Config c ->
    P (registerMatch (orElse (fields seg !! "IT") (orElse (fields seg !! "ID") ""))
         (buildMatch (fields seg) evId sid c teams st) st).
Hypothesis P_market :
  forall f st, lastEventId st <> "" -> P st -> P (applyMA f st).
Hypothesis P_selection :
  forall f st, lastEventId st <> "" -> P st -> P (applyPA f st).

Lemma applyEV_preserves (seg : ParsedSegment) (st : State) :
  ok seg -> recordType seg = EV -> P st -> P (fst (applyEV (fields seg) st)).
Proof.
  intros Hok Hrt HP. unfold applyEV.
  destruct (str_isEmpty (extractEventId (orElse (fields seg !! "ID") ""))) eqn:Ee;
    [exact HP|].
  destruct (SPORT_REGISTRY (orElse (fields seg !! "CL") (currentSportId st)))
    as [c | |] eqn:Ec; try exact HP.
  destruct (parseTeams _ _) as [teams |]; [|exact HP].
  cbn [fst]. apply P_register; auto using str_isEmpty_false.
Qed.

Lemma applySegment_preserves (seg : ParsedSegment) (st : State) :
  ok seg -> P st -> P (fst (applySegment seg st)).
Proof.
  intros Hok HP. unfold applySegment.
  destruct (recordType seg) eqn:Hrt; cbn [fst];
    try (apply P_sport; exact HP);
    try (destruct (inSupportedSport st); cbn [negb fst]; try exact HP;
         first [ apply P_tournament; exact HP
               | destruct (str_isEmpty (lastEventId st)) eqn:El; cbn [fst];
                 [exact HP | first [apply P_market | apply P_selection];
                             auto using str_isEmpty_false] ]).
  (* EV *)
  set (st1 := if truthyStr (fields seg !! "CL")
                 && truthyEntry (SPORT_REGISTRY (orElse (fields seg !! "CL") ""))
              then withSport (orElse (fields seg !! "CL") "") true st else st).
  assert (HP1 : P st1).
  { unfold st1. destruct (_ && _); [apply P_sport|]; exact HP. }
  destruct (inSupportedSport st1); cbn [negb fst]; [|exact HP1].
  apply applyEV_preserves; assumption.
Qed.

Lemma runSegments_preserves (segs : list ParsedSegment) (st : State) :
  Forall ok segs -> P st -> P (fst (runSegments segs st)).
Proof.
  revert st. induction segs as [| seg rest IH]; intros st Hok HP; [exact HP|].
  inversion Hok as [| ? ? Hseg Hrest]; subst.
  simpl runSegments.
  pose proof (applySegment_preserves seg st Hseg HP) as H1.
  destruct (applySegment seg st) as [st' [[] |]]; cbn [fst] in *.
  - apply IH; assumption.
  - exact H1.
Qed.

End SegmentInduction.

(** ** Unique keys *)

Section JsMapKeys.
Context {V : Type}.
Implicit Types (m : jsmap V) (k : string) (v : V).

Lemma jm_keys_set k v m :
  (In k (jm_keys m) /\ jm_keys (jm_set k v m) = jm_keys m)
  \/ (~ In k (jm_keys m) /\ jm_keys (jm_set k v m) = jm_keys m ++ [k]).
Proof.
  induction m as [| [k0 v0] r IH]; unfold jm_keys in *; simpl.
  - right. tauto.
  - destruct (String.eqb k0 k) eqn:E; simpl.
    + apply String.eqb_eq in E. subst k0. left. tauto.
    + apply String.eqb_neq in E.
      destruct IH as [[Hin Heq] | [Hnot Heq]]; rewrite Heq.
      * left. tauto.
      * right. split; [intros [? | ?]; tauto | reflexivity].
Qed.

Lemma jm_set_NoDup k v m :
  List.NoDup (jm_keys m) -> List.NoDup (jm_keys (jm_set k v m)).
Proof.
  intros H.
  destruct (jm_keys_set k v m) as [[_ ->] | [Hnot ->]]; [exact H|].
  apply List.NoDup_app; [exact H | repeat constructor; intros [] |].
  intros x Hx [<- | []]. exact (Hnot Hx).
Qed.

Lemma jm_delete_NoDup k m :
  List.NoDup (jm_keys m) -> List.NoDup (jm_keys (jm_delete k m)).
Proof.
  induction m as [| [k0 v0] r IH]; unfold jm_keys, jm_delete in *; simpl;
    intros H; [constructor|].
  inversion H as [| ? ? Hnot Hr]; subst.
  destruct (String.eqb k0 k); simpl; [exact (IH Hr)|].
  constructor; [|exact (IH Hr)].
  intros Hin. apply Hnot.
  apply in_map_iff in Hin as [[k1 v1] [E Hin]].
  apply filter_In in Hin as [Hin _].
  apply in_map_iff. exists (k1, v1). split; assumption.
Qed.

Lemma jm_In_get k v m :
  List.NoDup (jm_keys m) -> In (k, v) m -> jm_get k m = Some v.
Proof.
  induction m as [| [k0 v0] r IH]; unfold jm_get, jm_keys in *; simpl;
    intros H Hin; [contradiction|].
  inversion H as [| ? ? Hnot Hr]; subst.
  destruct Hin as [[= -> ->] | Hin].
  - rewrite String.eqb_refl. reflexivity.
  - destruct (String.eqb k0 k) eqn:E; [|exact (IH Hr Hin)].
    apply String.eqb_eq in E. subst k0.
    exfalso. apply Hnot. apply in_map_iff. exists (k, v). split; auto.
Qed.

Lemma jm_values_get v m :
  List.NoDup (jm_keys m) -> In v (jm_values m) -> exists k, jm_get k m = Some v.
Proof.
  intros H Hin. unfold jm_values in Hin.
  apply in_map_iff in Hin as [[k v'] [E Hin]]. simpl in E. subst v'.
  exists k. apply jm_In_get; assumption.
Qed.

End JsMapKeys.

(** ** The index invariant is kept by every step *)

Lemma indexInvariant_frame (st st' : State) :
  matches st' = matches st ->
  fixtureToEvent st' = fixtureToEvent st ->
  lastEventId st' = lastEventId st ->
  indexInvariant st -> indexInvariant st'.
Proof.
  unfold indexInvariant, wellKeyed, fixturesIndexed, lastRegisteredLinked.
  intros -> -> ->. trivial.
Qed.

Lemma indexInvariant_replace (st : State) (k : string) (m m' : SportMatch) :
  indexInvariant st ->
  jm_get k (matches st) = Some m ->
  eventId m' = eventId m -> fixtureId m' = fixtureId m ->
  indexInvariant (withMatches (jm_set k m' (matches st)) st).
Proof.
  intros ([Hnd Hkey] & Hfx & Hlast) Hm He Hf.
  unfold indexInvariant, wellKeyed, fixturesIndexed, lastRegisteredLinked.
  cbn [matches fixtureToEvent lastEventId withMatches].
  assert (Hget : forall k0 x, jm_get k0 (jm_set k m' (matches st)) = Some x ->
            (k0 = k /\ x = m') \/ (k0 <> k /\ jm_get k0 (matches st) = Some x)).
  { intros k0 x Hx. destruct (decide (k = k0)) as [<- | Hne].
    - rewrite jm_get_set_eq in Hx. left. split; congruence.
    - rewrite jm_get_set_ne in Hx by assumption. right. split; congruence. }
  repeat split.
  - apply jm_set_NoDup. exact Hnd.
  - destruct (Hget _ _ H) as [[-> ->] | [_ Hold]].
    + rewrite He. exact (proj1 (Hkey _ _ Hm)).
    + exact (proj1 (Hkey _ _ Hold)).
  - destruct (Hget _ _ H) as [[-> ->] | [_ Hold]].
    + exact (proj2 (Hkey _ _ Hm)).
    + exact (proj2 (Hkey _ _ Hold)).
  - intros k0 x Hx. destruct (Hget _ _ Hx) as [[-> ->] | [_ Hold]].
    + rewrite Hf. exact (Hfx _ _ Hm).
    + exact (Hfx _ _ Hold).
  - intros x Hx. destruct (Hget _ _ Hx) as [[E ->] | [_ Hold]].
    + rewrite Hf, He. apply Hlast. rewrite E. exact Hm.
    + exact (Hlast _ Hold).
Qed.

Lemma indexInvariant_delete (st : State) (k : string) :
  indexInvariant st ->
  indexInvariant (withMatches (jm_delete k (matches st)) st).
Proof.
  intros ([Hnd Hkey] & Hfx & Hlast).
  unfold indexInvariant, wellKeyed, fixturesIndexed, lastRegisteredLinked.
  cbn [matches fixtureToEvent lastEventId withMatches].
  assert (Hget : forall k0 x, jm_get k0 (jm_delete k (matches st)) = Some x ->
            jm_get k0 (matches st) = Some x).
  { intros k0 x Hx. destruct (decide (k = k0)) as [<- | Hne].
    - rewrite jm_get_delete_eq in Hx. discriminate.
    - rewrite jm_get_delete_ne in Hx by assumption. exact Hx. }
  repeat split.
  - apply jm_delete_NoDup. exact Hnd.
  - exact (proj1 (Hkey _ _ (Hget _ _ H))).
  - exact (proj2 (Hkey _ _ (Hget _ _ H))).
  - intros k0 x Hx. exact (Hfx _ _ (Hget _ _ Hx)).
  - intros x Hx. exact (Hlast _ (Hget _ _ Hx)).
Qed.

Lemma indexInvariant_register (st : State) (item : string) (m : SportMatch) :
  eventId m <> "" ->
  indexInvariant st -> indexInvariant (registerMatch item m st).
Proof.
  intros Hne ([Hnd Hkey] & Hfx & Hlast).
  unfold indexInvariant, wellKeyed, fixturesIndexed, lastRegisteredLinked.
  cbn [matches fixtureToEvent lastEventId registerMatch].
  assert (Hget : forall k0 x,
            jm_get k0 (jm_set (eventId m) m (matches st)) = Some x ->
            (k0 = eventId m /\ x = m)
            \/ (k0 <> eventId m /\ jm_get k0 (matches st) = Some x)).
  { intros k0 x Hx. destruct (decide (eventId m = k0)) as [<- | Hk].
    - rewrite jm_get_set_eq in Hx. left. split; congruence.
    - rewrite jm_get_set_ne in Hx by assumption. right. split; congruence. }
  assert (Hnew : fixtureId m = ""
                 \/ (if str_isEmpty (fixtureId m) then fixtureToEvent st
                     else <[fixtureId m := eventId m]> (fixtureToEvent st))
                    !! fixtureId m = Some (eventId m)).
  { destruct (str_isEmpty (fixtureId m)) eqn:E.
    - left. apply str_isEmpty_true. exact E.
    - right. apply lookup_insert_eq. }
  repeat split.
  - apply jm_set_NoDup. exact Hnd.
  - destruct (Hget _ _ H) as [[-> ->] | [_ Hold]];
      [reflexivity | exact (proj1 (Hkey _ _ Hold))].
  - destruct (Hget _ _ H) as [[-> ->] | [_ Hold]];
      [exact Hne | exact (proj2 (Hkey _ _ Hold))].
  - intros k0 x Hx. destruct (Hget _ _ Hx) as [[-> ->] | [_ Hold]].
    + destruct Hnew as [? | Hn]; [left; assumption | right; rewrite Hn; eauto].
    + destruct (Hfx _ _ Hold) as [? | Hs]; [left; assumption | right].
      destruct (str_isEmpty (fixtureId m)); [exact Hs|].
      rewrite lookup_insert_is_Some. destruct (decide (fixtureId m = fixtureId x));
        [left; assumption | right; split; assumption].
  - intros x Hx. destruct (Hget _ _ Hx) as [[_ ->] | [Hk _]];
      [exact Hnew | congruence].
Qed.

Lemma indexInvariant_reset (b : bool) (st : State) :
  indexInvariant st -> indexInvariant (resetForDump b st).
Proof.
  intros ([Hnd Hkey] & Hfx & Hlast).
  unfold indexInvariant, wellKeyed, fixturesIndexed, lastRegisteredLinked.
  cbn [matches fixtureToEvent lastEventId resetForDump].
  destruct b.
  - repeat split; try constructor; intros; discriminate.
  - repeat split; try assumption.
    + exact (proj1 (Hkey _ _ H)).
    + exact (proj2 (Hkey _ _ H)).
    + intros m Hm. exfalso. exact (proj2 (Hkey _ _ Hm) eq_refl).
Qed.

Lemma indexInvariant_applyMA (f : gmap string string) (st : State) :
  indexInvariant st -> indexInvariant (applyMA f st).
Proof.
  intros H. unfold applyMA.
  destruct (jm_get (lastEventId st) (matches st)) as [m |] eqn:Hm; [|exact H].
  apply (indexInvariant_replace st _ m); auto.
Qed.

Lemma indexInvariant_applyPA (f : gmap string string) (st : State) :
  indexInvariant st -> indexInvariant (applyPA f st).
Proof.
  intros H. unfold applyPA.
  destruct (jm_get (lastEventId st) (matches st)) as [m |] eqn:Hm; [|exact H].
  pose proof (indexInvariant_replace st (lastEventId st) m
                (withMarkets (pushToLastMarket (buildSelection f) (markets m)) m)
                H Hm eq_refl eq_refl) as H1.
  destruct (truthyStr (f !! "FI")); [|exact H1].
  revert H1. apply indexInvariant_frame; reflexivity.
Qed.

Lemma indexInvariant_processFullDump (segs : list ParsedSegment) (b : bool)
    (st : State) :
  indexInvariant st -> indexInvariant (fst (processFullDump segs b st)).
Proof.
  intros H. unfold processFullDump.
  apply (runSegments_preserves indexInvariant (fun _ => True)).
  - intros sid sup s. apply indexInvariant_frame; reflexivity.
  - intros t code cat s. apply indexInvariant_frame; reflexivity.
  - intros seg s sid c teams _ _ Hs evId Hne _.
    apply indexInvariant_register; assumption.
  - intros f s _. apply indexInvariant_applyMA.
  - intros f s _. apply indexInvariant_applyPA.
  - apply Forall_forall. trivial.
  - apply indexInvariant_reset. exact H.
Qed.

Lemma applyEventFields_identity (cfg : RegistryEntry) (f : gmap string string)
    (m : SportMatch) :
  eventId (fst (applyEventFields cfg f m)) = eventId m
  /\ fixtureId (fst (applyEventFields cfg f m)) = fixtureId m
  /\ sportId (fst (applyEventFields cfg f m)) = sportId m
  /\ markets (fst (applyEventFields cfg f m)) = markets m.
Proof.
  unfold applyEventFields.
  destruct (f !! "SS"), (f !! "XP"), (f !! "PI");
    destruct (entryFlag usesSetScoring cfg), (entryFlag hasPointScore cfg),
      (entryFlag hasServing cfg); cbn; auto.
Qed.

Lemma indexInvariant_processUpdate (seg : ParsedSegment) (st : State) :
  indexInvariant st -> indexInvariant (fst (processUpdate seg st)).
Proof.
  intros H. unfold processUpdate.
  destruct (str_isEmpty (header seg)); [exact H|].
  destruct (pid_type (parseItemId (stripActionSuffix (header seg)))); try exact H.
  - destruct (truthyEntry _); cbn [negb]; [|exact H].
    destruct (jm_get _ (matches st)) as [m |] eqn:Hm; [|exact H].
    pose proof (applyEventFields_identity
                  (SPORT_REGISTRY
                     (pid_categoryId (parseItemId (stripActionSuffix (header seg)))))
                  (fields seg) m) as (He & Hf & _).
    destruct (applyEventFields _ (fields seg) m) as [m' chs]. cbn [fst] in *.
    destruct (action seg); cbn [fst];
      try (destruct chs; cbn [fst];
           apply (indexInvariant_replace st _ m); assumption).
    apply indexInvariant_delete. exact H.
  - destruct (fixtureToEvent st !! _) as [evId |]; [|exact H].
    destruct (str_isEmpty evId); [exact H|].
    destruct (jm_get evId (matches st)) as [m |] eqn:Hm; [|exact H].
    destruct (updateMarkets _ m _ (markets m)) as [ms' chs].
    destruct chs; cbn [fst];
      apply (indexInvariant_replace st _ m); auto.
Qed.

Lemma indexInvariant_processSubMessage (parts : list string) (st : State) :
  indexInvariant st -> indexInvariant (fst (processSubMessage parts st)).
Proof.
  intros H. unfold processSubMessage.
  destruct parts as [| h recs]; [exact H|].
  destruct (isSkippedHeader h); [exact H|].
  destruct (str_endsWith "F" h).
  - pose proof (indexInvariant_processFullDump (dumpSegments h recs)
                  (str_includes "InPlay" h) st H) as H1.
    destruct (processFullDump _ _ st) as [st' [[] |]]; exact H1.
  - destruct (_ || _); [|exact H].
    pose proof (indexInvariant_processUpdate (deltaSegment h recs) st H) as H1.
    destruct (processUpdate _ st) as [st' u]. exact H1.
Qed.

Lemma indexInvariant_runSubMessages (subs : list (list string)) (st : State) :
  indexInvariant st -> indexInvariant (fst (runSubMessages subs st)).
Proof.
  revert st. induction subs as [| parts rest IH]; intros st H; [exact H|].
  simpl runSubMessages.
  pose proof (indexInvariant_processSubMessage parts st H) as H1.
  destruct (processSubMessage parts st) as [st1 [u |]]; cbn [fst] in *;
    [|exact H1].
  pose proof (IH st1 H1) as H2.
  destruct (runSubMessages rest st1) as [st2 [us |]]; exact H2.
Qed.

Lemma indexInvariant_initial : indexInvariant initialState.
Proof.
  unfold indexInvariant, wellKeyed, fixturesIndexed, lastRegisteredLinked.
  cbn. repeat split; try constructor; intros; discriminate.
Qed.

Lemma indexInvariant_reachable (st : State) : reachable st -> indexInvariant st.
Proof.
  induction 1 as [| raw st _ IH]; [exact indexInvariant_initial|].
  apply indexInvariant_runSubMessages. exact IH.
Qed.

(** *** The history of registrations *)

Lemma sameIdentities_refl (st : State) : sameIdentities st st.
Proof. split; [reflexivity | eauto]. Qed.

Lemma sameIdentities_frame (st st' : State) :
  matches st' = matches st -> fixtureToEvent st' = fixtureToEvent st ->
  sameIdentities st st'.
Proof. intros Hm Hf. split; [exact Hf|]. rewrite Hm. eauto. Qed.

Lemma sameIdentities_trans (a b c : State) :
  sameIdentities a b -> sameIdentities b c -> sameIdentities a c.
Proof.
  intros [F1 M1] [F2 M2]. split; [congruence|].
  intros k m Hm. destruct (M2 k m Hm) as (m1 & H1 & E1 & E2).
  destruct (M1 k m1 H1) as (m0 & H0 & E3 & E4).
  exists m0. repeat split; congruence.
Qed.

Lemma sameIdentities_replace (st : State) (k : string) (m m' : SportMatch) :
  jm_get k (matches st) = Some m ->
  eventId m' = eventId m -> fixtureId m' = fixtureId m ->
  sameIdentities st (withMatches (jm_set k m' (matches st)) st).
Proof.
  intros Hm He Hf. split; [reflexivity|].
  cbn [matches withMatches]. intros k0 x Hx.
  destruct (decide (k = k0)) as [<- | Hne].
  - rewrite jm_get_set_eq in Hx. injection Hx as <-. eauto.
  - rewrite jm_get_set_ne in Hx by assumption. eauto.
Qed.

Lemma sameIdentities_delete (st : State) (k : string) :
  sameIdentities st (withMatches (jm_delete k (matches st)) st).
Proof.
  split; [reflexivity|]. cbn [matches withMatches]. intros k0 x Hx.
  destruct (decide (k = k0)) as [<- | Hne].
  - rewrite jm_get_delete_eq in Hx. discriminate.
  - rewrite jm_get_delete_ne in Hx by assumption. eauto.
Qed.

Lemma sameIdentities_applyMA (f : gmap string string) (st : State) :
  sameIdentities st (applyMA f st).
Proof.
  unfold applyMA.
  destruct (jm_get (lastEventId st) (matches st)) as [m |] eqn:Hm;
    [|apply sameIdentities_refl].
  apply (sameIdentities_replace st _ m); auto.
Qed.

Lemma sameIdentities_applyPA (f : gmap string string) (st : State) :
  sameIdentities st (applyPA f st).
Proof.
  unfold applyPA.
  destruct (jm_get (lastEventId st) (matches st)) as [m |] eqn:Hm;
    [|apply sameIdentities_refl].
  pose proof (sameIdentities_replace st (lastEventId st) m
                (withMarkets (pushToLastMarket (buildSelection f) (markets m)) m)
                Hm eq_refl eq_refl) as H1.
  destruct (truthyStr (f !! "FI")); exact H1.
Qed.

Lemma sameIdentities_processUpdate (seg : ParsedSegment) (st : State) :
  sameIdentities st (fst (processUpdate seg st)).
Proof.
  unfold processUpdate.
  destruct (str_isEmpty (header seg)); [apply sameIdentities_refl|].
  destruct (pid_type (parseItemId (stripActionSuffix (header seg))));
    try apply sameIdentities_refl.
  - destruct (truthyEntry _); cbn [negb]; [|apply sameIdentities_refl].
    destruct (jm_get _ (matches st)) as [m |] eqn:Hm; [|apply sameIdentities_refl].
    pose proof (applyEventFields_identity
                  (SPORT_REGISTRY
                     (pid_categoryId (parseItemId (stripActionSuffix (header seg)))))
                  (fields seg) m) as (He & Hf & _).
    destruct (applyEventFields _ (fields seg) m) as [m' chs]. cbn [fst] in *.
    destruct (action seg); cbn [fst];
      try (destruct chs; cbn [fst];
           apply (sameIdentities_replace st _ m); assumption).
    apply sameIdentities_delete.
  - destruct (fixtureToEvent st !! _) as [evId |]; [|apply sameIdentities_refl].
    destruct (str_isEmpty evId); [apply sameIdentities_refl|].
    destruct (jm_get evId (matches st)) as [m |] eqn:Hm;
      [|apply sameIdentities_refl].
    destruct (updateMarkets _ m _ (markets m)) as [ms' chs].
    destruct chs; cbn [fst];
      apply (sameIdentities_replace st _ m); auto.
Qed.

Lemma logged_same (log : FixtureLog) (st st' : State) :
  sameIdentities st st' -> logged log st -> logged log st'.
Proof.
  intros [Hf Hm] [Hidx Hreg]. split.
  - intros fx. rewrite Hf. apply Hidx.
  - intros k m' Hk. destruct (Hm k m' Hk) as (m & H0 & E1 & E2).
    rewrite E1, E2. exact (Hreg k m H0).
Qed.

Lemma logged_register (log : FixtureLog) (st : State) (item : string)
    (m : SportMatch) :
  logged log st ->
  logged (if str_isEmpty (fixtureId m) then log
          else (fixtureId m, eventId m) :: log)
    (registerMatch item m st).
Proof.
  intros [Hidx Hreg]. split.
  - intros fx. cbn [fixtureToEvent registerMatch].
    destruct (str_isEmpty (fixtureId m)); [apply Hidx|].
    cbn [assocFind].
    destruct (String.eqb_spec (fixtureId m) fx) as [<- | Hne].
    + apply lookup_insert_eq.
    + rewrite lookup_insert_ne by assumption. apply Hidx.
  - intros k x Hx. cbn [matches registerMatch] in Hx.
    destruct (decide (eventId m = k)) as [<- | Hne].
    + rewrite jm_get_set_eq in Hx. injection Hx as <-.
      destruct (str_isEmpty (fixtureId m)) eqn:E.
      * left. apply str_isEmpty_true. exact E.
      * right. left. reflexivity.
    + rewrite jm_get_set_ne in Hx by assumption.
      destruct (Hreg k x Hx) as [? | Hin]; [left; assumption | right].
      destruct (str_isEmpty (fixtureId m)); [exact Hin | right; exact Hin].
Qed.

(** What a record of a dump does to the tables: it stores the match that
    [registeredBy] names, or stores none. *)
Lemma applySegment_registeredBy (seg : ParsedSegment) (st : State) :
  match registeredBy seg st with
  | Some m =>
      exists item st1,
        sameIdentities st st1
        /\ fst (applySegment seg st) = registerMatch item m st1
  | None => sameIdentities st (fst (applySegment seg st))
  end.
Proof.
  unfold registeredBy, applySegment, segmentEventId.
  destruct (recordType seg) eqn:Hrt; cbn [fst];
    try (apply sameIdentities_frame; reflexivity);
    try (destruct (inSupportedSport st); cbn [negb fst];
         try apply sameIdentities_refl;
         first [ apply sameIdentities_frame; reflexivity
               | destruct (str_isEmpty (lastEventId st)); cbn [fst];
                 [apply sameIdentities_refl
                 | first [apply sameIdentities_applyMA
                         | apply sameIdentities_applyPA]] ]).
  set (st1 := if truthyStr (fields seg !! "CL")
                 && truthyEntry (SPORT_REGISTRY (orElse (fields seg !! "CL") ""))
              then withSport (orElse (fields seg !! "CL") "") true st else st).
  assert (H1 : sameIdentities st st1).
  { unfold st1. destruct (_ && _);
      [apply sameIdentities_frame; reflexivity | apply sameIdentities_refl]. }
  destruct (inSupportedSport st1); cbn [negb andb fst]; [|exact H1].
  unfold applyEV.
  destruct (str_isEmpty (extractEventId (orElse (fields seg !! "ID") "")));
    cbn [negb fst]; [exact H1|].
  destruct (SPORT_REGISTRY (orElse (fields seg !! "CL") (currentSportId st1)))
    as [c | |]; cbn [fst]; try exact H1.
  destruct (parseTeams _ _) as [teams |]; cbn [fst]; [|exact H1].
  eexists _, st1. split; [exact H1 | reflexivity].
Qed.

Lemma applySegment_logged (seg : ParsedSegment) (st : State) (log : FixtureLog) :
  logged log st -> logged (logSegment seg st log) (fst (applySegment seg st)).
Proof.
  intros H. pose proof (applySegment_registeredBy seg st) as Hreg.
  unfold logSegment. destruct (registeredBy seg st) as [m |].
  - destruct Hreg as (item & st1 & Hs & ->).
    apply logged_register. exact (logged_same log st st1 Hs H).
  - exact (logged_same log st _ Hreg H).
Qed.

Lemma logSegments_logged (segs : list ParsedSegment) (st : State)
    (log : FixtureLog) :
  logged log st -> logged (logSegments segs st log) (fst (runSegments segs st)).
Proof.
  revert st log. induction segs as [| seg rest IH]; intros st log H; [exact H|].
  pose proof (applySegment_logged seg st log H) as H1.
  cbn [logSegments runSegments].
  destruct (applySegment seg st) as [st' [[] |]]; cbn [fst] in *.
  - apply IH. exact H1.
  - exact H1.
Qed.

Lemma logged_reset (b : bool) (st : State) (log : FixtureLog) :
  logged log st -> logged (if b then [] else log) (resetForDump b st).
Proof.
  intros [Hidx Hreg]. destruct b; split; cbn [fixtureToEvent matches resetForDump].
  - intros fx. apply lookup_empty.
  - intros k m Hm. discriminate Hm.
  - exact Hidx.
  - exact Hreg.
Qed.

Lemma logSubMessage_logged (parts : list string) (st : State) (log : FixtureLog) :
  logged log st ->
  logged (logSubMessage parts st log) (fst (processSubMessage parts st)).
Proof.
  intros H. unfold logSubMessage, processSubMessage.
  destruct parts as [| h recs]; [exact H|].
  destruct (isSkippedHeader h); [exact H|].
  destruct (str_endsWith "F" h).
  - pose proof (logSegments_logged (dumpSegments h recs) _ _
                  (logged_reset (str_includes "InPlay" h) st log H)) as H1.
    unfold processFullDump.
    destruct (runSegments _ _) as [st' [[] |]]; exact H1.
  - destruct (_ || _); [|exact H].
    pose proof (sameIdentities_processUpdate (deltaSegment h recs) st) as H1.
    destruct (processUpdate _ st) as [st' u]. cbn [fst] in *.
    exact (logged_same log st st' H1 H).
Qed.

Lemma logSubMessages_logged (subs : list (list string)) (st : State)
    (log : FixtureLog) :
  logged log st ->
  logged (logSubMessages subs st log) (fst (runSubMessages subs st)).
Proof.
  revert st log. induction subs as [| parts rest IH]; intros st log H; [exact H|].
  pose proof (logSubMessage_logged parts st log H) as H1.
  cbn [logSubMessages runSubMessages].
  destruct (processSubMessage parts st) as [st1 [u |]]; cbn [fst] in *;
    [|exact H1].
  pose proof (IH st1 _ H1) as H2.
  destruct (runSubMessages rest st1) as [st2 [us |]]; exact H2.
Qed.

Lemma runLogged_logged (raws : list string) (st : State) (log : FixtureLog) :
  logged log st ->
  logged (snd (runLogged raws st log)) (fst (runLogged raws st log)).
Proof.
  revert st log. induction raws as [| raw rest IH]; intros st log H; [exact H|].
  cbn [runLogged]. apply IH. apply logSubMessages_logged. exact H.
Qed.

Lemma logged_initial : logged [] initialState.
Proof. split; [intros fx; apply lookup_empty | intros k m Hm; discriminate Hm]. Qed.

Lemma runLogged_reachable (raws : list string) (st : State) (log : FixtureLog) :
  reachable st -> reachable (fst (runLogged raws st log)).
Proof.
  revert st log. induction raws as [| raw rest IH]; intros st log H; [exact H|].
  cbn [runLogged]. apply IH. apply reach_step. exact H.
Qed.

Lemma runLogged_snoc (raws : list string) (raw : string) (st : State)
    (log : FixtureLog) :
  fst (runLogged (raws ++ [raw]) st log)
  = fst (processMessage raw (fst (runLogged raws st log))).
Proof.
  revert st log. induction raws as [| r rest IH]; intros st log; [reflexivity|].
  cbn [runLogged app]. apply IH.
Qed.

(** Every reachable state is the state after a sequence of calls. *)
Lemma reachable_stateAfter (st : State) :
  reachable st -> exists raws, st = stateAfter raws.
Proof.
  induction 1 as [| raw st _ [raws ->]].
  - exists []. reflexivity.
  - exists (raws ++ [raw]). unfold stateAfter. rewrite runLogged_snoc. reflexivity.
Qed.

Lemma assocFind_Some_In {V : Type} (k : string) (v : V) (l : list (string * V)) :
  assocFind k l = Some v -> In (k, v) l.
Proof.
  induction l as [| [k' v'] r IH]; [discriminate|]. cbn [assocFind].
  destruct (String.eqb_spec k' k) as [-> | Hne].
  - intros [= ->]. left. reflexivity.
  - intros H. right. exact (IH H).
Qed.

Lemma assocFind_In_is_Some {V : Type} (k : string) (v : V)
    (l : list (string * V)) :
  In (k, v) l -> is_Some (assocFind k l).
Proof.
  induction l as [| [k' v'] r IH]; [contradiction|]. cbn [assocFind].
  intros [E | Hin].
  - injection E as -> ->. rewrite String.eqb_refl. eauto.
  - destruct (String.eqb k' k); [eauto | exact (IH Hin)].
Qed.

(** C5, as the code behaves. Every reachable state is the state after a
    sequence of [processMessage] calls, and for every such sequence and
    every match [m] stored with a non-empty fixture id: [m] was registered
    with that fixture id since the last global dump, and
    [fixtureToEvent[m.fixtureId]] is the event id of the latest
    registration of that fixture id since then. So the entry is
    [m.eventId] when no registration since the last global dump gave the
    fixture id to another event, and in any case when [m] is the match
    registered last. *)
Theorem fixture_index_reaches_matches (st : State) (Hreach : reachable st) :
  (exists raws, st = stateAfter raws)
  /\ forall raws m, st = stateAfter raws -> In m (getAllMatches st) ->
       (fixtureId m = ""
        \/ (In (fixtureId m, eventId m) (fixtureLog raws)
            /\ fixtureToEvent st !! fixtureId m
               = assocFind (fixtureId m) (fixtureLog raws)))
       /\ ((forall e, In (fixtureId m, e) (fixtureLog raws) -> e = eventId m) ->
           fixtureId m = ""
           \/ fixtureToEvent st !! fixtureId m = Some (eventId m))
       /\ (fixtureId m = "" \/ is_Some (fixtureToEvent st !! fixtureId m))
       /\ (eventId m = lastEventId st ->
           fixtureId m = ""
           \/ fixtureToEvent st !! fixtureId m = Some (eventId m)).
Proof.
  split; [exact (reachable_stateAfter st Hreach)|].
  intros raws m -> Hin.
  destruct (indexInvariant_reachable _ Hreach) as ([Hnd Hkey] & Hfx & Hlast).
  destruct (jm_values_get m _ Hnd Hin) as [k Hk].
  destruct (runLogged_logged raws initialState [] logged_initial) as [Hidx Hreg].
  fold (stateAfter raws) in Hidx, Hreg. fold (fixtureLog raws) in Hidx, Hreg.
  split; [|split; [|split]].
  - destruct (Hreg k m Hk) as [? | Hl]; [left; assumption | right].
    split; [exact Hl | apply Hidx].
  - intros Honly. destruct (Hreg k m Hk) as [? | Hl]; [left; assumption | right].
    rewrite Hidx.
    destruct (assocFind_In_is_Some _ _ _ Hl) as [e He].
    rewrite He. f_equal. apply Honly. apply assocFind_Some_In. exact He.
  - exact (Hfx k m Hk).
  - intros E. apply Hlast. rewrite <- E, (proj1 (Hkey k m Hk)). exact Hk.
Qed.

(** The theorem at a dump of two events with fixture ids of their own:
    both matches are reached through the index, the first of them by the
    history of registrations alone. *)
Lemma fixture_index_reaches_matches_witness :
  exists m1 m2,
    getAllMatches (stateAfter [twoFixturesDump]) = [m1; m2]
    /\ eventId m1 = "1" /\ eventId m2 = "2"
    /\ fixtureToEvent (stateAfter [twoFixturesDump]) !! fixtureId m1
       = Some (eventId m1)
    /\ fixtureToEvent (stateAfter [twoFixturesDump]) !! fixtureId m2
       = Some (eventId m2).
Proof.
  assert (Hr : reachable (stateAfter [twoFixturesDump]))
    by (apply (runLogged_reachable [twoFixturesDump]), reach_init).
  destruct (fixture_index_reaches_matches _ Hr) as [_ H].
  assert (Hlog : fixtureLog [twoFixturesDump] = [("8", "2"); ("7", "1")])
    by (vm_compute; reflexivity).
  assert (Hall : exists m1 m2,
            getAllMatches (stateAfter [twoFixturesDump]) = [m1; m2]
            /\ (eventId m1 = "1" /\ fixtureId m1 = "7")
            /\ (eventId m2 = "2" /\ fixtureId m2 = "8"))
    by (vm_compute; eexists _, _; repeat split; reflexivity).
  destruct Hall as (m1 & m2 & Hall & [E1 F1] & [E2 F2]).
  exists m1, m2. split; [exact Hall|]. split; [exact E1|]. split; [exact E2|].
  split.
  - destruct (H [twoFixturesDump] m1 eq_refl) as (_ & H3 & _).
    { rewrite Hall. left. reflexivity. }
    destruct H3 as [He | He]; [| |exact He].
    + rewrite Hlog, F1, E1. intros e [[= <-] | [[= <-] | []]]. reflexivity.
    + rewrite F1 in He. discriminate He.
  - destruct (H [twoFixturesDump] m2 eq_refl) as (_ & H3 & _).
    { rewrite Hall. right. left. reflexivity. }
    destruct H3 as [He | He]; [| |exact He].
    + rewrite Hlog, F2, E2. intros e [[= <-] | [[= <-] | []]]. reflexivity.
    + rewrite F2 in He. discriminate He.
Defined.

(** C5, as stated: a reachable state holds a match whose fixture id
    resolves to another event. Two EV records carry fixture 7; the second
    registration overwrites the entry, and match 1 is left with
    [fixtureToEvent["7"] = "2"]. *)
Lemma fixture_index_overwritten :
  exists (st : State) (m : SportMatch),
    reachable st
    /\ In m (getAllMatches st)
    /\ eventId m = "1" /\ fixtureId m = "7"
    /\ fixtureToEvent st !! fixtureId m = Some "2"
    /\ ~ (fixtureId m = "" \/ fixtureToEvent st !! fixtureId m = Some (eventId m)).
Proof.
  exists (fst (processMessage sharedFixtureDump initialState)).
  eexists. split; [apply reach_step, reach_init|].
  split; [vm_compute; left; reflexivity|].
  split; [reflexivity|]. split; [reflexivity|].
  split; [vm_compute; reflexivity|].
  vm_compute. intros [H | H]; discriminate H.
Qed.

(** ** Full dumps: what is cleared and what is kept *)

Lemma resetForDump_global (st : State) : resetForDump true st = initialState.
Proof. reflexivity. Qed.











(** ** Normal completion *)

Lemma runSubMessages_cons (parts : list string) (rest : list (list string))
    (st : State) :
  runSubMessages (parts :: rest) st
  = match processSubMessage parts st with
    | (st1, Normal u) =>
        match runSubMessages rest st1 with
        | (st2, Normal us) => (st2, Normal (optionToList u ++ us))
        | (st2, Throw) => (st2, Throw)
        end
    | (st1, Throw) => (st1, Throw)
    end.
Proof. reflexivity. Qed.

Lemma applySegment_normal (seg : ParsedSegment) (st : State) :
  sportCodeOwn seg = true ->
  isInherited (SPORT_REGISTRY (currentSportId st)) = false ->
  snd (applySegment seg st) = Normal ()
  /\ isInherited (SPORT_REGISTRY (currentSportId (fst (applySegment seg st)))) = false.
Proof.
  unfold sportCodeOwn. intros Hok Hcur. apply negb_true_iff in Hok.
  unfold applySegment.
  set (f := fields seg) in *.
  set (st1 := if truthyStr (f !! "CL")
                 && truthyEntry (SPORT_REGISTRY (orElse (f !! "CL") ""))
              then withSport (orElse (f !! "CL") "") true st else st).
  assert (H1 : isInherited (SPORT_REGISTRY (currentSportId st1)) = false).
  { unfold st1. destruct (_ && _); [exact Hok | exact Hcur]. }
  assert (Hev : snd (applyEV f st1) = Normal ()
                /\ isInherited (SPORT_REGISTRY (currentSportId (fst (applyEV f st1))))
                   = false).
  { unfold applyEV.
    destruct (str_isEmpty (extractEventId _)); [split; [reflexivity | exact H1]|].
    assert (Hsid : isInherited
                     (SPORT_REGISTRY (orElse (f !! "CL") (currentSportId st1)))
                   = false).
    { destruct (f !! "CL") as [s |]; cbn [orElse] in *; [|exact H1].
      destruct (str_isEmpty s); [exact H1 | exact Hok]. }
    destruct (SPORT_REGISTRY (orElse (f !! "CL") (currentSportId st1)))
      as [c | |] eqn:Ec; [| discriminate Hsid | split; [reflexivity | exact H1]].
    unfold parseTeams. rewrite Ec.
    destruct (splitAtFirst (nameSeparators c) _); split;
      first [reflexivity | exact H1]. }
  assert (Hma : currentSportId (applyMA f st) = currentSportId st).
  { unfold applyMA. destruct (jm_get (lastEventId st) (matches st)); reflexivity. }
  assert (Hpa : currentSportId (applyPA f st) = currentSportId st).
  { unfold applyPA. destruct (jm_get (lastEventId st) (matches st)); [|reflexivity].
    destruct (truthyStr (f !! "FI")); reflexivity. }
  destruct (recordType seg).
  - split; [reflexivity | exact Hok].
  - destruct (inSupportedSport st); split; first [reflexivity | exact Hcur].
  - fold st1. destruct (inSupportedSport st1); cbn [negb];
      [exact Hev | split; [reflexivity | exact H1]].
  - destruct (inSupportedSport st); cbn [negb];
      [|split; [reflexivity | exact Hcur]].
    destruct (str_isEmpty (lastEventId st)); split;
      first [reflexivity | exact Hcur | cbn [fst]; rewrite Hma; exact Hcur].
  - destruct (inSupportedSport st); cbn [negb];
      [|split; [reflexivity | exact Hcur]].
    destruct (str_isEmpty (lastEventId st)); split;
      first [reflexivity | exact Hcur | cbn [fst]; rewrite Hpa; exact Hcur].
  - destruct (inSupportedSport st); split; first [reflexivity | exact Hcur].
  - destruct (inSupportedSport st); split; first [reflexivity | exact Hcur].
  - destruct (inSupportedSport st); split; first [reflexivity | exact Hcur].
Qed.

Lemma runSegments_normal (segs : list ParsedSegment) (st : State) :
  forallb sportCodeOwn segs = true ->
  isInherited (SPORT_REGISTRY (currentSportId st)) = false ->
  snd (runSegments segs st) = Normal ().
Proof.
  revert st. induction segs as [| seg rest IH]; intros st Hok Hcur; [reflexivity|].
  simpl in Hok. apply andb_true_iff in Hok as [Hseg Hrest].
  simpl runSegments.
  destruct (applySegment_normal seg st Hseg Hcur) as [E1 E2].
  destruct (applySegment seg st) as [st' [[] |]]; cbn [fst snd] in *;
    [|discriminate E1].
  apply IH; assumption.
Qed.

Lemma processFullDump_normal (segs : list ParsedSegment) (b : bool) (st : State) :
  forallb sportCodeOwn segs = true ->
  snd (processFullDump segs b st) = Normal ().
Proof.
  intros Hok. unfold processFullDump.
  apply runSegments_normal; [exact Hok | reflexivity].
Qed.

(** A sub-message completes normally when its records name no inherited
    sport key; a delta always does. *)
Lemma processSubMessage_normal (parts : list string) (st : State) :
  match parts with
  | h :: recs =>
      if str_endsWith "F" h then forallb sportCodeOwn (dumpSegments h recs)
      else true
  | [] => true
  end = true ->
  exists u, snd (processSubMessage parts st) = Normal u.
Proof.
  intros Hok. unfold processSubMessage.
  destruct parts as [| h recs]; [eauto|].
  destruct (isSkippedHeader h); [eauto|].
  destruct (str_endsWith "F" h).
  - pose proof (processFullDump_normal (dumpSegments h recs)
                  (str_includes "InPlay" h) st Hok) as E.
    destruct (processFullDump _ _ st) as [st' [[] |]]; cbn [snd] in *;
      [eauto | discriminate E].
  - destruct (_ || _); [|eauto].
    destruct (processUpdate _ st) as [st' u]. eauto.
Qed.

Lemma runSubMessages_normal (subs : list (list string)) (st : State) :
  forallb
    (fun parts =>
       match parts with
       | h :: recs =>
           if str_endsWith "F" h then forallb sportCodeOwn (dumpSegments h recs)
           else true
       | [] => true
       end) subs = true ->
  exists us, snd (runSubMessages subs st) = Normal us.
Proof.
  revert st. induction subs as [| parts rest IH]; intros st Hok; [simpl; eauto|].
  simpl in Hok. apply andb_true_iff in Hok as [Hp Hrest].
  simpl runSubMessages.
  destruct (processSubMessage_normal parts st Hp) as [u Eu].
  destruct (processSubMessage parts st) as [st1 [u1 |]]; cbn [snd] in *;
    [|discriminate Eu].
  destruct (IH st1 Hrest) as [us Eus].
  destruct (runSubMessages rest st1) as [st2 [us2 |]]; cbn [snd] in *;
    [eauto | discriminate Eus].
Qed.

(** [processMessage] returns when no record of a full dump names an
    inherited sport key. *)
Lemma processMessage_returns (raw : string) (st : State) :
  sportCodesOwn raw = true -> exists us, snd (processMessage raw st) = Normal us.
Proof. apply runSubMessages_normal. Qed.

(** ** Full dumps push no update *)

Lemma processSubMessage_full_dump_silent (h : string) (recs : list string)
    (st : State) (u : option MatchUpdate) :
  str_endsWith "F" h = true ->
  snd (processSubMessage (h :: recs) st) = Normal u -> u = None.
Proof.
  intros HF Hres. unfold processSubMessage in Hres. rewrite HF in Hres.
  destruct (isSkippedHeader h); [injection Hres as <-; reflexivity|].
  destruct (processFullDump _ _ st) as [st' [[] |]];
    [injection Hres as <-; reflexivity | discriminate Hres].
Qed.

Lemma runSubMessages_full_dumps_silent (subs : list (list string)) (st : State)
    (us : list MatchUpdate) :
  forallb
    (fun parts =>
       match parts with h :: _ => str_endsWith "F" h | [] => false end) subs
  = true ->
  snd (runSubMessages subs st) = Normal us -> us = [].
Proof.
  revert st us. induction subs as [| parts rest IH]; intros st us Hall Hres.
  - simpl in Hres. injection Hres as <-. reflexivity.
  - simpl in Hall. apply andb_true_iff in Hall as [Hp Hrest].
    destruct parts as [| h recs]; [discriminate Hp|].
    rewrite runSubMessages_cons in Hres.
    pose proof (processSubMessage_full_dump_silent h recs st) as Hu.
    destruct (processSubMessage (h :: recs) st) as [st1 [u |]];
      cbn [snd] in *; [|discriminate Hres].
    rewrite (Hu u Hp eq_refl) in Hres.
    pose proof (IH st1) as IH1.
    destruct (runSubMessages rest st1) as [st2 [us2 |]];
      cbn [snd] in *; [|discriminate Hres].
    cbn in Hres. injection Hres as <-. exact (IH1 us2 Hrest eq_refl).
Qed.

(** C8: a payload whose sub-messages all have a header ending in F never
    yields an update: whatever [processMessage] returns is the empty list,
    and it does return it when no record names an inherited sport key. *)
Theorem full_dumps_return_no_update (raw : string) (st : State)
    (Hall : onlyFullDumps raw = true) :
  (forall us, snd (processMessage raw st) = Normal us -> us = [])
  /\ (sportCodesOwn raw = true -> snd (processMessage raw st) = Normal []).
Proof.
  assert (H1 : forall us, snd (processMessage raw st) = Normal us -> us = []).
  { intros us. apply runSubMessages_full_dumps_silent. exact Hall. }
  split; [exact H1|].
  intros Hown. destruct (processMessage_returns raw st Hown) as [us Eus].
  rewrite Eus, (H1 us Eus). reflexivity.
Qed.

(** The theorem at S1. *)
Lemma full_dumps_return_no_update_witness :
  snd (processMessage S1_payload initialState) = Normal [].
Proof.
  refine (proj2 (full_dumps_return_no_update S1_payload initialState _) _).
  - vm_compute. reflexivity.
  - vm_compute. reflexivity.
Defined.

(** ** A sport code that the registry inherits *)

(** C9, at the failing input: the EV record with CL=constructor passes both
    registry guards, [parseTeams] raises, and the tennis record after it is
    never read; without the first record the tennis match is registered. *)
Theorem inherited_sport_key_throws :
  snd (processMessage inheritedSportPayload initialState) = Throw
  /\ getAllMatches (fst (processMessage inheritedSportPayload initialState)) = []
  /\ snd (processMessage tennisOnlyPayload initialState) = Normal []
  /\ map eventId (getAllMatches (fst (processMessage tennisOnlyPayload initialState)))
     = ["2"].
Proof. repeat split; vm_compute; reflexivity. Qed.

(** ** The serving indicator *)

(** C7, as stated: a reachable state holds a match of a sport without a
    serving indicator whose serving is not 0. The soccer match 5 is created
    with serving 0; the delta OV5C13A carries the tennis category,
    [processUpdate] reads the tennis entry of the registry and applies its
    PI field, and the soccer match ends with serving 1. *)
Lemma soccer_match_gets_serving :
  exists m m',
    getAllMatches (fst (processMessage soccerDump initialState)) = [m]
    /\ sportId m = "1" /\ serving m = 0%nat
    /\ getAllMatches
         (fst (processMessage tennisCategoryDelta
                 (fst (processMessage soccerDump initialState)))) = [m']
    /\ sportId m' = "1"
    /\ entryFlag hasServing (SPORT_REGISTRY (sportId m')) = false
    /\ serving m' = 1%nat.
Proof.
  do 2 eexists.
  split; [vm_compute; reflexivity|].
  split; [reflexivity|]. split; [reflexivity|].
  split; [vm_compute; reflexivity|].
  repeat split; vm_compute; reflexivity.
Qed.

(** ** Frames without control bytes *)





Lemma str_append_assoc (a b c : string) : (a +:+ b) +:+ c = a +:+ (b +:+ c).
Proof.
  induction a as [| x r IH]; [reflexivity|].
  rewrite !str_append_cons, IH. reflexivity.
Qed.

(** ** Regrouping by topic headers *)





(** ** A trailing empty part changes nothing *)




Lemma groupParts_no_empty (cur parts : list string) :
  Forall (fun l => l <> []) (groupParts cur parts).
Proof.
  revert cur. induction parts as [| p ps IH]; intros cur; simpl.
  - destruct cur; repeat constructor. discriminate.
  - destruct (isTopicHeader p); [|apply IH].
    destruct cur; [apply IH|]. constructor; [discriminate | apply IH].
Qed.



(** ** Frames delimited by control bytes *)







(** ** Concatenation of payloads *)









(** ** The serving indicator, sport by sport *)

Lemma parseServing_range (pi : option string) :
  parseServing pi = 1%nat \/ parseServing pi = 2%nat.
Proof.
  unfold parseServing. destruct (truthyStr pi); [|left; reflexivity].
  destruct (str_split "," (orElse pi "")) as [| first rest]; [right; reflexivity|].
  destruct (String.eqb first "1"); [left | right]; reflexivity.
Qed.

Lemma applyEventFields_serving (cfg : RegistryEntry) (f : gmap string string)
    (m : SportMatch) :
  (serving (fst (applyEventFields cfg f m)) = serving m
   \/ (entryFlag hasServing cfg = true
       /\ (serving (fst (applyEventFields cfg f m)) = 1%nat
           \/ serving (fst (applyEventFields cfg f m)) = 2%nat))).
Proof.
  unfold applyEventFields.
  destruct (f !! "SS"), (f !! "XP"), (f !! "PI") as [pi |];
    destruct (entryFlag usesSetScoring cfg), (entryFlag hasPointScore cfg),
      (entryFlag hasServing cfg); cbn; auto using parseServing_range.
Qed.

Lemma serversKnown_replace (st : State) (k : string) (m m' : SportMatch) :
  serversKnown st ->
  jm_get k (matches st) = Some m ->
  sportId m' = sportId m ->
  (serving m' = serving m \/ serving m' = 1%nat \/ serving m' = 2%nat) ->
  serversKnown (withMatches (jm_set k m' (matches st)) st).
Proof.
  intros H Hm Hs Hv k0 x. cbn [matches withMatches].
  destruct (decide (k = k0)) as [<- | Hne].
  - rewrite jm_get_set_eq. intros [= <-] Hx.
    unfold sportHasServing in *. rewrite Hs in Hx.
    destruct Hv as [-> | Hv]; [exact (H k m Hm Hx) | exact Hv].
  - rewrite jm_get_set_ne by assumption. apply H.
Qed.

Lemma serversKnown_processFullDump (segs : list ParsedSegment) (b : bool)
    (st : State) :
  serversKnown st -> serversKnown (fst (processFullDump segs b st)).
Proof.
  intros H. unfold processFullDump.
  apply (runSegments_preserves serversKnown (fun _ => True)).
  - intros sid sup s Hs. exact Hs.
  - intros t code cat s Hs. exact Hs.
  - intros seg s sid c teams _ _ Hs evId Hne Hc k0 x.
    cbn [matches registerMatch eventId buildMatch].
    destruct (decide (evId = k0)) as [<- | Hk].
    + rewrite jm_get_set_eq. intros [= <-].
      unfold sportHasServing, buildMatch. cbn [sportId serving].
      rewrite Hc. cbn [entryFlag].
      intros ->. apply parseServing_range.
    + rewrite jm_get_set_ne by assumption. apply Hs.
  - intros f s _ Hs. unfold applyMA.
    destruct (jm_get (lastEventId s) (matches s)) as [m |] eqn:Hm; [|exact Hs].
    apply (serversKnown_replace s _ m); auto.
  - intros f s _ Hs. unfold applyPA.
    destruct (jm_get (lastEventId s) (matches s)) as [m |] eqn:Hm; [|exact Hs].
    pose proof (serversKnown_replace s (lastEventId s) m
                  (withMarkets (pushToLastMarket (buildSelection f) (markets m)) m)
                  Hs Hm eq_refl (or_introl eq_refl)) as H1.
    destruct (truthyStr (f !! "FI")); exact H1.
  - apply List.Forall_forall. trivial.
  - destruct b; [intros k m; discriminate | exact H].
Qed.

Lemma serversKnown_processUpdate (seg : ParsedSegment) (st : State) :
  serversKnown st -> serversKnown (fst (processUpdate seg st)).
Proof.
  intros H. unfold processUpdate.
  destruct (str_isEmpty (header seg)); [exact H|].
  destruct (pid_type (parseItemId (stripActionSuffix (header seg)))); try exact H.
  - destruct (truthyEntry _); cbn [negb]; [|exact H].
    destruct (jm_get _ (matches st)) as [m |] eqn:Hm; [|exact H].
    pose proof (applyEventFields_identity
                  (SPORT_REGISTRY
                     (pid_categoryId (parseItemId (stripActionSuffix (header seg)))))
                  (fields seg) m) as (_ & _ & Hs & _).
    pose proof (applyEventFields_serving
                  (SPORT_REGISTRY
                     (pid_categoryId (parseItemId (stripActionSuffix (header seg)))))
                  (fields seg) m) as Hv.
    destruct (applyEventFields _ (fields seg) m) as [m' chs]. cbn [fst] in *.
    assert (Hv' : serving m' = serving m \/ serving m' = 1%nat \/ serving m' = 2%nat)
      by tauto.
    destruct (action seg); cbn [fst];
      try (destruct chs; cbn [fst];
           apply (serversKnown_replace st _ m); assumption).
    intros k0 x. cbn [matches withMatches].
    destruct (decide (pid_eventId (parseItemId (stripActionSuffix (header seg))) = k0))
      as [<- | Hne].
    + rewrite jm_get_delete_eq. discriminate.
    + rewrite jm_get_delete_ne by assumption. apply H.
  - destruct (fixtureToEvent st !! _) as [evId |]; [|exact H].
    destruct (str_isEmpty evId); [exact H|].
    destruct (jm_get evId (matches st)) as [m |] eqn:Hm; [|exact H].
    destruct (updateMarkets _ m _ (markets m)) as [ms' chs].
    destruct chs; cbn [fst];
      apply (serversKnown_replace st _ m); auto.
Qed.

Lemma serversKnown_runSubMessages (subs : list (list string)) (st : State) :
  serversKnown st -> serversKnown (fst (runSubMessages subs st)).
Proof.
  revert st. induction subs as [| parts rest IH]; intros st H; [exact H|].
  rewrite runSubMessages_cons.
  assert (H1 : serversKnown (fst (processSubMessage parts st))).
  { unfold processSubMessage.
    destruct parts as [| h recs]; [exact H|].
    destruct (isSkippedHeader h); [exact H|].
    destruct (str_endsWith "F" h).
    - pose proof (serversKnown_processFullDump (dumpSegments h recs)
                    (str_includes "InPlay" h) st H) as H1.
      destruct (processFullDump _ _ st) as [st' [[] |]]; exact H1.
    - destruct (_ || _); [|exact H].
      pose proof (serversKnown_processUpdate (deltaSegment h recs) st H) as H1.
      destruct (processUpdate _ st) as [st' u]. exact H1. }
  destruct (processSubMessage parts st) as [st1 [u |]]; cbn [fst] in *;
    [|exact H1].
  pose proof (IH st1 H1) as H2.
  destruct (runSubMessages rest st1) as [st2 [us |]]; exact H2.
Qed.

Lemma serversKnown_reachable (st : State) : reachable st -> serversKnown st.
Proof.
  induction 1 as [| raw st _ IH]; [intros k m; discriminate|].
  apply serversKnown_runSubMessages. exact IH.
Qed.

(** A delta changes the serving indicator of no match when the category
    in its header names no serving sport. *)
Lemma processUpdate_keeps_serving (seg : ParsedSegment) (st : State)
    (k : string) (m m' : SportMatch) :
  entryFlag hasServing (SPORT_REGISTRY (headerCategory seg)) = false ->
  jm_get k (matches st) = Some m ->
  jm_get k (matches (fst (processUpdate seg st))) = Some m' ->
  serving m' = serving m.
Proof.
  unfold headerCategory. intros Hcat Hm. unfold processUpdate.
  set (pid := parseItemId (stripActionSuffix (header seg))) in *.
  assert (Hsame : jm_get k (matches st) = Some m' -> serving m' = serving m)
    by (rewrite Hm; intros [= <-]; reflexivity).
  assert (Hrep : forall k0 m0 x,
            jm_get k0 (matches st) = Some m0 -> serving x = serving m0 ->
            jm_get k (jm_set k0 x (matches st)) = Some m' ->
            serving m' = serving m).
  { intros k0 m0 x H0 Hx. destruct (decide (k0 = k)) as [-> | Hne].
    - rewrite jm_get_set_eq. intros [= <-]. rewrite Hx. congruence.
    - rewrite jm_get_set_ne by assumption. exact Hsame. }
  destruct (str_isEmpty (header seg)); [exact Hsame|].
  destruct (pid_type pid); try exact Hsame.
  - destruct (truthyEntry (SPORT_REGISTRY (pid_categoryId pid)));
      cbn [negb]; [|exact Hsame].
    destruct (jm_get (pid_eventId pid) (matches st)) as [m0 |] eqn:Hm0;
      [|exact Hsame].
    pose proof (applyEventFields_serving
                  (SPORT_REGISTRY (pid_categoryId pid)) (fields seg) m0) as Hv.
    rewrite Hcat in Hv.
    destruct (applyEventFields (SPORT_REGISTRY (pid_categoryId pid))
                (fields seg) m0) as [x chs].
    cbn [fst] in *.
    destruct Hv as [Hv | [Hv _]]; [|discriminate Hv].
    destruct (action seg); cbn [fst matches withMatches];
      try (destruct chs; cbn [fst matches withMatches]; exact (Hrep _ _ _ Hm0 Hv)).
    destruct (decide (pid_eventId pid = k)) as [<- | Hne].
    + rewrite jm_get_delete_eq. discriminate.
    + rewrite jm_get_delete_ne by assumption. exact Hsame.
  - destruct (fixtureToEvent st !! pid_fixtureId pid) as [evId |]; [|exact Hsame].
    destruct (str_isEmpty evId); [exact Hsame|].
    destruct (jm_get evId (matches st)) as [m0 |] eqn:Hm0; [|exact Hsame].
    destruct (updateMarkets (fields seg) m0 (pid_selectionId pid) (markets m0))
      as [ms' chs].
    destruct chs; cbn [fst matches withMatches];
      exact (Hrep evId m0 (withMarkets ms' m0) Hm0 eq_refl).
Qed.

Lemma serversExact_replace (st : State) (k : string) (m m' : SportMatch) :
  serversExact st ->
  jm_get k (matches st) = Some m ->
  sportId m' = sportId m ->
  (sportHasServing m = false -> serving m' = serving m) ->
  serversExact (withMatches (jm_set k m' (matches st)) st).
Proof.
  intros H Hm Hs Hv k0 x. cbn [matches withMatches].
  destruct (decide (k = k0)) as [<- | Hne].
  - rewrite jm_get_set_eq. intros [= <-] Hx.
    unfold sportHasServing in *. rewrite Hs in Hx.
    rewrite (Hv Hx). exact (H k m Hm Hx).
  - rewrite jm_get_set_ne by assumption. apply H.
Qed.

Lemma serversExact_processFullDump (segs : list ParsedSegment) (b : bool)
    (st : State) :
  serversExact st -> serversExact (fst (processFullDump segs b st)).
Proof.
  intros H. unfold processFullDump.
  apply (runSegments_preserves serversExact (fun _ => True)).
  - intros sid sup s Hs. exact Hs.
  - intros t code cat s Hs. exact Hs.
  - intros seg s sid c teams _ _ Hs evId Hne Hc k0 x.
    cbn [matches registerMatch eventId buildMatch].
    destruct (decide (evId = k0)) as [<- | Hk].
    + rewrite jm_get_set_eq. intros [= <-].
      unfold sportHasServing, buildMatch. cbn [sportId serving].
      rewrite Hc. cbn [entryFlag].
      intros ->. reflexivity.
    + rewrite jm_get_set_ne by assumption. apply Hs.
  - intros f s _ Hs. unfold applyMA.
    destruct (jm_get (lastEventId s) (matches s)) as [m |] eqn:Hm; [|exact Hs].
    apply (serversExact_replace s _ m); auto.
  - intros f s _ Hs. unfold applyPA.
    destruct (jm_get (lastEventId s) (matches s)) as [m |] eqn:Hm; [|exact Hs].
    pose proof (serversExact_replace s (lastEventId s) m
                  (withMarkets (pushToLastMarket (buildSelection f) (markets m)) m)
                  Hs Hm eq_refl (fun _ => eq_refl)) as H1.
    destruct (truthyStr (f !! "FI")); exact H1.
  - apply List.Forall_forall. trivial.
  - destruct b; [intros k m; discriminate | exact H].
Qed.

Lemma serversExact_processUpdate (seg : ParsedSegment) (st : State) :
  categoryAgrees seg st = true ->
  serversExact st -> serversExact (fst (processUpdate seg st)).
Proof.
  unfold categoryAgrees. intros Hag H. unfold processUpdate.
  destruct (str_isEmpty (header seg)); [exact H|].
  set (pid := parseItemId (stripActionSuffix (header seg))) in *.
  destruct (pid_type pid); try exact H.
  - destruct (truthyEntry _); cbn [negb]; [|exact H].
    destruct (jm_get (pid_eventId pid) (matches st)) as [m |] eqn:Hm; [|exact H].
    apply String.eqb_eq in Hag.
    pose proof (applyEventFields_identity (SPORT_REGISTRY (pid_categoryId pid))
                  (fields seg) m) as (_ & _ & Hs & _).
    pose proof (applyEventFields_serving (SPORT_REGISTRY (pid_categoryId pid))
                  (fields seg) m) as Hv.
    destruct (applyEventFields _ (fields seg) m) as [m' chs]. cbn [fst] in *.
    assert (Hv' : sportHasServing m = false -> serving m' = serving m).
    { unfold sportHasServing. rewrite <- Hag. intros Hno.
      destruct Hv as [Hv | [Hv _]]; [exact Hv | congruence]. }
    destruct (action seg); cbn [fst];
      try (destruct chs; cbn [fst];
           apply (serversExact_replace st _ m); assumption).
    intros k0 x. cbn [matches withMatches].
    destruct (decide (pid_eventId pid = k0)) as [<- | Hne].
    + rewrite jm_get_delete_eq. discriminate.
    + rewrite jm_get_delete_ne by assumption. apply H.
  - destruct (fixtureToEvent st !! _) as [evId |]; [|exact H].
    destruct (str_isEmpty evId); [exact H|].
    destruct (jm_get evId (matches st)) as [m |] eqn:Hm; [|exact H].
    destruct (updateMarkets _ m _ (markets m)) as [ms' chs].
    destruct chs; cbn [fst];
      apply (serversExact_replace st _ m); auto.
Qed.

Lemma serversExact_processSubMessage (parts : list string) (st : State) :
  subMessageAgrees parts st = true ->
  serversExact st -> serversExact (fst (processSubMessage parts st)).
Proof.
  unfold subMessageAgrees, processSubMessage. intros Hag H.
  destruct parts as [| h recs]; [exact H|].
  destruct (isSkippedHeader h); [exact H|].
  destruct (str_endsWith "F" h).
  - pose proof (serversExact_processFullDump (dumpSegments h recs)
                  (str_includes "InPlay" h) st H) as H1.
    destruct (processFullDump _ _ st) as [st' [[] |]]; exact H1.
  - destruct (_ || _); [|exact H].
    pose proof (serversExact_processUpdate (deltaSegment h recs) st Hag H) as H1.
    destruct (processUpdate _ st) as [st' u]. exact H1.
Qed.

Lemma serversExact_runSubMessages (subs : list (list string)) (st : State) :
  deltasAgree subs st = true ->
  serversExact st -> serversExact (fst (runSubMessages subs st)).
Proof.
  revert st. induction subs as [| parts rest IH]; intros st Hag H; [exact H|].
  cbn [deltasAgree] in Hag. apply andb_true_iff in Hag as [Hp Hrest].
  rewrite runSubMessages_cons.
  pose proof (serversExact_processSubMessage parts st Hp H) as H1.
  destruct (processSubMessage parts st) as [st1 [u |]]; cbn [fst] in *;
    [|exact H1].
  pose proof (IH st1 Hrest H1) as H2.
  destruct (runSubMessages rest st1) as [st2 [us |]]; exact H2.
Qed.

Lemma serversExact_agreeing (st : State) : reachableAgreeing st -> serversExact st.
Proof.
  induction 1 as [| raw st _ IH Hag]; [intros k m; discriminate|].
  apply serversExact_runSubMessages; assumption.
Qed.

(** C7, as the code behaves. In every reachable state a match of a sport
    with a serving indicator has serving 1 or 2. Along calls in which every
    event delta carries, in its header, the sport of the match it
    addresses, a stored match has serving 0 exactly when its sport has no
    serving indicator. The condition is on the header because a delta
    leaves the serving indicator of every match as it is unless the
    category code in its header names a serving sport. *)
Theorem serving_follows_sport (st : State) (Hreach : reachable st) :
  (forall m, In m (getAllMatches st) -> sportHasServing m = true ->
             serving m = 1%nat \/ serving m = 2%nat)
  /\ (reachableAgreeing st ->
      forall m, In m (getAllMatches st) ->
        (serving m = 0%nat <-> sportHasServing m = false))
  /\ (forall seg k m m',
        entryFlag hasServing (SPORT_REGISTRY (headerCategory seg)) = false ->
        jm_get k (matches st) = Some m ->
        jm_get k (matches (fst (processUpdate seg st))) = Some m' ->
        serving m' = serving m).
Proof.
  destruct (indexInvariant_reachable st Hreach) as ([Hnd _] & _ & _).
  split; [|split].
  - intros m Hin.
    destruct (jm_values_get m (matches st) Hnd Hin) as [k Hk].
    exact (serversKnown_reachable st Hreach k m Hk).
  - intros Hag m Hin.
    destruct (jm_values_get m (matches st) Hnd Hin) as [k Hk].
    split.
    + intros H0. destruct (sportHasServing m) eqn:Es; [|reflexivity].
      destruct (serversKnown_reachable st Hreach k m Hk Es) as [H1 | H1];
        rewrite H1 in H0; discriminate H0.
    + exact (serversExact_agreeing st Hag k m Hk).
  - intros seg k m m'. apply processUpdate_keeps_serving.
Qed.

(** The theorem at the tennis match S1 leaves, which has a server, and at
    the soccer match of [soccerDump] after a delta that carries the soccer
    category and a PI field: its serving indicator is still 0. *)
Lemma serving_follows_sport_witness :
  (exists m,
     In m (getAllMatches (fst (processMessage S1_payload initialState)))
     /\ (serving m = 1%nat \/ serving m = 2%nat))
  /\ (exists m,
        In m (getAllMatches
                (fst (processMessage soccerDelta
                        (fst (processMessage soccerDump initialState)))))
        /\ sportHasServing m = false
        /\ (serving m = 0%nat <-> sportHasServing m = false)).
Proof.
  split.
  - eexists. split; [vm_compute; left; reflexivity|].
    apply (proj1 (serving_follows_sport _
                    (reach_step S1_payload initialState reach_init))).
    + vm_compute. left. reflexivity.
    + vm_compute. reflexivity.
  - eexists. split; [vm_compute; left; reflexivity|].
    split; [vm_compute; reflexivity|].
    apply (proj1 (proj2 (serving_follows_sport _
                           (reach_step soccerDelta _
                              (reach_step soccerDump initialState reach_init))))).
    + apply agree_step; [apply agree_step; [apply agree_init|]|];
        vm_compute; reflexivity.
    + vm_compute. left. reflexivity.
Defined.

(** ** Replayed deltas *)

Lemma numEq_refl (x : number) : x <> NaN -> numEq x x = true.
Proof.
  destruct x as [s | s | | s m e]; intros H; try (exfalso; apply H; reflexivity);
    unfold numEq, SFeqb, SFcompare.
  - reflexivity.
  - destruct s; reflexivity.
  - destruct s; rewrite Z.compare_refl, Pos.compare_cont_refl; reflexivity.
Qed.

Lemma orZero_not_NaN (x : number) : orZero x <> NaN.
Proof. destruct x; unfold orZero; simpl; discriminate. Qed.

Lemma parseSetScores_not_NaN (ss : option string) :
  List.Forall (fun ab => fst ab <> NaN /\ snd ab <> NaN) (parseSetScores ss).
Proof.
  unfold parseSetScores. destruct (truthyStr ss); [|constructor].
  apply List.Forall_forall. intros [a b] Hin.
  apply in_map_iff in Hin as [set [[= <- <-] _]].
  split; apply orZero_not_NaN.
Qed.

Lemma sameSets_refl (l : list (number * number)) :
  List.Forall (fun ab => fst ab <> NaN /\ snd ab <> NaN) l -> sameSets l l = true.
Proof.
  induction 1 as [| [a b] l [Ha Hb] _ IH]; simpl; [reflexivity|].
  simpl in Ha, Hb. rewrite (numEq_refl a Ha), (numEq_refl b Hb), IH. reflexivity.
Qed.

Lemma applyEventFields_replay cfg f m :
  applyEventFields cfg f (fst (applyEventFields cfg f m))
  = (fst (applyEventFields cfg f m), []).
Proof.
  unfold applyEventFields.
  destruct (f !! "SS") as [ss|]; destruct (entryFlag usesSetScoring cfg);
  destruct (f !! "XP") as [xp|]; destruct (entryFlag hasPointScore cfg);
  destruct (f !! "PI") as [pi|]; destruct (entryFlag hasServing cfg);
  destruct (truthyStr (f !! "TU"));
  destruct (f !! "ES") as [es|]; cbn [fst snd withBoard scoreRaw sets currentGame serving lastUpdated status];
  rewrite ?String.eqb_refl, ?Nat.eqb_refl,
    ?(sameSets_refl _ (parseSetScores_not_NaN _)); reflexivity.
Qed.

Lemma jm_set_set {V : Type} (k : string) (v v' : V) (m : jsmap V) :
  jm_set k v (jm_set k v' m) = jm_set k v m.
Proof.
  induction m as [| [k0 v0] r IH]; simpl.
  - rewrite String.eqb_refl. reflexivity.
  - destruct (String.eqb k0 k) eqn:E; simpl.
    + rewrite String.eqb_refl. reflexivity.
    + rewrite E, IH. reflexivity.
Qed.

Lemma updateSelection_replay f m m2 w w2 selId s :
  updateSelection f m2 w2 selId (fst (updateSelection f m w selId s))
  = (fst (updateSelection f m w selId s), []).
Proof.
  unfold updateSelection.
  destruct (String.eqb (sel_id s) selId) eqn:E; cbn [fst]; [|rewrite E; reflexivity].
  destruct (f !! "OD") as [od|]; [destruct (String.eqb od (odds s)) eqn:Eo|];
    destruct (f !! "SU") as [su|]; cbn [fst negb sel_id odds];
    rewrite E, ?Eo, ?String.eqb_refl; reflexivity.
Qed.

Lemma updateSelections_replay f m m2 w w2 selId sels :
  updateSelections f m2 w2 selId (fst (updateSelections f m w selId sels))
  = (fst (updateSelections f m w selId sels), []).
Proof.
  induction sels as [| s r IH]; simpl; [reflexivity|].
  pose proof (updateSelection_replay f m m2 w w2 selId s) as Hs.
  destruct (updateSelection f m w selId s) as [s' c1].
  destruct (updateSelections f m w selId r) as [r' c2].
  cbn [fst] in *. simpl. rewrite Hs, IH. reflexivity.
Qed.

Lemma updateMarkets_replay f m m2 selId ms :
  updateMarkets f m2 selId (fst (updateMarkets f m selId ms))
  = (fst (updateMarkets f m selId ms), []).
Proof.
  induction ms as [| [k mk] r IH]; [reflexivity|].
  cbn [updateMarkets]. unfold updateMarket.
  pose proof (updateSelections_replay f m m2
                (Nat.leb 3 (List.length (selections mk)))) as Hs.
  destruct (updateSelections f m _ selId (selections mk)) as [sels' c1] eqn:E1.
  destruct (updateMarkets f m selId r) as [r' c2].
  cbn [fst] in *. cbn [updateMarkets]. unfold updateMarket.
  cbn [selections mkt_id mkt_name mkt_suspended].
  specialize (Hs (Nat.leb 3 (List.length sels')) selId (selections mk)).
  rewrite E1 in Hs. cbn [fst] in Hs. rewrite Hs, IH. reflexivity.
Qed.

(** X1. A delta applied a second time changes nothing and pushes no
    update: whatever header and fields it carries, [processUpdate] leaves
    the state that its first application reached as it is and returns
    [null]. *)
Theorem processUpdate_replay_is_silent (seg : ParsedSegment) (st : State) :
  processUpdate seg (fst (processUpdate seg st))
  = (fst (processUpdate seg st), None).
Proof.
  unfold processUpdate.
  destruct (str_isEmpty (header seg)); [reflexivity|].
  set (pid := parseItemId (stripActionSuffix (header seg))).
  destruct (pid_type pid); try reflexivity.
  - (* an event-scoped delta *)
    destruct (truthyEntry (SPORT_REGISTRY (pid_categoryId pid)));
      cbn [negb]; [|reflexivity].
    destruct (jm_get (pid_eventId pid) (matches st)) as [m|] eqn:Em;
      cbn [fst]; [|rewrite Em; reflexivity].
    pose proof (applyEventFields_replay (SPORT_REGISTRY (pid_categoryId pid))
                  (fields seg) m) as Hr.
    destruct (applyEventFields (SPORT_REGISTRY (pid_categoryId pid))
                (fields seg) m) as [m' chs].
    cbn [fst] in Hr.
    destruct (action seg).
    + destruct chs; cbn [fst matches withMatches];
        rewrite jm_get_set_eq, Hr, jm_set_set; reflexivity.
    + destruct chs; cbn [fst matches withMatches];
        rewrite jm_get_set_eq, Hr, jm_set_set; reflexivity.
    + cbn [fst matches withMatches]. rewrite jm_get_delete_eq. reflexivity.
  - (* a selection-scoped delta *)
    destruct (fixtureToEvent st !! pid_fixtureId pid) as [evId|] eqn:Ef;
      cbn [fst]; [|rewrite Ef; reflexivity].
    destruct (str_isEmpty evId) eqn:Ee; cbn [fst]; [rewrite Ef, Ee; reflexivity|].
    destruct (jm_get evId (matches st)) as [m|] eqn:Em;
      cbn [fst]; [|rewrite Ef, Ee, Em; reflexivity].
    pose proof (updateMarkets_replay (fields seg) m
                  (withMarkets (fst (updateMarkets (fields seg) m
                                       (pid_selectionId pid) (markets m))) m)
                  (pid_selectionId pid) (markets m)) as Hr.
    destruct (updateMarkets (fields seg) m (pid_selectionId pid) (markets m))
      as [ms' chs].
    cbn [fst] in Hr.
    destruct chs; cbn [fst fixtureToEvent withMatches matches];
      rewrite Ef, Ee, jm_get_set_eq; cbn [markets withMarkets];
      rewrite Hr, jm_set_set; reflexivity.
Qed.

(** ** Stored matches and their keys *)

Lemma jm_values_keys (ms : jsmap SportMatch) :
  (forall k m, In (k, m) ms -> eventId m = k) ->
  map eventId (jm_values ms) = jm_keys ms.
Proof.
  induction ms as [| [k m] r IH]; intros H; [reflexivity|].
  unfold jm_values, jm_keys in *. simpl.
  rewrite (H k m (or_introl eq_refl)), IH; [reflexivity|].
  intros k' m' Hin. apply H. right. exact Hin.
Qed.

(** X2. In every state that calls of [processMessage] reach, the matches
    that [getAllMatches] returns have pairwise distinct event ids, none of
    them empty, and each match is the one stored under its own event id. *)
Theorem matches_keyed_by_event_id (st : State) (Hreach : reachable st) :
  List.NoDup (map eventId (getAllMatches st))
  /\ forall m, In m (getAllMatches st) ->
       eventId m <> "" /\ jm_get (eventId m) (matches st) = Some m.
Proof.
  destruct (indexInvariant_reachable st Hreach) as ([Hnd Hkey] & _ & _).
  assert (Hk : forall k m, In (k, m) (matches st) -> eventId m = k).
  { intros k m Hin. exact (proj1 (Hkey k m (jm_In_get k m _ Hnd Hin))). }
  split.
  - unfold getAllMatches. rewrite (jm_values_keys _ Hk). exact Hnd.
  - intros m Hin.
    destruct (jm_values_get m (matches st) Hnd Hin) as [k Hget].
    destruct (Hkey k m Hget) as [E Hne]. rewrite E. split; assumption.
Qed.

(** The theorem at the state S1 leaves. *)
Lemma matches_keyed_by_event_id_witness :
  List.NoDup
    (map eventId (getAllMatches (fst (processMessage S1_payload initialState))))
  /\ forall m,
       In m (getAllMatches (fst (processMessage S1_payload initialState))) ->
       eventId m <> ""
       /\ jm_get (eventId m)
            (matches (fst (processMessage S1_payload initialState))) = Some m.
Proof.
  apply matches_keyed_by_event_id. apply reach_step, reach_init.
Defined.

(** ** Dumps of sports outside the registry *)

Lemma applySegment_unknown_sport (seg : ParsedSegment) (st : State) :
  sportUnknown seg = true -> inSupportedSport st = false ->
  exists st',
    applySegment seg st = (st', Normal ())
    /\ inSupportedSport st' = false
    /\ matches st' = matches st
    /\ fixtureToEvent st' = fixtureToEvent st
    /\ selectionInfo st' = selectionInfo st
    /\ itemToEvent st' = itemToEvent st
    /\ lastEventId st' = lastEventId st.
Proof.
  unfold sportUnknown. intros Hu Hs.
  destruct (SPORT_REGISTRY (orElse (fields seg !! "CL") "")) eqn:Er;
    try discriminate Hu.
  unfold applySegment.
  destruct (recordType seg); rewrite ?Er, ?andb_false_r; cbn [truthyEntry];
    rewrite ?Hs; cbn [negb];
    eexists; (split; [reflexivity|]); cbn; repeat split; exact Hs.
Qed.

Lemma runSegments_unknown_sport (segs : list ParsedSegment) (st : State) :
  forallb sportUnknown segs = true -> inSupportedSport st = false ->
  snd (runSegments segs st) = Normal ()
  /\ matches (fst (runSegments segs st)) = matches st
  /\ fixtureToEvent (fst (runSegments segs st)) = fixtureToEvent st
  /\ selectionInfo (fst (runSegments segs st)) = selectionInfo st
  /\ itemToEvent (fst (runSegments segs st)) = itemToEvent st
  /\ lastEventId (fst (runSegments segs st)) = lastEventId st.
Proof.
  revert st. induction segs as [| seg rest IH]; intros st Hall Hs.
  - cbn. repeat split.
  - cbn [forallb] in Hall. apply andb_true_iff in Hall as [Hseg Hrest].
    destruct (applySegment_unknown_sport seg st Hseg Hs)
      as (st' & E & Hs' & Em & Ef & Esi & Ei & El).
    cbn [runSegments]. rewrite E.
    destruct (IH st' Hrest Hs') as (R0 & R1 & R2 & R3 & R4 & R5).
    rewrite R0, R1, R2, R3, R4, R5, Em, Ef, Esi, Ei, El. repeat split.
Qed.

(** X3. A full dump in which no record carries a sport code of the
    registry registers nothing: the call returns, no match is added, the
    three indexes are those of the state after the initial reset (the
    earlier tables for a detail dump, empty tables for a global one) and no
    match is current at the end. *)
Theorem unknown_sport_dump_registers_nothing (segs : list ParsedSegment)
    (isGlobalDump : bool) (st : State)
    (Hunknown : forallb sportUnknown segs = true) :
  snd (processFullDump segs isGlobalDump st) = Normal ()
  /\ matches (fst (processFullDump segs isGlobalDump st))
     = (if isGlobalDump then [] else matches st)
  /\ fixtureToEvent (fst (processFullDump segs isGlobalDump st))
     = (if isGlobalDump then ∅ else fixtureToEvent st)
  /\ selectionInfo (fst (processFullDump segs isGlobalDump st))
     = (if isGlobalDump then ∅ else selectionInfo st)
  /\ itemToEvent (fst (processFullDump segs isGlobalDump st))
     = (if isGlobalDump then ∅ else itemToEvent st)
  /\ lastEventId (fst (processFullDump segs isGlobalDump st)) = "".
Proof.
  unfold processFullDump.
  exact (runSegments_unknown_sport segs (resetForDump isGlobalDump st)
           Hunknown eq_refl).
Qed.

(** The theorem at the volleyball dump of S5, received as a detail dump
    after S1. *)
Lemma unknown_sport_dump_registers_nothing_witness :
  forallb sportUnknown (dumpSegments "OV555C91A_32_0F" S5_records) = true
  /\ snd (processFullDump (dumpSegments "OV555C91A_32_0F" S5_records) false
            (fst (processMessage S1_payload initialState))) = Normal ()
  /\ matches (fst (processFullDump (dumpSegments "OV555C91A_32_0F" S5_records)
                     false (fst (processMessage S1_payload initialState))))
     = matches (fst (processMessage S1_payload initialState)).
Proof.
  split; [vm_compute; reflexivity|].
  pose proof (unknown_sport_dump_registers_nothing
                (dumpSegments "OV555C91A_32_0F" S5_records) false
                (fst (processMessage S1_payload initialState))) as H.
  cbv iota in H. 
  destruct H as (H0 & H1 & _); [vm_compute; reflexivity|].
  split; assumption.
Defined.

(** ** Records as text and back *)

Lemma str_includes_single_app (c : ascii) (a b : string) :
  str_includes (String c "") (a +:+ b)
  = str_includes (String c "") a || str_includes (String c "") b.
Proof.
  induction a as [| x r IH].
  - rewrite str_append_nil. reflexivity.
  - rewrite str_append_cons, !str_includes_single, IH, orb_assoc. reflexivity.
Qed.

Lemma str_indexOf_single (c : ascii) (a b : string) :
  str_includes (String c "") a = false ->
  str_indexOf (String c "") (a +:+ String c b) = Some (String.length a).
Proof.
  induction a as [| x r IH]; intros H.
  - rewrite str_append_nil. cbn [str_indexOf].
    rewrite prefix_single, Ascii.eqb_refl. reflexivity.
  - rewrite str_includes_single in H. apply orb_false_iff in H as [Hx Hr].
    rewrite str_append_cons. cbn [str_indexOf].
    rewrite prefix_single, Hx, (IH Hr). reflexivity.
Qed.

Lemma str_take_app (a b : string) : str_take (String.length a) (a +:+ b) = a.
Proof.
  induction a as [| x r IH]; [destruct b; reflexivity|].
  rewrite str_append_cons. simpl. rewrite IH. reflexivity.
Qed.

Lemma str_drop_app (a b : string) : str_drop (String.length a) (a +:+ b) = b.
Proof.
  induction a as [| x r IH]; [destruct b; reflexivity|].
  rewrite str_append_cons. simpl. exact IH.
Qed.

Lemma str_length_app (a b : string) :
  String.length (a +:+ b) = (String.length a + String.length b)%nat.
Proof.
  induction a as [| x r IH]; [reflexivity|].
  rewrite str_append_cons. simpl. rewrite IH. reflexivity.
Qed.

Lemma str_drop_app_cons (a : string) (c : ascii) (b : string) :
  str_drop (S (String.length a)) (a +:+ String c b) = b.
Proof.
  induction a as [| x r IH]; [reflexivity|].
  rewrite str_append_cons. exact IH.
Qed.

Lemma parseField_renderField (acc : gmap string string) (kv : string * string) :
  fieldWellFormed kv = true ->
  parseField acc (renderField kv) = <[fst kv := snd kv]> acc.
Proof.
  destruct kv as [k v]. unfold fieldWellFormed, renderField. cbn [fst snd].
  intros H. apply andb_true_iff in H as [H _].
  apply andb_true_iff in H as [H Hp]. apply andb_true_iff in H as [_ He].
  apply negb_true_iff in Hp, He.
  unfold parseField.
  change (k +:+ "=" +:+ v) with (k +:+ String "=" v).
  assert (Hne : str_isEmpty (k +:+ String "=" v) = false)
    by (destruct k; reflexivity).
  rewrite Hne, (str_indexOf_single "=" k v He), str_take_app, Hp,
    str_drop_app_cons.
  reflexivity.
Qed.

Lemma renderField_no_semicolon (kv : string * string) :
  fieldWellFormed kv = true -> str_includes ";" (renderField kv) = false.
Proof.
  destruct kv as [k v]. unfold fieldWellFormed, renderField. cbn [fst snd].
  intros H. apply andb_true_iff in H as [H Hv].
  apply andb_true_iff in H as [H _]. apply andb_true_iff in H as [Hk _].
  apply negb_true_iff in Hk, Hv.
  change (k +:+ "=" +:+ v) with (k +:+ String "=" v).
  rewrite str_includes_single_app, str_includes_single, Hk, Hv. reflexivity.
Qed.

Lemma str_split_renderFields (kvs : list (string * string)) :
  forallb fieldWellFormed kvs = true ->
  str_split ";" (renderFields kvs) = map renderField kvs ++ [""].
Proof.
  induction kvs as [| kv r IH]; intros H; [reflexivity|].
  cbn [forallb] in H. apply andb_true_iff in H as [Hkv Hr].
  cbn [renderFields map].
  change (renderField kv +:+ ";" +:+ renderFields r)
    with (renderField kv +:+ String ";" (renderFields r)).
  rewrite str_split_app, (str_split_without _ _ (renderField_no_semicolon kv Hkv)),
    (IH Hr).
  reflexivity.
Qed.

Lemma fold_parseField_rendered (kvs : list (string * string))
    (acc : gmap string string) :
  forallb fieldWellFormed kvs = true ->
  fold_left parseField (map renderField kvs ++ [""]) acc
  = fold_left (fun a kv => <[fst kv := snd kv]> a) kvs acc.
Proof.
  revert acc. induction kvs as [| kv r IH]; intros acc H; [reflexivity|].
  cbn [forallb] in H. apply andb_true_iff in H as [Hkv Hr].
  cbn [map app fold_left]. rewrite (parseField_renderField acc kv Hkv).
  apply IH. exact Hr.
Qed.

Lemma fold_insert_list_to_map (kvs : list (string * string))
    (acc : list (string * string)) :
  fold_left (fun a kv => <[fst kv := snd kv]> a) kvs
    (list_to_map acc : gmap string string)
  = list_to_map (rev kvs ++ acc).
Proof.
  revert acc. induction kvs as [| kv r IH]; intros acc; [reflexivity|].
  cbn [fold_left rev].
  change (<[kv.1:=kv.2]> (list_to_map acc : gmap string string))
    with (list_to_map (kv :: acc) : gmap string string).
  rewrite IH, <- app_assoc. reflexivity.
Qed.

Lemma parseFields_renderRecord (tag : string) (kvs : list (string * string)) :
  tagWellFormed tag = true -> forallb fieldWellFormed kvs = true ->
  parseFields (renderRecord tag kvs)
  = fold_left (fun a kv => <[fst kv := snd kv]> a) kvs
      (<["_type" := tag]> (∅ : gmap string string)).
Proof.
  intros Htag Hkvs. unfold tagWellFormed in Htag.
  apply andb_true_iff in Htag as [Htag He].
  apply andb_true_iff in Htag as [Hne Hs].
  apply negb_true_iff in Hne, Hs, He.
  unfold parseFields, renderRecord.
  assert (Hr : str_isEmpty (tag +:+ ";" +:+ renderFields kvs) = false).
  { destruct tag; [discriminate Hne | reflexivity]. }
  rewrite Hr.
  change (tag +:+ ";" +:+ renderFields kvs)
    with (tag +:+ String ";" (renderFields kvs)).
  rewrite str_split_app, (str_split_without _ _ Hs), (str_split_renderFields _ Hkvs).
  cbn [app fold_left]. unfold parseField at 2. rewrite Hne.
  assert (Hi : str_indexOf "=" tag = None).
  { clear Hr Hne Hs. induction tag as [| x r IH]; [reflexivity|].
    rewrite str_includes_single in He. apply orb_false_iff in He as [Hx Hr].
    cbn [str_indexOf]. rewrite prefix_single, Hx, (IH Hr). reflexivity. }
  rewrite Hi. apply fold_parseField_rendered. exact Hkvs.
Qed.

Lemma fold_insert_keeps (k v : string) (kvs : list (string * string))
    (acc : gmap string string) :
  forallb (fun kv => negb (String.eqb (fst kv) k)) kvs = true ->
  acc !! k = Some v ->
  fold_left (fun a kv => <[fst kv := snd kv]> a) kvs acc !! k = Some v.
Proof.
  revert acc. induction kvs as [| kv r IH]; intros acc Hkeys Hacc; [exact Hacc|].
  cbn [forallb] in Hkeys. apply andb_true_iff in Hkeys as [Hk Hr].
  apply negb_true_iff, String.eqb_neq in Hk.
  cbn [fold_left]. apply IH; [exact Hr|].
  rewrite lookup_insert_ne; [exact Hacc | exact Hk].
Qed.

(** X4. [parseFields] reads back the text of a record: for a type tag and
    [key=value] pairs free of the separators, the mapping holds the tag
    under [_type] and, under each key, the value of its last occurrence. *)
Theorem parseFields_reads_record (tag : string) (kvs : list (string * string))
    (Htag : tagWellFormed tag = true)
    (Hkvs : forallb fieldWellFormed kvs = true) :
  parseFields (renderRecord tag kvs) = list_to_map (rev (("_type", tag) :: kvs)).
Proof.
  rewrite (parseFields_renderRecord tag kvs Htag Hkvs).
  change (<["_type":=tag]> (∅ : gmap string string))
    with (list_to_map [("_type", tag)] : gmap string string).
  rewrite fold_insert_list_to_map. reflexivity.
Qed.

(** The theorem at an EV record whose SS field is sent twice. *)
Lemma parseFields_reads_record_witness :
  parseFields
    (renderRecord "EV" [("ID", "1C13A_32_0"); ("SS", "3-6"); ("SS", "3-6,1-0")])
  = list_to_map
      (rev [("_type", "EV"); ("ID", "1C13A_32_0"); ("SS", "3-6");
            ("SS", "3-6,1-0")]).
Proof.
  apply parseFields_reads_record; vm_compute; reflexivity.
Defined.

(** X5. The record type survives the round trip through text: a record
    rendered with the literal of a record type and well-formed fields, none
    of them under the key [_type], is detected as that type. *)
Theorem detectRecordType_reads_tag (t : RecordType) (kvs : list (string * string))
    (Hkvs : forallb fieldWellFormed kvs = true)
    (Hkeys : forallb (fun kv => negb (String.eqb (fst kv) "_type")) kvs = true) :
  detectRecordType (parseFields (renderRecord (recordTypeName t) kvs)) = t.
Proof.
  rewrite (parseFields_renderRecord (recordTypeName t) kvs);
    [|destruct t; reflexivity | exact Hkvs].
  unfold detectRecordType.
  rewrite (fold_insert_keeps "_type" (recordTypeName t) kvs _ Hkeys);
    [destruct t; reflexivity|].
  apply lookup_insert_eq.
Qed.

(** The theorem at the PA record of S1. *)
Lemma detectRecordType_reads_tag_witness :
  detectRecordType
    (parseFields
       (renderRecord (recordTypeName PA)
          [("ID", "701873422"); ("FI", "190340113"); ("OD", "9/2");
           ("OR", "0"); ("SU", "0")])) = PA.
Proof.
  apply detectRecordType_reads_tag; vm_compute; reflexivity.
Defined.

(** ** Pieces of a split *)

Lemma str_split_pieces (c : ascii) (s : string) :
  List.Forall (fun p => str_includes (String c "") p = false) (str_split c s).
Proof.
  induction s as [| x r IH]; simpl.
  - repeat constructor.
  - destruct (Ascii.eqb x c) eqn:E.
    + constructor; [reflexivity | exact IH].
    + destruct (str_split c r) as [| p ps]; [repeat constructor|].
      * rewrite str_includes_single, Ascii.eqb_sym, E. reflexivity.
      * inversion IH as [| ? ? Hp Hps]; subst.
        constructor; [|exact Hps].
        rewrite str_includes_single, Ascii.eqb_sym, E. exact Hp.
Qed.

Lemma str_split_lookup_piece (c : ascii) (s : string) (i : nat) (p : string) :
  str_split c s !! i = Some p -> str_includes (String c "") p = false.
Proof.
  intros H. pose proof (str_split_pieces c s) as Hall.
  rewrite List.Forall_forall in Hall. apply Hall.
  apply list_elem_of_In. eapply list_elem_of_lookup_2. exact H.
Qed.

Lemma orElse_piece (c : ascii) (s : string) (i : nat) :
  orElse (str_split c s !! i) "0" <> ""
  /\ (Ascii.eqb c "0" = false ->
      str_includes (String c "") (orElse (str_split c s !! i) "0") = false).
Proof.
  destruct (str_split c s !! i) as [p|] eqn:E; cbn [orElse].
  - destruct p as [| x r] eqn:Ep; cbn [str_isEmpty].
    + split; [discriminate|].
      intros Hc. rewrite str_includes_single, Hc. reflexivity.
    + split; [discriminate|]. intros _.
      exact (str_split_lookup_piece c s i _ E).
  - split; [discriminate|].
    intros Hc. rewrite str_includes_single, Hc. reflexivity.
Qed.

Lemma parsePointScore_halves_aux (xp : option string) :
  str_includes "-" (fst (parsePointScore xp)) = false
  /\ str_includes "-" (snd (parsePointScore xp)) = false
  /\ fst (parsePointScore xp) <> "" /\ snd (parsePointScore xp) <> "".
Proof.
  unfold parsePointScore. destruct (truthyStr xp); cbn [fst snd].
  - destruct (orElse_piece "-" (orElse xp "") 0) as [H0 H0'].
    destruct (orElse_piece "-" (orElse xp "") 1) as [H1 H1'].
    repeat split; auto.
  - repeat split; discriminate.
Qed.


Lemma str_append_sep_inj (c : ascii) (a1 b1 a2 b2 : string) :
  str_includes (String c "") a1 = false ->
  str_includes (String c "") a2 = false ->
  a1 +:+ String c b1 = a2 +:+ String c b2 -> a1 = a2 /\ b1 = b2.
Proof.
  revert a2. induction a1 as [| x r IH]; intros a2 H1 H2 E.
  - destruct a2 as [| y r2].
    + rewrite !str_append_nil in E. injection E as ->. split; reflexivity.
    + rewrite str_append_nil, str_append_cons in E. injection E as <- _.
      rewrite str_includes_single, Ascii.eqb_refl in H2. discriminate.
  - destruct a2 as [| y r2].
    + rewrite str_append_nil, str_append_cons in E. injection E as -> _.
      rewrite str_includes_single, Ascii.eqb_refl in H1. discriminate.
    + rewrite !str_append_cons in E. injection E as -> E.
      rewrite str_includes_single in H1, H2.
      apply orb_false_iff in H1 as [_ H1]. apply orb_false_iff in H2 as [_ H2].
      destruct (IH r2 H1 H2 E) as [-> ->]. split; reflexivity.
Qed.

(** X7. The text [p1-p2] by which [processUpdate] compares the point
    score before and after a delta tells two parsed point scores apart
    exactly when they differ. *)
Theorem gameText_decides_point_score (xp1 xp2 : option string) :
  gameText (parsePointScore xp1) = gameText (parsePointScore xp2)
  <-> parsePointScore xp1 = parsePointScore xp2.
Proof.
  split; [|intros ->; reflexivity].
  destruct (parsePointScore_halves_aux xp1) as (H1 & _).
  destruct (parsePointScore_halves_aux xp2) as (H2 & _).
  unfold gameText.
  destruct (parsePointScore xp1) as [a1 b1], (parsePointScore xp2) as [a2 b2].
  cbn [fst snd] in *. intros E.
  change (a1 +:+ "-" +:+ b1) with (a1 +:+ String "-" b1) in E.
  change (a2 +:+ "-" +:+ b2) with (a2 +:+ String "-" b2) in E.
  destruct (str_append_sep_inj "-" a1 b1 a2 b2 H1 H2 E) as [-> ->]. reflexivity.
Qed.

(** ** Set scores *)



(** ** Sub-messages of a frame *)

Lemma groupParts_concat (cur parts : list string) :
  concat (groupParts cur parts) = cur ++ parts.
Proof.
  revert cur. induction parts as [| p ps IH]; intros cur; simpl.
  - destruct cur; simpl; rewrite ?app_nil_r; reflexivity.
  - destruct (isTopicHeader p).
    + destruct cur; simpl; rewrite IH; reflexivity.
    + rewrite IH, <- app_assoc. reflexivity.
Qed.

(** X9. [splitFrame] never yields an empty sub-message, and regrouping
    loses nothing: the sub-messages, laid end to end, are the
    pipe-separated parts of the chunks of the payload (of the payload
    itself when it has no chunk), in wire order. *)
Theorem splitFrame_keeps_parts (raw : string) :
  List.Forall (fun parts => parts <> []) (splitFrame raw)
  /\ concat (splitFrame raw)
     = flat_map (str_split "|")
         (match cleanAndSplit raw with [] => [raw] | chunks => chunks end).
Proof.
  unfold splitFrame.
  destruct (cleanAndSplit raw) as [| c [| c' cs]]; cbn [List.length Nat.ltb Nat.leb].
  - split; [apply groupParts_no_empty|].
    rewrite groupParts_concat. cbn. rewrite app_nil_r. reflexivity.
  - split; [apply groupParts_no_empty|].
    rewrite groupParts_concat. cbn. rewrite app_nil_r. reflexivity.
  - split.
    + apply List.Forall_forall. intros parts Hin.
      apply in_map_iff in Hin as [chunk [<- _]]. apply str_split_nonempty.
    + rewrite flat_map_concat_map. reflexivity.
Qed.

Lemma str_forallb_app (p : ascii -> bool) (a b : string) :
  str_forallb p (a +:+ b) = str_forallb p a && str_forallb p b.
Proof.
  induction a as [| c r IH]; [reflexivity|].
  rewrite str_append_cons. simpl. rewrite IH, andb_assoc. reflexivity.
Qed.

Lemma str_split_forallb (p : ascii -> bool) (c : ascii) (s : string) :
  str_forallb p s = true ->
  List.Forall (fun piece => str_forallb p piece = true) (str_split c s).
Proof.
  induction s as [| x r IH]; intros H; simpl.
  - repeat constructor.
  - simpl in H. apply andb_true_iff in H as [Hx Hr].
    specialize (IH Hr).
    destruct (Ascii.eqb x c).
    + constructor; [reflexivity | exact IH].
    + destruct (str_split c r) as [| q qs]; [repeat constructor|].
      * simpl. rewrite Hx. reflexivity.
      * inversion IH as [| ? ? Hq Hqs]; subst.
        constructor; [simpl; rewrite Hx, Hq; reflexivity | exact Hqs].
Qed.

Lemma normalized_no_control (raw : string) :
  str_forallb (fun c => negb (isControlSeparator c) && negb (isStripped c))
    (str_filter (fun c => negb (isStripped c))
       (str_map (fun c => if isControlSeparator c then RS else c) raw)) = true.
Proof.
  induction raw as [| c r IH]; [reflexivity|].
  cbn [str_map str_filter].
  destruct (isControlSeparator c) eqn:Ec.
  - change (negb (isStripped RS)) with true. cbn iota.
    cbn [str_forallb]. rewrite IH. reflexivity.
  - destruct (isStripped c) eqn:Es; cbn [negb]; [exact IH|].
    cbn [str_forallb]. rewrite Ec, Es, IH. reflexivity.
Qed.

(** X10. Every chunk [cleanAndSplit] returns is non-empty and free of the
    bytes the splitter reacts to: 0x14 and 0x15 delimit chunks, 0x00, 0x01
    and 0x08 are stripped, and 0x1E, the separator put in their place, ends
    a chunk as well. *)
Theorem cleanAndSplit_chunks (raw : string) :
  List.Forall (fun chunk => chunk <> "" /\ controlFree chunk = true)
    (cleanAndSplit raw).
Proof.
  unfold cleanAndSplit.
  set (normalized := str_filter _ _).
  apply List.Forall_forall. intros chunk Hin.
  apply filter_In in Hin as [Hin Hne].
  split; [apply str_isEmpty_false, negb_true_iff; exact Hne|].
  pose proof (str_split_pieces RS normalized) as Hrs.
  pose proof (str_split_forallb _ RS normalized (normalized_no_control raw)) as Hc.
  rewrite List.Forall_forall in Hrs, Hc.
  specialize (Hrs chunk Hin). specialize (Hc chunk Hin).
  clear Hin Hne. unfold controlFree, isFramingByte.
  induction chunk as [| x r IH]; [reflexivity|].
  rewrite str_includes_single in Hrs. apply orb_false_iff in Hrs as [Hx Hr].
  cbn [str_forallb] in *. apply andb_true_iff in Hc as [Hcx Hcr].
  apply andb_true_iff in Hcx as [H1 H2]. apply negb_true_iff in H1, H2.
  rewrite H1, H2, Ascii.eqb_sym, Hx. cbn. apply IH; assumption.
Qed.

(** ** Item identifiers: what the patterns accept *)

Lemma spanDigits_spec (s : string) :
  s = fst (spanDigits s) +:+ snd (spanDigits s)
  /\ allDigits (fst (spanDigits s)) = true.
Proof.
  induction s as [| c r [IH1 IH2]]; [split; reflexivity|].
  cbn [spanDigits]. destruct (isDigit c) eqn:Ec.
  - destruct (spanDigits r) as [d t]. cbn [fst snd] in *.
    rewrite str_append_cons, <- IH1. cbn [allDigits]. rewrite Ec, IH2.
    split; reflexivity.
  - split; reflexivity.
Qed.

Lemma digits1_spec (s d r : string) :
  digits1 s = Some (d, r) -> s = d +:+ r /\ isNumericId d = true.
Proof.
  unfold digits1, isNumericId. destruct (spanDigits_spec s) as [E Hd].
  destruct (spanDigits s) as [d' r']. cbn [fst snd] in *.
  destruct (str_isEmpty d') eqn:Ee; [discriminate|].
  intros [= <- <-]. rewrite Ee, Hd. split; [exact E | reflexivity].
Qed.

Lemma spanDigits_app (d r : string) :
  allDigits d = true ->
  match r with String c _ => isDigit c = false | EmptyString => True end ->
  spanDigits (d +:+ r) = (d, r).
Proof.
  intros Hd Hr. induction d as [| c d' IH].
  - rewrite str_append_nil. destruct r as [| c r']; [reflexivity|].
    cbn [spanDigits]. rewrite Hr. reflexivity.
  - cbn [allDigits] in Hd. apply andb_true_iff in Hd as [Hc Hd].
    rewrite str_append_cons. cbn [spanDigits]. rewrite Hc, (IH Hd). reflexivity.
Qed.

Lemma digits1_app (d r : string) :
  isNumericId d = true ->
  match r with String c _ => isDigit c = false | EmptyString => True end ->
  digits1 (d +:+ r) = Some (d, r).
Proof.
  unfold isNumericId, digits1. intros H Hr.
  apply andb_true_iff in H as [Hne Hd]. apply negb_true_iff in Hne.
  rewrite (spanDigits_app d r Hd Hr), Hne. reflexivity.
Qed.

Lemma firstSome_Some {A B : Type} (f : A -> option B) (l : list A) (b : B) :
  firstSome f l = Some b -> exists a, In a l /\ f a = Some b.
Proof.
  induction l as [| a r IH]; [discriminate|].
  cbn [firstSome]. destruct (f a) as [b'|] eqn:E.
  - intros [= <-]. exists a. split; [left; reflexivity | exact E].
  - intros H. destruct (IH H) as (a' & Hin & Ha').
    exists a'. split; [right; exact Hin | exact Ha'].
Qed.

Lemma prefix_app (p s : string) :
  String.prefix p s = true -> s = p +:+ str_drop (String.length p) s.
Proof.
  revert s. induction p as [| c p' IH]; intros s H.
  - rewrite str_append_nil. destruct s; reflexivity.
  - destruct s as [| x r]; [discriminate H|].
    simpl in H. destruct (ascii_dec c x) as [-> | Hne]; [|discriminate H].
    rewrite str_append_cons. cbn [String.length str_drop].
    rewrite <- (IH r H). reflexivity.
Qed.

Lemma withPrefixes_Some {A : Type} (ps : list string)
    (body : string -> option A) (s : string) (a : A) :
  withPrefixes ps body s = Some a ->
  exists p t, In p ps /\ s = p +:+ t /\ body t = Some a.
Proof.
  unfold withPrefixes. intros H.
  apply firstSome_Some in H as (p & Hin & Hp).
  unfold stripPrefix in Hp. destruct (String.prefix p s) eqn:E; [|discriminate Hp].
  cbn in Hp. exists p, (str_drop (String.length p) s).
  split; [exact Hin|]. split; [apply prefix_app; exact E | exact Hp].
Qed.

Lemma matchEventBody_spec (s ev cat : string) :
  matchEventBody s = Some (ev, cat) ->
  s = ev +:+ String "C" (cat +:+ "A")
  /\ isNumericId ev = true /\ isNumericId cat = true.
Proof.
  unfold matchEventBody. intros H.
  destruct (digits1 s) as [[ev' r]|] eqn:E1; [|discriminate H]. cbn in H.
  destruct r as [| c r1]; [discriminate H|].
  destruct (Ascii.eqb c "C") eqn:Ec;
    [apply Ascii.eqb_eq in Ec; subst c
    |destruct c as [[] [] [] [] [] [] [] []]; try discriminate H; discriminate Ec].
  destruct (digits1 r1) as [[cat' r2]|] eqn:E2; [|discriminate H]. cbn in H.
  destruct (String.eqb r2 "A") eqn:Ea; [|discriminate H].
  apply String.eqb_eq in Ea. subst r2. injection H as <- <-.
  destruct (digits1_spec _ _ _ E1) as [-> Hev].
  destruct (digits1_spec _ _ _ E2) as [-> Hcat].
  repeat split; assumption.
Qed.

Lemma matchMarketBody_spec (s ev cat num : string) :
  matchMarketBody s = Some (ev, cat, num) ->
  s = ev +:+ String "C" (cat +:+ String "-" num)
  /\ isNumericId ev = true /\ isNumericId cat = true /\ isNumericId num = true.
Proof.
  unfold matchMarketBody. intros H.
  destruct (digits1 s) as [[ev' r]|] eqn:E1; [|discriminate H]. cbn in H.
  destruct r as [| c r1]; [discriminate H|].
  destruct (Ascii.eqb c "C") eqn:Ec;
    [apply Ascii.eqb_eq in Ec; subst c
    |destruct c as [[] [] [] [] [] [] [] []]; try discriminate H; discriminate Ec].
  destruct (digits1 r1) as [[cat' r2]|] eqn:E2; [|discriminate H]. cbn in H.
  destruct r2 as [| c2 num']; [discriminate H|].
  destruct (Ascii.eqb c2 "-") eqn:Ec2;
    [apply Ascii.eqb_eq in Ec2; subst c2
    |destruct c2 as [[] [] [] [] [] [] [] []]; try discriminate H; discriminate Ec2].
  destruct (negb (str_isEmpty num') && allDigits num') eqn:En; [|discriminate H].
  injection H as <- <- <-.
  destruct (digits1_spec _ _ _ E1) as [-> Hev].
  destruct (digits1_spec _ _ _ E2) as [-> Hcat].
  repeat split; assumption.
Qed.

Lemma matchSelectionNumber_spec (t sel : string) :
  matchSelectionNumber t = Some sel -> isNumericId sel = true.
Proof.
  unfold matchSelectionNumber, isNumericId.
  destruct t as [| c t']; [discriminate|].
  destruct (Ascii.eqb c "0") eqn:Ec.
  - apply Ascii.eqb_eq in Ec. subst c.
    destruct (negb (str_isEmpty t') && allDigits t') eqn:E1.
    + intros [= <-]. exact E1.
    + destruct (allDigits (String "0" t')) eqn:E2; [|discriminate].
      intros [= <-]. exact E2.
  - destruct c as [[] [] [] [] [] [] [] []]; try discriminate Ec;
      (destruct (negb (str_isEmpty (String _ t')) && allDigits (String _ t')) eqn:E1;
       [intros [= <-]; exact E1 | discriminate]).
Qed.

Lemma matchSelectionBody_spec (s fx sel : string) :
  matchSelectionBody s = Some (fx, sel) ->
  isNumericId fx = true /\ isNumericId sel = true.
Proof.
  unfold matchSelectionBody. intros H.
  destruct (digits1 s) as [[fx' r]|] eqn:E1; [|discriminate H]. cbn in H.
  destruct (digits1_spec _ _ _ E1) as [_ Hfx].
  destruct r as [| c t]; [discriminate H|].
  destruct (Ascii.eqb c "-") eqn:Ec;
    [apply Ascii.eqb_eq in Ec; subst c
    |destruct c as [[] [] [] [] [] [] [] []]; try discriminate H; discriminate Ec].
  destruct (matchSelectionNumber t) as [sel'|] eqn:E2; [|discriminate H].
  cbn in H. injection H as <- <-.
  split; [exact Hfx | exact (matchSelectionNumber_spec _ _ E2)].
Qed.

(** X11. The components [parseItemId] returns are those of the type it
    reports and nothing else: an event has a numeric event id and
    category, a market those and a numeric market number, a selection a
    numeric fixture id and selection id, and every other component is the
    empty string; an id of unknown type has no component at all. *)
Theorem parseItemId_components (id : string) :
  match pid_type (parseItemId id) with
  | ItEvent =>
      parseItemId id
      = eventItem (pid_eventId (parseItemId id)) (pid_categoryId (parseItemId id))
      /\ isNumericId (pid_eventId (parseItemId id)) = true
      /\ isNumericId (pid_categoryId (parseItemId id)) = true
  | ItMarket =>
      parseItemId id
      = marketItem (pid_eventId (parseItemId id)) (pid_categoryId (parseItemId id))
          (pid_marketNum (parseItemId id))
      /\ isNumericId (pid_eventId (parseItemId id)) = true
      /\ isNumericId (pid_categoryId (parseItemId id)) = true
      /\ isNumericId (pid_marketNum (parseItemId id)) = true
  | ItSelection =>
      parseItemId id
      = selectionItem (pid_fixtureId (parseItemId id))
          (pid_selectionId (parseItemId id))
      /\ isNumericId (pid_fixtureId (parseItemId id)) = true
      /\ isNumericId (pid_selectionId (parseItemId id)) = true
  | ItUnknown => parseItemId id = unknownItem
  end.
Proof.
  unfold parseItemId.
  destruct (withPrefixes ["OV"; "6V"] matchEventBody (stripTopicSuffix id))
    as [[ev cat]|] eqn:E1.
  { apply withPrefixes_Some in E1 as (p & t & _ & _ & Hb).
    destruct (matchEventBody_spec _ _ _ Hb) as (_ & Hev & Hcat).
    cbn. repeat split; assumption. }
  destruct (withPrefixes ["OV"; "6V"] matchMarketBody (stripTopicSuffix id))
    as [[[ev cat] num]|] eqn:E2.
  { apply withPrefixes_Some in E2 as (p & t & _ & _ & Hb).
    destruct (matchMarketBody_spec _ _ _ _ Hb) as (_ & Hev & Hcat & Hnum).
    cbn. repeat split; assumption. }
  destruct (withPrefixes ["OV"; "6VP"; "6V"; "OVES"] matchSelectionBody
              (stripTopicSuffix id)) as [[fx sel]|] eqn:E3.
  { apply withPrefixes_Some in E3 as (p & t & _ & _ & Hb).
    destruct (matchSelectionBody_spec _ _ _ Hb) as (Hfx & Hsel).
    cbn. repeat split; assumption. }
  reflexivity.
Qed.

Lemma numeric_not_inherited (s : string) :
  allDigits s = true -> isInherited (SPORT_REGISTRY s) = false.
Proof.
  intros H. unfold SPORT_REGISTRY.
  destruct (assocFind s registryOwn); [reflexivity|].
  destruct (existsb (String.eqb s) objectPrototypeKeys) eqn:E; [|reflexivity].
  apply existsb_exists in E as (k & Hin & Hk).
  apply String.eqb_eq in Hk. subst k.
  cbn in Hin.
  repeat (destruct Hin as [<- | Hin]; [discriminate H|]). contradiction.
Qed.

Lemma parseItemId_category_digits (id : string) :
  allDigits (pid_categoryId (parseItemId id)) = true.
Proof.
  unfold parseItemId.
  destruct (withPrefixes ["OV"; "6V"] matchEventBody (stripTopicSuffix id))
    as [[ev cat]|] eqn:E1.
  { apply withPrefixes_Some in E1 as (p & t & _ & _ & Hb).
    destruct (matchEventBody_spec _ _ _ Hb) as (_ & _ & Hcat).
    apply andb_true_iff in Hcat as [_ Hcat]. exact Hcat. }
  destruct (withPrefixes ["OV"; "6V"] matchMarketBody (stripTopicSuffix id))
    as [[[ev cat] num]|] eqn:E2.
  { apply withPrefixes_Some in E2 as (p & t & _ & _ & Hb).
    destruct (matchMarketBody_spec _ _ _ _ Hb) as (_ & _ & Hcat & _).
    apply andb_true_iff in Hcat as [_ Hcat]. exact Hcat. }
  destruct (withPrefixes ["OV"; "6VP"; "6V"; "OVES"] matchSelectionBody
              (stripTopicSuffix id)) as [[fx sel]|]; reflexivity.
Qed.

(** X12. The registry lookup of [processUpdate] never reaches a property
    that the registry object only inherits: the category of a parsed item
    id is empty or numeric, and no inherited key is. A delta therefore
    reads [undefined] or a [SportConfig], whatever its header. *)
Theorem delta_category_is_never_inherited (seg : ParsedSegment) :
  isInherited (SPORT_REGISTRY (headerCategory seg)) = false.
Proof.
  unfold headerCategory.
  apply numeric_not_inherited, parseItemId_category_digits.
Qed.

(** ** Item identifiers: what the patterns read back *)

Lemma isNumericId_head (d : string) :
  isNumericId d = true ->
  exists c r, d = String c r /\ isDigit c = true /\ allDigits r = true.
Proof.
  unfold isNumericId. destruct d as [| c r]; [discriminate|].
  cbn. intros H. apply andb_true_iff in H as [Hc Hr]. eauto.
Qed.

Lemma stripPrefix_nil (s : string) : stripPrefix "" s = Some s.
Proof. unfold stripPrefix. destruct s; reflexivity. Qed.

Lemma stripPrefix_cons (c x : ascii) (p s : string) :
  stripPrefix (String c p) (String x s)
  = if Ascii.eqb c x then stripPrefix p s else None.
Proof.
  unfold stripPrefix. cbn [String.prefix String.length str_drop].
  destruct (ascii_dec c x) as [-> | Hne].
  - rewrite Ascii.eqb_refl. reflexivity.
  - apply Ascii.eqb_neq in Hne. rewrite Hne. reflexivity.
Qed.

Lemma stripPrefix_cons_empty (c : ascii) (p : string) :
  stripPrefix (String c p) "" = None.
Proof. reflexivity. Qed.

Lemma eqb_digit (x c : ascii) :
  isDigit c = true -> isDigit x = false -> Ascii.eqb x c = false.
Proof.
  intros Hc Hx. apply Ascii.eqb_neq. intros ->. congruence.
Qed.

Lemma stripPrefix_letter_digits (x : ascii) (p d r : string) :
  isDigit x = false -> isNumericId d = true ->
  stripPrefix (String x p) (d +:+ r) = None.
Proof.
  intros Hx Hd. destruct (isNumericId_head d Hd) as (c & d' & -> & Hc & _).
  rewrite str_append_cons, stripPrefix_cons, (eqb_digit x c Hc Hx). reflexivity.
Qed.

(** After a digit, [V] does not follow inside a digit string closed by a
    letter other than [V]. *)
Lemma stripPrefix_6V_digits (p d r : string) (z : ascii) :
  isNumericId d = true -> Ascii.eqb "V" z = false ->
  stripPrefix (String "6" (String "V" p)) (d +:+ String z r) = None.
Proof.
  intros Hd Hz. destruct (isNumericId_head d Hd) as (c & d' & -> & Hc & Hd').
  rewrite str_append_cons, stripPrefix_cons.
  destruct (Ascii.eqb "6" c); [|reflexivity].
  destruct d' as [| c2 d2].
  - rewrite str_append_nil, stripPrefix_cons, Hz. reflexivity.
  - cbn [allDigits] in Hd'. apply andb_true_iff in Hd' as [Hc2 _].
    rewrite str_append_cons, stripPrefix_cons, (eqb_digit "V" c2 Hc2 eq_refl).
    reflexivity.
Qed.

Lemma extractEventId_reads (p ev rest : string) :
  p = "" \/ p = "OV" \/ p = "6V" -> isNumericId ev = true ->
  extractEventId (p +:+ ev +:+ String "C" rest) = ev.
Proof.
  intros Hp Hev. unfold extractEventId, withPrefixes.
  pose proof (digits1_app ev (String "C" rest) Hev eq_refl) as Hd.
  destruct Hp as [-> | [-> | ->]];
    rewrite ?str_append_cons, ?str_append_nil; cbn [firstSome].
  - rewrite (stripPrefix_letter_digits "O" "V" ev _ eq_refl Hev).
    rewrite (stripPrefix_6V_digits "" ev rest "C" Hev eq_refl).
    rewrite stripPrefix_nil. cbn [mbind option_bind]. rewrite Hd. reflexivity.
  - rewrite !stripPrefix_cons. cbn [Ascii.eqb Bool.eqb].
    rewrite stripPrefix_nil. cbn [mbind option_bind]. rewrite Hd. reflexivity.
  - rewrite !stripPrefix_cons. cbn [Ascii.eqb Bool.eqb].
    rewrite stripPrefix_nil. cbn [mbind option_bind]. rewrite Hd. reflexivity.
Qed.

(** X13. [extractEventId] reads the event id of an item id: the digits
    before the first [C], after an optional [OV] or [6V], whatever follows
    the [C]. *)
Theorem extractEventId_reads_event_id (p ev rest : string)
    (Hp : In p [""; "OV"; "6V"]) (Hev : isNumericId ev = true) :
  extractEventId (p +:+ ev +:+ "C" +:+ rest) = ev.
Proof.
  change (p +:+ ev +:+ "C" +:+ rest) with (p +:+ ev +:+ String "C" rest).
  apply extractEventId_reads; [|exact Hev].
  cbn in Hp. destruct Hp as [<- | [<- | [<- | []]]]; auto.
Qed.

(** The theorem at the ID field of the EV record of S1. *)
Lemma extractEventId_reads_event_id_witness :
  extractEventId ("" +:+ "190321250" +:+ "C" +:+ "13A_32_0") = "190321250".
Proof.
  apply extractEventId_reads_event_id; [left; reflexivity | reflexivity].
Defined.

Lemma endsWith_exists (suf s : string) :
  str_endsWith suf s = true -> exists p, s = p +:+ suf.
Proof.
  induction s as [| c r IH]; cbn [str_endsWith]; intros H.
  - apply orb_true_iff in H as [H | H]; [|discriminate H].
    apply String.eqb_eq in H. subst suf. exists "". reflexivity.
  - apply orb_true_iff in H as [H | H].
    + apply String.eqb_eq in H. subst suf. exists "". reflexivity.
    + destruct (IH H) as [p ->]. exists (String c p). reflexivity.
Qed.

Lemma endsWith_app (p suf : string) : str_endsWith suf (p +:+ suf) = true.
Proof.
  induction p as [| c r IH].
  - rewrite str_append_nil. destruct suf; cbn [str_endsWith];
      rewrite String.eqb_refl; reflexivity.
  - rewrite str_append_cons. cbn [str_endsWith]. rewrite IH.
    apply orb_true_r.
Qed.

Lemma str_dropEnd_app (p suf : string) :
  str_dropEnd (String.length suf) (p +:+ suf) = p.
Proof.
  unfold str_dropEnd. rewrite str_length_app.
  replace (String.length p + String.length suf - String.length suf)%nat
    with (String.length p) by lia.
  apply str_take_app.
Qed.

Lemma stripSuffix_Some (suf s t : string) :
  stripSuffix suf s = Some t -> s = t +:+ suf.
Proof.
  unfold stripSuffix. destruct (str_endsWith suf s) eqn:E; [|discriminate].
  intros [= <-]. destruct (endsWith_exists suf s E) as [p ->].
  rewrite str_dropEnd_app. reflexivity.
Qed.

Lemma stripTopicSuffix_spec (id : string) :
  exists suf, id = stripTopicSuffix id +:+ suf.
Proof.
  unfold stripTopicSuffix.
  destruct (firstSome _ _) as [t|] eqn:E.
  - apply firstSome_Some in E as (suf & _ & Hs).
    exists suf. exact (stripSuffix_Some _ _ _ Hs).
  - exists "". rewrite str_append_empty. reflexivity.
Qed.

(** X14. A full dump and the deltas that follow it agree on the key of a
    match: whenever [parseItemId] finds an event id in an item id, as it
    does for events and for markets, [extractEventId] finds the same one
    in that id. *)
Theorem parseItemId_agrees_with_extractEventId (id : string) :
  pid_eventId (parseItemId id) = ""
  \/ pid_eventId (parseItemId id) = extractEventId id.
Proof.
  destruct (stripTopicSuffix_spec id) as [suf Hid].
  unfold parseItemId.
  destruct (withPrefixes ["OV"; "6V"] matchEventBody (stripTopicSuffix id))
    as [[ev cat]|] eqn:E1.
  { right. cbn [pid_eventId].
    apply withPrefixes_Some in E1 as (p & t & Hp & Hs & Hb).
    destruct (matchEventBody_spec _ _ _ Hb) as (-> & Hev & _).
    rewrite Hid, Hs, !str_append_assoc, str_append_cons.
    symmetry. apply extractEventId_reads; [|exact Hev].
    cbn in Hp. destruct Hp as [<- | [<- | []]]; auto. }
  destruct (withPrefixes ["OV"; "6V"] matchMarketBody (stripTopicSuffix id))
    as [[[ev cat] num]|] eqn:E2.
  { right. cbn [pid_eventId].
    apply withPrefixes_Some in E2 as (p & t & Hp & Hs & Hb).
    destruct (matchMarketBody_spec _ _ _ _ Hb) as (-> & Hev & _).
    rewrite Hid, Hs, !str_append_assoc, str_append_cons.
    symmetry. apply extractEventId_reads; [|exact Hev].
    cbn in Hp. destruct Hp as [<- | [<- | []]]; auto. }
  left.
  destruct (withPrefixes ["OV"; "6VP"; "6V"; "OVES"] matchSelectionBody
              (stripTopicSuffix id)) as [[fx sel]|]; reflexivity.
Qed.

(** ** Item identifiers: topic suffixes *)

Lemma str_rev_app (a b : string) : str_rev (a +:+ b) = str_rev b +:+ str_rev a.
Proof.
  induction a as [| c r IH].
  - rewrite str_append_nil. cbn [str_rev]. rewrite str_append_empty. reflexivity.
  - rewrite str_append_cons. cbn [str_rev]. rewrite IH, str_append_assoc.
    reflexivity.
Qed.

Lemma stripSuffix_app (x suf : string) : stripSuffix suf (x +:+ suf) = Some x.
Proof.
  unfold stripSuffix. rewrite endsWith_app, str_dropEnd_app. reflexivity.
Qed.

Lemma stripSuffix_mismatch (suf' s : string) :
  (forall p, s <> p +:+ suf') -> stripSuffix suf' s = None.
Proof.
  intros H. unfold stripSuffix.
  destruct (str_endsWith suf' s) eqn:E; [|reflexivity].
  destruct (endsWith_exists _ _ E) as [p Hp]. destruct (H p Hp).
Qed.

(** Two strings with closed, conflicting endings differ. *)
Ltac endings_differ :=
  let p := fresh "p" in
  let E := fresh "E" in
  intros p E; apply (f_equal str_rev) in E; rewrite !str_rev_app in E;
  repeat match type of E with
         | context [str_rev (String ?c ?r)] =>
             let v := eval vm_compute in (str_rev (String c r)) in
             change (str_rev (String c r)) with v in E
         end;
  rewrite ?str_append_cons, ?str_append_nil in E; discriminate E.

Ltac skip_suffix :=
  match goal with
  | |- context [stripSuffix ?suf' ?s] =>
      rewrite (stripSuffix_mismatch suf' s) by endings_differ
  end.

Lemma stripTopicSuffix_app (x suf : string) :
  In suf topicSuffixes -> stripTopicSuffix (x +:+ suf) = x.
Proof.
  unfold topicSuffixes, stripTopicSuffix. cbn [In firstSome].
  intros H.
  repeat (destruct H as [<- | H];
          [repeat skip_suffix; rewrite stripSuffix_app; reflexivity|]).
  contradiction.
Qed.

Lemma stripTopicSuffix_letter (x : string) :
  stripTopicSuffix (x +:+ "A") = x +:+ "A".
Proof.
  unfold stripTopicSuffix. cbn [firstSome].
  repeat skip_suffix. reflexivity.
Qed.

Lemma digits1_nondigit (c : ascii) (r : string) :
  isDigit c = false -> digits1 (String c r) = None.
Proof. intros H. unfold digits1. cbn [spanDigits]. rewrite H. reflexivity. Qed.

Lemma matchEventBody_complete (ev cat : string) :
  isNumericId ev = true -> isNumericId cat = true ->
  matchEventBody (ev +:+ String "C" (cat +:+ "A")) = Some (ev, cat).
Proof.
  intros Hev Hcat. unfold matchEventBody.
  rewrite (digits1_app ev (String "C" (cat +:+ "A")) Hev eq_refl).
  cbn [mbind option_bind].
  rewrite (digits1_app cat "A" Hcat eq_refl). reflexivity.
Qed.

(** X15. [parseItemId] reads back an event id as the protocol writes it:
    [OV] or [6V], the numeric event id, [C], the numeric category, [A],
    and then nothing or one of the eight topic suffixes. *)
Theorem parseItemId_reads_event (p ev cat suf : string)
    (Hp : In p ["OV"; "6V"])
    (Hev : isNumericId ev = true) (Hcat : isNumericId cat = true)
    (Hsuf : In suf ("" :: topicSuffixes)) :
  parseItemId (p +:+ ev +:+ "C" +:+ cat +:+ "A" +:+ suf) = eventItem ev cat.
Proof.
  assert (Hclean : stripTopicSuffix (p +:+ ev +:+ "C" +:+ cat +:+ "A" +:+ suf)
                   = p +:+ ev +:+ String "C" (cat +:+ "A")).
  { destruct Hsuf as [<- | Hsuf].
    - change (p +:+ ev +:+ "C" +:+ cat +:+ "A" +:+ "")
        with (p +:+ ev +:+ String "C" (cat +:+ ("A" +:+ ""))).
      change ("A" +:+ "") with "A".
      rewrite <- !str_append_assoc.
      change (String "C" (cat +:+ "A")) with (("C" +:+ cat) +:+ "A").
      rewrite <- !str_append_assoc. apply stripTopicSuffix_letter.
    - change (p +:+ ev +:+ "C" +:+ cat +:+ "A" +:+ suf)
        with (p +:+ ev +:+ (String "C" (cat +:+ "A" +:+ suf))).
      replace (p +:+ ev +:+ String "C" (cat +:+ "A" +:+ suf))
        with ((p +:+ ev +:+ String "C" (cat +:+ "A")) +:+ suf).
      + apply stripTopicSuffix_app. exact Hsuf.
      + rewrite !str_append_assoc, str_append_cons, str_append_assoc.
        reflexivity. }
  unfold parseItemId. rewrite Hclean. unfold withPrefixes.
  pose proof (matchEventBody_complete ev cat Hev Hcat) as Hb.
  cbn in Hp. destruct Hp as [<- | [<- | []]];
    rewrite !str_append_cons, str_append_nil; cbn [firstSome];
    rewrite !stripPrefix_cons; cbn [Ascii.eqb Bool.eqb];
    rewrite ?stripPrefix_nil; cbn [mbind option_bind]; rewrite Hb; reflexivity.
Qed.

(** The theorem at the header of the S2 delta, without its action. *)
Lemma parseItemId_reads_event_witness :
  parseItemId ("OV" +:+ "190321250" +:+ "C" +:+ "13" +:+ "A" +:+ "_32_0")
  = eventItem "190321250" "13".
Proof.
  apply parseItemId_reads_event;
    [left; reflexivity | reflexivity | reflexivity
    | right; right; right; right; left; reflexivity].
Defined.

Lemma matchEventBody_selection (fx t : string) :
  isNumericId fx = true -> matchEventBody (fx +:+ String "-" t) = None.
Proof.
  intros Hfx. unfold matchEventBody.
  rewrite (digits1_app fx (String "-" t) Hfx eq_refl). reflexivity.
Qed.

Lemma matchMarketBody_selection (fx t : string) :
  isNumericId fx = true -> matchMarketBody (fx +:+ String "-" t) = None.
Proof.
  intros Hfx. unfold matchMarketBody.
  rewrite (digits1_app fx (String "-" t) Hfx eq_refl). reflexivity.
Qed.

Lemma matchSelectionNumber_padded (sel : string) :
  isNumericId sel = true -> matchSelectionNumber (String "0" sel) = Some sel.
Proof.
  unfold isNumericId, matchSelectionNumber. intros ->. reflexivity.
Qed.

Lemma matchSelectionNumber_plain (sel : string) :
  isNumericId sel = true -> str_startsWith "0" sel = false ->
  matchSelectionNumber sel = Some sel.
Proof.
  unfold isNumericId, matchSelectionNumber, str_startsWith.
  intros Hn Hz. destruct sel as [| c r]; [discriminate Hn|].
  rewrite prefix_single in Hz.
  destruct c as [[] [] [] [] [] [] [] []];
    try (rewrite Hn; reflexivity); discriminate Hz.
Qed.

Lemma matchSelectionBody_complete (fx t sel : string) :
  isNumericId fx = true -> matchSelectionNumber t = Some sel ->
  matchSelectionBody (fx +:+ String "-" t) = Some (fx, sel).
Proof.
  intros Hfx Ht. unfold matchSelectionBody.
  rewrite (digits1_app fx (String "-" t) Hfx eq_refl). cbn [mbind option_bind].
  rewrite Ht. reflexivity.
Qed.

(** The selection pattern on a cleaned id: a prefix, the fixture id, a
    hyphen and the selection number as written. *)
Lemma parseItemId_selection_pattern (p fx t sel suf : string) :
  In p ["OV"; "6VP"; "6V"; "OVES"] -> isNumericId fx = true ->
  matchSelectionNumber t = Some sel -> In suf topicSuffixes ->
  parseItemId ((p +:+ fx +:+ String "-" t) +:+ suf) = selectionItem fx sel.
Proof.
  intros Hp Hfx Ht Hsuf.
  unfold parseItemId. rewrite (stripTopicSuffix_app _ suf Hsuf).
  unfold withPrefixes.
  pose proof (matchEventBody_selection fx t Hfx) as He.
  pose proof (matchMarketBody_selection fx t Hfx) as Hm.
  pose proof (matchSelectionBody_complete fx t sel Hfx Ht) as Hs.
  pose proof (stripPrefix_letter_digits "P" "" fx (String "-" t) eq_refl Hfx) as HP.
  cbn in Hp. destruct Hp as [<- | [<- | [<- | [<- | []]]]];
    rewrite !str_append_cons, str_append_nil; cbn [firstSome];
    rewrite ?stripPrefix_cons; cbn [Ascii.eqb Bool.eqb];
    rewrite ?stripPrefix_nil, ?HP; cbn [mbind option_bind];
    rewrite ?He, ?Hm, ?Hs, ?digits1_nondigit by reflexivity;
    reflexivity.
Qed.

(** X16. [parseItemId] reads back a selection id as the protocol writes
    it: one of the four prefixes, the numeric fixture id, a hyphen, the
    numeric selection id and a topic suffix. One zero written before the
    selection id is dropped; without it, the selection id is read whole
    when it does not itself begin with a zero. *)
Theorem parseItemId_reads_selection (p fx sel suf : string)
    (Hp : In p ["OV"; "6VP"; "6V"; "OVES"])
    (Hfx : isNumericId fx = true) (Hsel : isNumericId sel = true)
    (Hsuf : In suf topicSuffixes) :
  parseItemId (p +:+ fx +:+ "-0" +:+ sel +:+ suf) = selectionItem fx sel
  /\ (str_startsWith "0" sel = false ->
      parseItemId (p +:+ fx +:+ "-" +:+ sel +:+ suf) = selectionItem fx sel).
Proof.
  split.
  - replace (p +:+ fx +:+ "-0" +:+ sel +:+ suf)
      with ((p +:+ fx +:+ String "-" (String "0" sel)) +:+ suf).
    + apply parseItemId_selection_pattern; auto using matchSelectionNumber_padded.
    + rewrite !str_append_assoc, !str_append_cons. reflexivity.
  - intros Hz.
    replace (p +:+ fx +:+ "-" +:+ sel +:+ suf)
      with ((p +:+ fx +:+ String "-" sel) +:+ suf).
    + apply parseItemId_selection_pattern; auto using matchSelectionNumber_plain.
    + rewrite !str_append_assoc, !str_append_cons. reflexivity.
Qed.

(** The theorem at the selection of the S3 delta. *)
Lemma parseItemId_reads_selection_witness :
  parseItemId ("OV" +:+ "190340113" +:+ "-0" +:+ "701873422" +:+ "_32_0U")
  = selectionItem "190340113" "701873422"
  /\ (str_startsWith "0" "701873422" = false ->
      parseItemId ("OV" +:+ "190340113" +:+ "-" +:+ "701873422" +:+ "_32_0U")
      = selectionItem "190340113" "701873422").
Proof.
  apply parseItemId_reads_selection;
    [left; reflexivity | reflexivity | reflexivity | left; reflexivity].
Defined.

(** ** What a delta does to the tables *)

Lemma jm_keys_set_present {V : Type} (k : string) (v v' : V) (ms : jsmap V) :
  jm_get k ms = Some v -> jm_keys (jm_set k v' ms) = jm_keys ms.
Proof.
  intros H. destruct (jm_keys_set k v' ms) as [[_ E] | [Hnot _]]; [exact E|].
  exfalso. apply Hnot. apply jm_get_is_Some_In. eauto.
Qed.

Lemma jm_keys_delete {V : Type} (k k' : string) (ms : jsmap V) :
  In k' (jm_keys (jm_delete k ms)) -> In k' (jm_keys ms).
Proof.
  unfold jm_keys, jm_delete. intros H.
  apply in_map_iff in H as [[k0 v0] [E Hin]].
  apply filter_In in Hin as [Hin _].
  apply in_map_iff. exists (k0, v0). split; assumption.
Qed.

(** X17. A delta never adds to the tables: [processUpdate] leaves
    [fixtureToEvent], [selectionInfo], [itemToEvent] and [lastEventId] as
    they are, every key of [matches] afterwards was a key before, and
    unless the action is a delete the keys and their order are unchanged. *)
Theorem delta_never_adds (seg : ParsedSegment) (st : State) :
  fixtureToEvent (fst (processUpdate seg st)) = fixtureToEvent st
  /\ selectionInfo (fst (processUpdate seg st)) = selectionInfo st
  /\ itemToEvent (fst (processUpdate seg st)) = itemToEvent st
  /\ lastEventId (fst (processUpdate seg st)) = lastEventId st
  /\ (forall k, In k (jm_keys (matches (fst (processUpdate seg st)))) ->
        In k (jm_keys (matches st)))
  /\ (action seg <> ActD ->
      jm_keys (matches (fst (processUpdate seg st))) = jm_keys (matches st)).
Proof.
  unfold processUpdate.
  destruct (str_isEmpty (header seg)); [cbn; tauto|].
  set (pid := parseItemId (stripActionSuffix (header seg))).
  destruct (pid_type pid); try (cbn; tauto).
  - destruct (truthyEntry _); cbn [negb]; [|cbn; tauto].
    destruct (jm_get (pid_eventId pid) (matches st)) as [m|] eqn:Em;
      [|cbn; tauto].
    destruct (applyEventFields _ (fields seg) m) as [m' chs].
    destruct (action seg).
    + destruct chs; cbn [fst withMatches matches fixtureToEvent selectionInfo
                           itemToEvent lastEventId];
        rewrite (jm_keys_set_present _ m m' _ Em); tauto.
    + destruct chs; cbn [fst withMatches matches fixtureToEvent selectionInfo
                           itemToEvent lastEventId];
        rewrite (jm_keys_set_present _ m m' _ Em); tauto.
    + cbn [fst withMatches matches fixtureToEvent selectionInfo
             itemToEvent lastEventId].
      repeat split; try congruence. intros k. apply jm_keys_delete.
  - destruct (fixtureToEvent st !! pid_fixtureId pid) as [evId|]; [|cbn; tauto].
    destruct (str_isEmpty evId); [cbn; tauto|].
    destruct (jm_get evId (matches st)) as [m|] eqn:Em; [|cbn; tauto].
    destruct (updateMarkets _ m _ (markets m)) as [ms' chs].
    destruct chs; cbn [fst withMatches matches fixtureToEvent selectionInfo
                         itemToEvent lastEventId];
      rewrite (jm_keys_set_present _ m (withMarkets ms' m) _ Em); tauto.
Qed.

(** ** What an update says *)

Lemma processUpdate_describes (seg : ParsedSegment) (st : State) (u : MatchUpdate) :
  wellKeyed st -> snd (processUpdate seg st) = Some u ->
  updateDescribes (fst (processUpdate seg st)) u.
Proof.
  intros [_ Hkey]. unfold processUpdate, updateDescribes.
  destruct (str_isEmpty (header seg)); [discriminate|].
  set (pid := parseItemId (stripActionSuffix (header seg))).
  destruct (pid_type pid); try discriminate.
  - destruct (truthyEntry _); cbn [negb]; [|discriminate].
    destruct (jm_get (pid_eventId pid) (matches st)) as [m|] eqn:Em;
      [|discriminate].
    destruct (Hkey _ _ Em) as [Hid _].
    pose proof (applyEventFields_identity (SPORT_REGISTRY (pid_categoryId pid))
                  (fields seg) m) as (He & _).
    destruct (applyEventFields _ (fields seg) m) as [m' chs]. cbn [fst] in He.
    destruct (action seg).
    + destruct chs as [| c chs]; [discriminate|]. intros [= <-].
      cbn [fst snd changes upd_match upd_eventId upd_type matches withMatches].
      rewrite jm_get_set_eq. repeat split; congruence.
    + destruct chs as [| c chs]; [discriminate|]. intros [= <-].
      cbn [fst snd changes upd_match upd_eventId upd_type matches withMatches].
      rewrite jm_get_set_eq. repeat split; congruence.
    + intros [= <-].
      cbn [fst snd changes upd_match upd_eventId upd_type matches withMatches].
      rewrite jm_get_delete_eq. repeat split; congruence.
  - destruct (fixtureToEvent st !! pid_fixtureId pid) as [evId|]; [|discriminate].
    destruct (str_isEmpty evId); [discriminate|].
    destruct (jm_get evId (matches st)) as [m|] eqn:Em; [|discriminate].
    destruct (Hkey _ _ Em) as [Hid _].
    destruct (updateMarkets _ m _ (markets m)) as [ms' chs].
    destruct chs as [| c chs]; [discriminate|]. intros [= <-].
    cbn [fst snd changes upd_match upd_eventId upd_type matches withMatches].
    rewrite jm_get_set_eq. repeat split; try congruence. exact Hid.
Qed.

(** X18. In a state that calls of [processMessage] reach, the update a
    delta returns describes the state it leaves: it carries at least one
    change, its event id is the event id of its match, and the match is
    the one stored under that id; after a delete the only change is
    [deleted] and no match is stored under the id. *)
Theorem update_describes_state (seg : ParsedSegment) (st : State)
    (u : MatchUpdate) (Hreach : reachable st)
    (Hu : snd (processUpdate seg st) = Some u) :
  updateDescribes (fst (processUpdate seg st)) u.
Proof.
  apply processUpdate_describes; [|exact Hu].
  exact (proj1 (indexInvariant_reachable st Hreach)).
Qed.

(** The theorem at the S2 delta, applied to the state S1 leaves. *)
Lemma update_describes_state_witness :
  exists u,
    snd (processUpdate S2_segment (fst (processMessage S1_payload initialState)))
    = Some u
    /\ updateDescribes
         (fst (processUpdate S2_segment
                 (fst (processMessage S1_payload initialState)))) u.
Proof.
  eexists. split; [vm_compute; reflexivity|].
  apply update_describes_state.
  - apply reach_step, reach_init.
  - vm_compute. reflexivity.
Defined.

Lemma runSubMessages_updates (subs : list (list string)) (st : State) :
  indexInvariant st ->
  match snd (runSubMessages subs st) with
  | Normal us =>
      (List.length us <= List.length subs)%nat
      /\ List.Forall
           (fun u => changes u <> [] /\ eventId (upd_match u) = upd_eventId u) us
  | Throw => True
  end.
Proof.
  revert st. induction subs as [| parts rest IH]; intros st Hinv.
  - cbn. split; [lia | constructor].
  - rewrite runSubMessages_cons.
    pose proof (indexInvariant_processSubMessage parts st Hinv) as Hinv1.
    assert (Hu : forall u, snd (processSubMessage parts st) = Normal (Some u) ->
                 changes u <> [] /\ eventId (upd_match u) = upd_eventId u).
    { intros u. unfold processSubMessage.
      destruct parts as [| h recs]; [discriminate|].
      destruct (isSkippedHeader h); [discriminate|].
      destruct (str_endsWith "F" h).
      - destruct (processFullDump _ _ st) as [st' [[] |]]; discriminate.
      - destruct (_ || _); [|discriminate].
        pose proof (processUpdate_describes (deltaSegment h recs) st u
                      (proj1 Hinv)) as Hd.
        destruct (processUpdate (deltaSegment h recs) st) as [st' o].
        cbn [fst snd] in *. intros [= ->].
        destruct (Hd eq_refl) as (H1 & H2 & _). split; assumption. }
    destruct (processSubMessage parts st) as [st1 [o |]]; cbn [fst snd] in *;
      [|exact I].
    specialize (IH st1 Hinv1).
    destruct (runSubMessages rest st1) as [st2 [us |]]; cbn [fst snd] in *;
      [|exact I].
    destruct IH as [Hlen Hall]. split.
    + rewrite length_app. destruct o; cbn [optionToList List.length]; lia.
    + apply List.Forall_app. split; [|exact Hall].
      destruct o as [u|]; cbn [optionToList]; [|constructor].
      constructor; [apply Hu; reflexivity | constructor].
Qed.

(** X19. When [processMessage] returns in a reachable state, it returns at
    most one update for each sub-message of the payload, every update
    carries at least one change, and its event id is the event id of its
    match. *)
Theorem processMessage_updates (raw : string) (st : State)
    (Hreach : reachable st) :
  match snd (processMessage raw st) with
  | Normal us =>
      (List.length us <= List.length (splitFrame raw))%nat
      /\ List.Forall
           (fun u => changes u <> [] /\ eventId (upd_match u) = upd_eventId u) us
  | Throw => True
  end.
Proof.
  apply runSubMessages_updates. exact (indexInvariant_reachable st Hreach).
Qed.

(** The theorem at the S2 payload, received after S1. *)
Lemma processMessage_updates_witness :
  match snd (processMessage S2_payload
               (fst (processMessage S1_payload initialState))) with
  | Normal us =>
      (List.length us <= List.length (splitFrame S2_payload))%nat
      /\ List.Forall
           (fun u => changes u <> [] /\ eventId (upd_match u) = upd_eventId u) us
  | Throw => True
  end.
Proof.
  apply processMessage_updates. apply reach_step, reach_init.
Defined.

(** ** Fields that change nothing a listener hears of *)

Lemma updateSelections_no_odds f m w selId sels :
  f !! "OD" = None -> snd (updateSelections f m w selId sels) = [].
Proof.
  intros H. induction sels as [| s r IH]; [reflexivity|].
  cbn [updateSelections]. unfold updateSelection. rewrite H.
  destruct (String.eqb (sel_id s) selId);
    destruct (updateSelections f m w selId r) as [r' c2];
    cbn [snd] in *; rewrite IH; reflexivity.
Qed.

Lemma updateMarkets_no_odds f m selId ms :
  f !! "OD" = None -> snd (updateMarkets f m selId ms) = [].
Proof.
  intros H. induction ms as [| [k mk] r IH]; [reflexivity|].
  cbn [updateMarkets]. unfold updateMarket.
  pose proof (updateSelections_no_odds f m
                (Nat.leb 3 (List.length (selections mk))) selId (selections mk) H)
    as Hs.
  destruct (updateSelections f m _ selId (selections mk)) as [sels' c1].
  destruct (updateMarkets f m selId r) as [r' c2].
  cbn [snd] in *. rewrite Hs, IH. reflexivity.
Qed.

(** X20. A delta that carries none of the fields SS, XP, PI and OD pushes
    no score and no odds update: the timestamp, the status and the
    suspension flag are stored without a word. Only the update of a delete
    can come out of it. *)
Theorem delta_without_score_or_odds (seg : ParsedSegment) (st : State)
    (HSS : fields seg !! "SS" = None) (HXP : fields seg !! "XP" = None)
    (HPI : fields seg !! "PI" = None) (HOD : fields seg !! "OD" = None) :
  snd (processUpdate seg st) = None
  \/ (action seg = ActD
      /\ exists u, snd (processUpdate seg st) = Some u /\ upd_type u = UDelete).
Proof.
  unfold processUpdate.
  destruct (str_isEmpty (header seg)); [left; reflexivity|].
  set (pid := parseItemId (stripActionSuffix (header seg))).
  destruct (pid_type pid); try (left; reflexivity).
  - destruct (truthyEntry _); cbn [negb]; [|left; reflexivity].
    destruct (jm_get (pid_eventId pid) (matches st)) as [m|]; [|left; reflexivity].
    unfold applyEventFields. rewrite HSS, HXP, HPI. cbn [app].
    destruct (action seg); cbn [snd]; try (left; reflexivity).
    right. split; [reflexivity|]. eexists. split; reflexivity.
  - destruct (fixtureToEvent st !! pid_fixtureId pid) as [evId|];
      [|left; reflexivity].
    destruct (str_isEmpty evId); [left; reflexivity|].
    destruct (jm_get evId (matches st)) as [m|]; [|left; reflexivity].
    pose proof (updateMarkets_no_odds (fields seg) m (pid_selectionId pid)
                  (markets m) HOD) as Hc.
    destruct (updateMarkets _ m _ (markets m)) as [ms' chs].
    cbn [snd] in Hc. subst chs. left. reflexivity.
Qed.

(** The theorem at a delta for the match of S1 that carries a timestamp
    and a status only. *)
Lemma delta_without_score_or_odds_witness :
  snd (processUpdate timestampSegment
         (fst (processMessage S1_payload initialState))) = None
  \/ (action timestampSegment = ActD
      /\ exists u,
           snd (processUpdate timestampSegment
                  (fst (processMessage S1_payload initialState))) = Some u
           /\ upd_type u = UDelete).
Proof.
  apply delta_without_score_or_odds; vm_compute; reflexivity.
Defined.

(** ** Markets and selections of a dump *)

Lemma jm_set_absent {V : Type} (k : string) (v : V) (ms : jsmap V) :
  jm_get k ms = None -> jm_set k v ms = ms ++ [(k, v)].
Proof.
  unfold jm_get. induction ms as [| [k0 v0] r IH]; simpl; [reflexivity|].
  destruct (String.eqb k0 k); [discriminate|].
  intros H. rewrite (IH H). reflexivity.
Qed.

Lemma jm_set_at {V : Type} (k : string) (v old : V) (l1 l2 : jsmap V) :
  ~ In k (jm_keys l1) ->
  jm_set k v (l1 ++ (k, old) :: l2) = l1 ++ (k, v) :: l2.
Proof.
  unfold jm_keys. induction l1 as [| [k0 v0] r IH]; simpl; intros H.
  - rewrite String.eqb_refl. reflexivity.
  - destruct (String.eqb k0 k) eqn:E.
    + apply String.eqb_eq in E. exfalso. apply H. left. exact E.
    + rewrite IH; [reflexivity|]. intros Hin. apply H. right. exact Hin.
Qed.

Lemma pushToLastMarket_snoc (sel : Selection) (l : jsmap Market)
    (k : string) (mk : Market) :
  pushToLastMarket sel (l ++ [(k, mk)]) = l ++ [(k, pushSelection sel mk)].
Proof.
  induction l as [| [k0 mk0] r IH]; [reflexivity|].
  cbn [app pushToLastMarket]. rewrite IH.
  destruct (r ++ [(k, mk)]) eqn:E; [|reflexivity].
  destruct r; discriminate E.
Qed.

(** The markets of the current match after an MA record and a PA record,
    from the markets [ms1] the MA record leaves. *)
Lemma applyPA_applyMA (fm fp : gmap string string) (st : State) (m : SportMatch) :
  jm_get (lastEventId st) (matches st) = Some m ->
  exists m',
    jm_get (lastEventId st) (matches (applyPA fp (applyMA fm st))) = Some m'
    /\ markets m'
       = pushToLastMarket (buildSelection fp)
           (jm_set (mkt_id (buildMarket fm)) (buildMarket fm) (markets m)).
Proof.
  intros Hm. unfold applyMA. rewrite Hm.
  unfold applyPA. cbn [lastEventId matches withMatches].
  rewrite jm_get_set_eq. cbn [markets withMarkets].
  eexists. split.
  - destruct (truthyStr (fp !! "FI"));
      cbn [matches withSelectionInfo withMatches]; rewrite jm_get_set_eq;
      reflexivity.
  - reflexivity.
Qed.

(** X21. In a full dump, a PA record that follows an MA record with a
    market id new to the current match puts its selection into that
    market, which is appended after the markets the match already has. *)
Theorem selection_joins_new_market (fm fp : gmap string string) (st : State)
    (m : SportMatch)
    (Hm : jm_get (lastEventId st) (matches st) = Some m)
    (Hnew : jm_get (mkt_id (buildMarket fm)) (markets m) = None) :
  exists m',
    jm_get (lastEventId st) (matches (applyPA fp (applyMA fm st))) = Some m'
    /\ markets m'
       = markets m
         ++ [(mkt_id (buildMarket fm),
              pushSelection (buildSelection fp) (buildMarket fm))].
Proof.
  destruct (applyPA_applyMA fm fp st m Hm) as (m' & Hget & Hmk).
  exists m'. split; [exact Hget|].
  rewrite Hmk, (jm_set_absent _ _ _ Hnew). apply pushToLastMarket_snoc.
Qed.

(** X22. In a full dump, an MA record that repeats the id of a market the
    current match already has, and that is not the market inserted last,
    empties that market in place; the selection of the PA record that
    follows goes to the market inserted last, not to the one just sent. *)
Theorem selection_misses_repeated_market (fm fp : gmap string string)
    (st : State) (m : SportMatch) (l1 l2 : jsmap Market) (k2 : string)
    (old mk2 : Market)
    (Hm : jm_get (lastEventId st) (matches st) = Some m)
    (Hmarkets :
       markets m = l1 ++ (mkt_id (buildMarket fm), old) :: l2 ++ [(k2, mk2)])
    (Hfirst : ~ In (mkt_id (buildMarket fm)) (jm_keys l1)) :
  exists m',
    jm_get (lastEventId st) (matches (applyPA fp (applyMA fm st))) = Some m'
    /\ markets m'
       = l1 ++ (mkt_id (buildMarket fm), buildMarket fm)
            :: l2 ++ [(k2, pushSelection (buildSelection fp) mk2)].
Proof.
  destruct (applyPA_applyMA fm fp st m Hm) as (m' & Hget & Hmk).
  exists m'. split; [exact Hget|].
  rewrite Hmk, Hmarkets, (jm_set_at _ _ _ _ _ Hfirst).
  change (l1 ++ (mkt_id (buildMarket fm), buildMarket fm) :: l2 ++ [(k2, mk2)])
    with (l1 ++ ((mkt_id (buildMarket fm), buildMarket fm) :: l2) ++ [(k2, mk2)]).
  rewrite app_assoc, pushToLastMarket_snoc, <- app_assoc. reflexivity.
Qed.

(** The theorem after the dump of two markets: a third market takes the
    selection that follows it. *)
Lemma selection_joins_new_market_witness :
  exists m m',
    jm_get "1" (matches (fst (processMessage twoMarketsDump initialState)))
    = Some m
    /\ jm_get "1"
         (matches (applyPA selectionRecord9
                     (applyMA marketRecord12
                        (fst (processMessage twoMarketsDump initialState)))))
       = Some m'
    /\ markets m'
       = markets m
         ++ [("12", pushSelection (buildSelection selectionRecord9)
                      (buildMarket marketRecord12))].
Proof.
  assert (Hm : exists m,
             jm_get (lastEventId (fst (processMessage twoMarketsDump initialState)))
               (matches (fst (processMessage twoMarketsDump initialState)))
             = Some m)
    by (vm_compute; eauto).
  destruct Hm as [m Hm].
  destruct (selection_joins_new_market marketRecord12 selectionRecord9
              (fst (processMessage twoMarketsDump initialState)) m Hm)
    as (m' & Hget & Hmk).
  - revert Hm. vm_compute. intros [= <-]. reflexivity.
  - exists m, m'. split; [exact Hm|]. split; [exact Hget | exact Hmk].
Defined.

(** The theorem after the dump of two markets: market 10 is sent again,
    and the selection that follows it lands in market 11. *)
Lemma selection_misses_repeated_market_witness :
  exists m m' old mk2,
    jm_get "1" (matches (fst (processMessage twoMarketsDump initialState)))
    = Some m
    /\ markets m = [("10", old); ("11", mk2)]
    /\ jm_get "1"
         (matches (applyPA selectionRecord9
                     (applyMA marketRecord10
                        (fst (processMessage twoMarketsDump initialState)))))
       = Some m'
    /\ markets m'
       = [("10", buildMarket marketRecord10);
          ("11", pushSelection (buildSelection selectionRecord9) mk2)].
Proof.
  assert (Hm : exists m old mk2,
             jm_get (lastEventId (fst (processMessage twoMarketsDump initialState)))
               (matches (fst (processMessage twoMarketsDump initialState)))
             = Some m
             /\ markets m
                = [] ++ (mkt_id (buildMarket marketRecord10), old)
                     :: [] ++ [("11", mk2)])
    by (vm_compute; eauto).
  destruct Hm as (m & old & mk2 & Hm & Hmk).
  destruct (selection_misses_repeated_market marketRecord10 selectionRecord9
              (fst (processMessage twoMarketsDump initialState)) m [] [] "11"
              old mk2 Hm Hmk)
    as (m' & Hget & Hmk').
  - intros [].
  - exists m, m', old, mk2.
    split; [exact Hm|]. split; [exact Hmk|]. split; [exact Hget | exact Hmk'].
Defined.

(** ** Merging odds updates *)

Lemma filter_alter_out {A : Type} (p : A -> bool) (g : A -> A) (l : list A)
    (i : nat) (x : A) :
  l !! i = Some x -> p x = false -> p (g x) = false ->
  List.filter p (alter g i l) = List.filter p l.
Proof.
  revert i. induction l as [| y l' IH]; intros i Hl Hx Hgx; [discriminate Hl|].
  destruct i as [| i'].
  - injection Hl as ->. cbn. rewrite Hx, Hgx. reflexivity.
  - cbn in Hl |- *. rewrite (IH i' Hl Hx Hgx). reflexivity.
Qed.

Lemma filter_In_nonempty {A : Type} (p : A -> bool) (l : list A) (i : nat) (x : A) :
  l !! i = Some x -> p x = true -> List.filter p l <> [].
Proof.
  intros Hl Hx E.
  assert (Hin : In x (List.filter p l)).
  { apply filter_In. split; [|exact Hx].
    apply list_elem_of_In. eapply list_elem_of_lookup_2. exact Hl. }
  rewrite E in Hin. exact Hin.
Qed.

Lemma filter_alter_single {A : Type} (p : A -> bool) (g : A -> A) (l : list A)
    (i : nat) (x x0 : A) :
  l !! i = Some x -> p x = true -> p (g x) = true ->
  List.filter p l = [x0] ->
  x0 = x /\ List.filter p (alter g i l) = [g x].
Proof.
  revert i. induction l as [| y l' IH]; intros i Hl Hx Hgx Hf; [discriminate Hl|].
  destruct i as [| i'].
  - injection Hl as ->. cbn in Hf |- *. rewrite Hx in Hf. rewrite Hgx.
    injection Hf as -> Hf. rewrite Hf. split; reflexivity.
  - cbn in Hl, Hf |- *. destruct (p y) eqn:Ey.
    + injection Hf as _ Hf.
      destruct (filter_In_nonempty p l' i' x Hl Hx Hf).
    + exact (IH i' Hl Hx Hgx Hf).
Qed.

Lemma pushChanges_pushChanges (a b : list Change) (u : MatchUpdate) :
  pushChanges b (pushChanges a u) = pushChanges (a ++ b) u.
Proof. unfold pushChanges. cbn. rewrite app_assoc. reflexivity. Qed.

Lemma pushChanges_nil (u : MatchUpdate) : pushChanges [] u = u.
Proof. destruct u. unfold pushChanges. cbn. rewrite app_nil_r. reflexivity. Qed.

Lemma isOddsFor_pushChanges (e : string) (cs : list Change) (u : MatchUpdate) :
  isOddsFor e (pushChanges cs u) = isOddsFor e u.
Proof. reflexivity. Qed.

(** What the loop keeps true of [updates] and [oddsMap] after the updates
    [seen]. *)
Definition mergeInvariant (seen : list MatchUpdate)
    (acc : list MatchUpdate * gmap string nat) : Prop :=
  (forall e, List.filter (isOddsFor e) (fst acc)
             = collapse (List.filter (isOddsFor e) seen))
  /\ (forall e, snd acc !! e = None -> List.filter (isOddsFor e) seen = [])
  /\ (forall e i, snd acc !! e = Some i ->
        exists x, fst acc !! i = Some x /\ isOddsFor e x = true)
  /\ List.filter (fun u => negb (isOdds u)) (fst acc)
     = List.filter (fun u => negb (isOdds u)) seen.

Lemma isOddsFor_self (u : MatchUpdate) :
  isOdds u = true -> isOddsFor (upd_eventId u) u = true.
Proof. unfold isOddsFor. intros ->. rewrite String.eqb_refl. reflexivity. Qed.

Lemma isOddsFor_other (e : string) (u : MatchUpdate) :
  e <> upd_eventId u -> isOddsFor e u = false.
Proof.
  unfold isOddsFor. intros H.
  destruct (String.eqb (upd_eventId u) e) eqn:E; [|apply andb_false_r].
  apply String.eqb_eq in E. congruence.
Qed.

Lemma isOddsFor_not_odds (e : string) (u : MatchUpdate) :
  isOdds u = false -> isOddsFor e u = false.
Proof. unfold isOddsFor. intros ->. reflexivity. Qed.

Lemma mergeStep_invariant (seen : list MatchUpdate)
    (acc : list MatchUpdate * gmap string nat) (u : MatchUpdate) :
  mergeInvariant seen acc -> mergeInvariant (seen ++ [u]) (mergeStep acc u).
Proof.
  destruct acc as [updates oddsMap].
  intros (HA & HB & HC & HD). cbn [fst snd] in *.
  unfold mergeStep. destruct (isOdds u) eqn:Eu.
  - destruct (oddsMap !! upd_eventId u) as [i|] eqn:Ei.
    + (* pushed onto the update stored for the event *)
      destruct (HC _ _ Ei) as (x & Hx & Hxo).
      assert (Hxodds : isOdds x = true)
        by (unfold isOddsFor in Hxo; apply andb_true_iff in Hxo; tauto).
      unfold mergeInvariant. cbn [fst snd].
      split; [|split; [|split]].
      * intros e. rewrite List.filter_app. cbn [List.filter].
        destruct (string_dec e (upd_eventId u)) as [-> | Hne].
        -- rewrite (isOddsFor_self u Eu).
           pose proof (HA (upd_eventId u)) as Ha.
           destruct (List.filter (isOddsFor (upd_eventId u)) seen)
             as [| f rest] eqn:Es.
           { cbn [collapse] in Ha.
             destruct (filter_In_nonempty _ _ _ _ Hx Hxo Ha). }
           cbn [collapse app] in Ha |- *.
           destruct (filter_alter_single (isOddsFor (upd_eventId u))
                       (pushChanges (changes u)) updates i x _ Hx Hxo Hxo Ha)
             as [<- ->].
           rewrite pushChanges_pushChanges, flat_map_app. cbn [flat_map].
           rewrite app_nil_r. reflexivity.
        -- rewrite (isOddsFor_other e u Hne), app_nil_r, <- (HA e).
           assert (Hxe : isOddsFor e x = false).
           { apply isOddsFor_other. unfold isOddsFor in Hxo.
             apply andb_true_iff in Hxo as [_ Hxo].
             apply String.eqb_eq in Hxo. congruence. }
           exact (filter_alter_out (isOddsFor e) (pushChanges (changes u)) updates i x
                    Hx Hxe Hxe).
      * intros e He. rewrite List.filter_app. cbn [List.filter].
        rewrite (HB e He), isOddsFor_other; [reflexivity|].
        intros ->. congruence.
      * intros e j Hj. destruct (HC e j Hj) as (y & Hy & Hyo).
        destruct (decide (j = i)) as [-> | Hji].
        -- exists (pushChanges (changes u) y). split; [|exact Hyo].
           rewrite list_lookup_alter_eq, Hy. reflexivity.
        -- exists y. split; [|exact Hyo].
           rewrite list_lookup_alter_ne; [exact Hy | congruence].
      * rewrite List.filter_app. cbn [List.filter]. rewrite Eu. cbn [negb].
        rewrite app_nil_r, <- HD.
        apply (filter_alter_out (fun u => negb (isOdds u)) (pushChanges (changes u))
                 updates i x Hx);
          change (negb (isOdds x) = false); rewrite Hxodds; reflexivity.
    + (* the first odds update of the event *)
      unfold mergeInvariant. cbn [fst snd].
      split; [|split; [|split]].
      * intros e. rewrite !List.filter_app. cbn [List.filter].
        destruct (string_dec e (upd_eventId u)) as [-> | Hne].
        -- rewrite (isOddsFor_self u Eu), (HA (upd_eventId u)),
             (HB _ Ei). cbn [collapse app flat_map].
           rewrite pushChanges_nil. reflexivity.
        -- rewrite (isOddsFor_other e u Hne), !app_nil_r. apply HA.
      * intros e He.
        destruct (string_dec e (upd_eventId u)) as [-> | Hne].
        -- rewrite lookup_insert_eq in He. discriminate He.
        -- rewrite lookup_insert_ne in He by congruence.
           rewrite List.filter_app. cbn [List.filter].
           rewrite (HB e He), (isOddsFor_other e u Hne). reflexivity.
      * intros e j Hj.
        destruct (string_dec e (upd_eventId u)) as [-> | Hne].
        -- rewrite lookup_insert_eq in Hj. injection Hj as <-.
           exists u. split; [|exact (isOddsFor_self u Eu)].
           rewrite lookup_app_r by lia. rewrite Nat.sub_diag. reflexivity.
        -- rewrite lookup_insert_ne in Hj by congruence.
           destruct (HC e j Hj) as (y & Hy & Hyo).
           exists y. split; [|exact Hyo].
           apply lookup_app_l_Some. exact Hy.
      * rewrite !List.filter_app. cbn [List.filter]. rewrite Eu. cbn [negb].
        rewrite HD. reflexivity.
  - (* score and delete updates are appended as they are *)
    unfold mergeInvariant. cbn [fst snd].
    split; [|split; [|split]].
    + intros e. rewrite !List.filter_app. cbn [List.filter].
      rewrite (isOddsFor_not_odds e u Eu), !app_nil_r. apply HA.
    + intros e He. rewrite List.filter_app. cbn [List.filter].
      rewrite (HB e He), (isOddsFor_not_odds e u Eu). reflexivity.
    + intros e j Hj. destruct (HC e j Hj) as (y & Hy & Hyo).
      exists y. split; [|exact Hyo]. apply lookup_app_l_Some. exact Hy.
    + rewrite !List.filter_app. cbn [List.filter]. rewrite Eu. cbn [negb].
      rewrite HD. reflexivity.
Qed.

Lemma fold_mergeStep_invariant (rest seen : list MatchUpdate)
    (acc : list MatchUpdate * gmap string nat) :
  mergeInvariant seen acc ->
  mergeInvariant (seen ++ rest) (fold_left mergeStep rest acc).
Proof.
  revert seen acc. induction rest as [| u rest IH]; intros seen acc H.
  - rewrite app_nil_r. exact H.
  - cbn [fold_left].
    replace (seen ++ u :: rest) with ((seen ++ [u]) ++ rest)
      by (rewrite <- app_assoc; reflexivity).
    apply IH, mergeStep_invariant, H.
Qed.

Lemma mergeOddsUpdates_invariant (rawUpdates : list MatchUpdate) :
  mergeInvariant rawUpdates (fold_left mergeStep rawUpdates ([], ∅)).
Proof.
  apply (fold_mergeStep_invariant rawUpdates [] ([], ∅)).
  unfold mergeInvariant. cbn. repeat split; try reflexivity.
  intros e i H. rewrite lookup_empty in H. discriminate H.
Qed.

(** X23. The frame handler leaves one odds update for each event: among
    the merged updates, the odds updates of an event are none when no odds
    update of [processMessage] named the event, and otherwise the first of
    them alone, with the changes of all later ones pushed onto it in the
    order they came. *)
Theorem merged_odds_updates (rawUpdates : list MatchUpdate) (e : string) :
  List.filter (isOddsFor e) (mergeOddsUpdates rawUpdates)
  = collapse (List.filter (isOddsFor e) rawUpdates).
Proof.
  exact (proj1 (mergeOddsUpdates_invariant rawUpdates) e).
Qed.

(** X24. The frame handler merges odds updates only: the score and delete
    updates of [processMessage] come out of the loop as they went in, in
    the same order. *)
Theorem merge_keeps_other_updates (rawUpdates : list MatchUpdate) :
  List.filter (fun u => negb (isOdds u)) (mergeOddsUpdates rawUpdates)
  = List.filter (fun u => negb (isOdds u)) rawUpdates.
Proof.
  exact (proj2 (proj2 (proj2 (mergeOddsUpdates_invariant rawUpdates)))).
Qed.

(** ** Team names *)

Lemma str_indexOf_None (sub s : string) :
  str_includes sub s = false -> str_indexOf sub s = None.
Proof.
  induction s as [| c r IH]; cbn [str_includes str_indexOf]; intros H;
    apply orb_false_iff in H as [Hp Hr]; rewrite Hp; [reflexivity|].
  rewrite (IH Hr). reflexivity.
Qed.

Lemma assocFind_In {V : Type} (k : string) (v : V) (l : list (string * V)) :
  assocFind k l = Some v -> In v (map snd l).
Proof.
  induction l as [| [k0 v0] r IH]; cbn; [discriminate|].
  destruct (String.eqb k0 k); [intros [= ->]; left; reflexivity|].
  intros H. right. exact (IH H).
Qed.

Lemma registry_separators (sid : string) (c : SportConfig) :
  SPORT_REGISTRY sid = Config c ->
  forall sep, In sep (nameSeparators c) -> In sep [" v "; " vs "; " @ "].
Proof.
  unfold SPORT_REGISTRY.
  destruct (assocFind sid registryOwn) as [c'|] eqn:E;
    [|destruct (existsb _ _); discriminate].
  intros [= <-]. apply assocFind_In in E. cbn in E.
  intros sep Hsep.
  repeat (destruct E as [<- | E];
          [cbn in Hsep |- *; tauto|]).
  contradiction.
Qed.

Lemma splitAtFirst_None (seps : list string) (name : string) :
  (forall sep, In sep seps -> str_includes sep name = false) ->
  splitAtFirst seps name = None.
Proof.
  unfold splitAtFirst. induction seps as [| sep r IH]; intros H; [reflexivity|].
  cbn [firstSome]. rewrite (str_indexOf_None sep name (H sep (or_introl eq_refl))).
  cbn [mbind option_bind]. apply IH. intros s Hs. apply H. right. exact Hs.
Qed.

(** X25. A name that holds none of the separators [ v ], [ vs ] and [ @ ]
    is not split, for any sport whose registry lookup does not raise: the
    whole name, untrimmed, is the first team and the second is empty. *)
Theorem parseTeams_without_separator (name sid : string)
    (Hv : str_includes " v " name = false)
    (Hvs : str_includes " vs " name = false)
    (Hat : str_includes " @ " name = false)
    (Hsid : isInherited (SPORT_REGISTRY sid) = false) :
  parseTeams name sid = Normal (name, "").
Proof.
  assert (Hall : forall sep, In sep [" v "; " vs "; " @ "] ->
                 str_includes sep name = false).
  { intros sep [<- | [<- | [<- | []]]]; assumption. }
  unfold parseTeams. rewrite (splitAtFirst_None _ name Hall).
  destruct (SPORT_REGISTRY sid) as [c | |] eqn:E; [|discriminate Hsid|reflexivity].
  rewrite splitAtFirst_None; [reflexivity|].
  intros sep Hsep. apply Hall. exact (registry_separators sid c E sep Hsep).
Qed.

(** The theorem at a name written with a hyphen, for tennis. *)
Lemma parseTeams_without_separator_witness :
  parseTeams " Navone - Darderi" "13" = Normal (" Navone - Darderi", "").
Proof.
  apply parseTeams_without_separator; vm_compute; reflexivity.
Defined.

Lemma str_trimEnd_idem (s : string) : str_trimEnd (str_trimEnd s) = str_trimEnd s.
Proof.
  induction s as [| c r IH]; [reflexivity|].
  cbn [str_trimEnd].
  destruct (isWhiteSpace c && str_isEmpty (str_trimEnd r)) eqn:E; [reflexivity|].
  cbn [str_trimEnd]. rewrite IH, E. reflexivity.
Qed.

Lemma str_trimStart_head (s : string) :
  match str_trimStart s with
  | String c _ => isWhiteSpace c = false
  | EmptyString => True
  end.
Proof.
  induction s as [| c r IH]; [exact I|].
  cbn [str_trimStart]. destruct (isWhiteSpace c) eqn:E; [exact IH | exact E].
Qed.

Lemma str_trim_idem (s : string) : str_trim (str_trim s) = str_trim s.
Proof.
  unfold str_trim.
  pose proof (str_trimStart_head s) as H.
  destruct (str_trimStart s) as [| c r]; [reflexivity|].
  cbn [str_trimEnd]. rewrite H. cbn [andb str_trimStart]. rewrite H.
  cbn [str_trimEnd]. rewrite H. cbn [andb]. rewrite str_trimEnd_idem.
  reflexivity.
Qed.

Lemma splitAtFirst_trimmed (seps : list string) (name a b : string) :
  splitAtFirst seps name = Some (a, b) -> str_trim a = a /\ str_trim b = b.
Proof.
  unfold splitAtFirst. intros H.
  apply firstSome_Some in H as (sep & _ & H).
  destruct (str_indexOf sep name) as [idx|]; [|discriminate H].
  cbn in H. injection H as <- <-. split; apply str_trim_idem.
Qed.

(** X26. When [parseTeams] returns, either it found no separator and
    returns the whole name with an empty second team, or both team names
    come back trimmed: trimming them again changes nothing. *)
Theorem parseTeams_names_trimmed (name sid : string) :
  match parseTeams name sid with
  | Normal (a, b) =>
      (a, b) = (name, "") \/ (str_trim a = a /\ str_trim b = b)
  | Throw => True
  end.
Proof.
  unfold parseTeams.
  assert (Hfb : forall a b,
             match splitAtFirst [" v "; " vs "; " @ "] name with
             | Some r => r
             | None => (name, "")
             end = (a, b) ->
             (a, b) = (name, "") \/ (str_trim a = a /\ str_trim b = b)).
  { intros a b. destruct (splitAtFirst _ name) as [[a' b']|] eqn:E.
    - intros [= <- <-]. right. exact (splitAtFirst_trimmed _ _ _ _ E).
    - intros [= <- <-]. left. reflexivity. }
  destruct (SPORT_REGISTRY sid) as [c | |]; [|exact I|].
  - destruct (splitAtFirst (nameSeparators c) name) as [[a b]|] eqn:E.
    + right. exact (splitAtFirst_trimmed _ _ _ _ E).
    + destruct (match splitAtFirst _ name with Some r => r | None => _ end)
        as [a b].
      exact (Hfb a b eq_refl).
  - destruct (match splitAtFirst _ name with Some r => r | None => _ end)
      as [a b].
    exact (Hfb a b eq_refl).
Qed.

(** ** [parseMessage] and [processMessage] *)

Lemma str_last_cons (x y : ascii) (r : string) :
  str_last (String x (String y r)) = str_last (String y r).
Proof.
  unfold str_last. cbn [String.length]. rewrite !Nat.sub_succ, !Nat.sub_0_r.
  reflexivity.
Qed.

Lemma str_endsWith_last (c : ascii) (s : string) :
  str_endsWith (String c "") s = String.eqb (str_last s) (String c "").
Proof.
  induction s as [| x r IH]; [reflexivity|].
  destruct r as [| y r'].
  - cbn [str_endsWith]. rewrite orb_false_r. reflexivity.
  - rewrite str_last_cons, <- IH.
    change (str_endsWith (String c "") (String x (String y r')))
      with (String.eqb (String x (String y r')) (String c "")
            || str_endsWith (String c "") (String y r')).
    replace (String.eqb (String x (String y r')) (String c "")) with false;
      [reflexivity|].
    symmetry. apply String.eqb_neq. intros [= _ H].
Qed.

Lemma str_endsWith_exclusive (c d : ascii) (s : string) :
  Ascii.eqb c d = false ->
  str_endsWith (String c "") s = true -> str_endsWith (String d "") s = false.
Proof.
  rewrite !str_endsWith_last. intros Hcd Hc.
  apply String.eqb_eq in Hc. rewrite Hc.
  apply String.eqb_neq. intros [= ->]. rewrite Ascii.eqb_refl in Hcd.
  discriminate Hcd.
Qed.

(** X27. [parseMessage] and [processMessage] read a delta the same way:
    for a sub-message whose header ends in U or D and holds no slash, the
    one segment [parseMessage] returns is the segment that
    [processMessage] hands to [processUpdate]. *)
Theorem parseMessage_reads_delta (h : string) (recs : list string)
    (Hskip : isSkippedHeader h = false)
    (Hflat : str_includes "/" h = false)
    (Hud : str_endsWith "U" h || str_endsWith "D" h = true) :
  parseSubMessage (h :: recs) = [deltaSegment h recs].
Proof.
  unfold parseSubMessage, deltaSegment. rewrite Hskip, Hflat, Hud.
  assert (HF : str_endsWith "F" h = false).
  { apply orb_true_iff in Hud as [H | H];
      [exact (str_endsWith_exclusive "U" "F" h eq_refl H)
      |exact (str_endsWith_exclusive "D" "F" h eq_refl H)]. }
  rewrite HF. rewrite <- (str_endsWith_last "D" h).
  apply orb_true_iff in Hud as [H | H].
  - rewrite H, (str_endsWith_exclusive "U" "D" h eq_refl H). reflexivity.
  - rewrite H, (str_endsWith_exclusive "D" "U" h eq_refl H). reflexivity.
Qed.

(** The theorem at the sub-message of S2. *)
Lemma parseMessage_reads_delta_witness :
  parseSubMessage ["OV190321250C13A_32_0U"; "PI=0,1;XP=0-0;SS=3-6,1-0;"; ""]
  = [deltaSegment "OV190321250C13A_32_0U" ["PI=0,1;XP=0-0;SS=3-6,1-0;"; ""]].
Proof.
  apply parseMessage_reads_delta; vm_compute; reflexivity.
Defined.

Lemma str_last_app (a b : string) :
  b <> "" -> str_last (a +:+ b) = str_last b.
Proof.
  intros Hb. induction a as [| x r IH]; [reflexivity|].
  rewrite str_append_cons.
  destruct (r +:+ b) as [| y t] eqn:E.
  - destruct r; [rewrite str_append_nil in E; contradiction | discriminate E].
  - rewrite str_last_cons. exact IH.
Qed.

Lemma str_last_cons_ne (x : ascii) (b : string) :
  b <> "" -> str_last (String x b) = str_last b.
Proof. destruct b; [contradiction | intros _; apply str_last_cons]. Qed.

Lemma str_append_ne (a : string) (x : ascii) (b : string) :
  a +:+ String x b <> "".
Proof. destruct a; discriminate. Qed.

Lemma endsWith_last_eq (suf s : string) :
  suf <> "" -> str_endsWith suf s = true -> str_last s = str_last suf.
Proof.
  intros Hne H. destruct (endsWith_exists suf s H) as [p ->].
  apply str_last_app. exact Hne.
Qed.

Lemma last_slash (h : string) :
  str_includes "/" h = true ->
  exists a b, h = a +:+ String "/" b /\ str_includes "/" b = false.
Proof.
  induction h as [| x r IH]; [discriminate|].
  rewrite str_includes_single. intros H.
  destruct (str_includes "/" r) eqn:Er.
  - destruct (IH eq_refl) as (a & b & -> & Hb).
    exists (String x a), b. split; [reflexivity | exact Hb].
  - rewrite orb_false_r in H. apply Ascii.eqb_eq in H. subst x.
    exists "", r. split; [reflexivity | exact Er].
Qed.

Lemma deltaSegment_header_last (h : string) (recs : list string) (c : ascii) :
  Ascii.eqb c "/" = false ->
  str_endsWith (String c "") h = true ->
  str_endsWith (String c "") (header (deltaSegment h recs)) = true.
Proof.
  intros Hc H. unfold deltaSegment. cbn [header].
  destruct (str_includes "/" h) eqn:Es; [|exact H].
  destruct (last_slash h Es) as (a & b & -> & Hb).
  rewrite str_split_app, (str_split_without _ _ Hb), last_last.
  rewrite str_endsWith_last in H |- *.
  destruct b as [| y t].
  - rewrite (str_last_app a "/") in H by discriminate.
    apply String.eqb_eq in H. injection H as <-. discriminate Hc.
  - rewrite (str_last_app a (String "/" (String y t))) in H by discriminate.
    rewrite str_last_cons in H. exact H.
Qed.

Lemma numeric_last (d : string) :
  isNumericId d = true ->
  exists c, str_last d = String c "" /\ isDigit c = true.
Proof.
  unfold isNumericId. induction d as [| x r IH]; [discriminate|].
  cbn [str_isEmpty negb andb allDigits]. intros H.
  apply andb_true_iff in H as [Hx Hr].
  destruct r as [| y t].
  - exists x. split; [reflexivity | exact Hx].
  - rewrite str_last_cons. apply IH. exact Hr.
Qed.

Lemma matchSelectionBody_ends (s fx sel : string) :
  matchSelectionBody s = Some (fx, sel) -> exists pre, s = pre +:+ sel.
Proof.
  unfold matchSelectionBody. intros H.
  destruct (digits1 s) as [[fx' r]|] eqn:E1; [|discriminate H]. cbn in H.
  destruct (digits1_spec _ _ _ E1) as [-> _].
  destruct r as [| c t]; [discriminate H|].
  destruct (Ascii.eqb c "-") eqn:Ec;
    [apply Ascii.eqb_eq in Ec; subst c
    |destruct c as [[] [] [] [] [] [] [] []]; try discriminate H; discriminate Ec].
  destruct (matchSelectionNumber t) as [sel'|] eqn:E2; [|discriminate H].
  cbn in H. injection H as <- <-.
  assert (Ht : t = sel' \/ t = String "0" sel').
  { unfold matchSelectionNumber in E2.
    destruct t as [| c t']; [discriminate E2|].
    destruct (Ascii.eqb c "0") eqn:Ec.
    - apply Ascii.eqb_eq in Ec. subst c.
      destruct (negb (str_isEmpty t') && allDigits t').
      + injection E2 as <-. right. reflexivity.
      + destruct (allDigits (String "0" t')); [|discriminate E2].
        injection E2 as <-. left. reflexivity.
    - destruct c as [[] [] [] [] [] [] [] []]; try discriminate Ec;
        (destruct (negb (str_isEmpty (String _ t')) && allDigits (String _ t'));
         [injection E2 as <-; left; reflexivity | discriminate E2]). }
  destruct Ht as [-> | ->].
  - exists (fx' +:+ "-"). rewrite str_append_assoc. reflexivity.
  - exists (fx' +:+ "-0"). rewrite str_append_assoc. reflexivity.
Qed.

(** The cleaned text of an id of known type ends in [A] or in a digit. *)
Lemma parseItemId_known_last (id : string) :
  pid_type (parseItemId id) <> ItUnknown ->
  exists c, str_last (stripTopicSuffix id) = String c ""
            /\ (c = "A"%char \/ isDigit c = true).
Proof.
  unfold parseItemId.
  destruct (withPrefixes ["OV"; "6V"] matchEventBody (stripTopicSuffix id))
    as [[ev cat]|] eqn:E1.
  { intros _. apply withPrefixes_Some in E1 as (p & t & _ & -> & Hb).
    destruct (matchEventBody_spec _ _ _ Hb) as (-> & _ & _).
    exists "A"%char. split; [|left; reflexivity].
    change (String "C" (cat +:+ "A")) with (("C" +:+ cat) +:+ "A").
    rewrite <- !str_append_assoc. apply str_last_app. discriminate. }
  destruct (withPrefixes ["OV"; "6V"] matchMarketBody (stripTopicSuffix id))
    as [[[ev cat] num]|] eqn:E2.
  { intros _. apply withPrefixes_Some in E2 as (p & t & _ & -> & Hb).
    destruct (matchMarketBody_spec _ _ _ _ Hb) as (-> & _ & _ & Hnum).
    destruct (numeric_last num Hnum) as (c & Hc & Hd).
    exists c. split; [|right; exact Hd].
    assert (Hne : num <> "") by (intros ->; discriminate Hnum).
    rewrite <- Hc, !str_last_app by (discriminate || apply str_append_ne).
    rewrite str_last_cons_ne by apply str_append_ne.
    rewrite str_last_app by discriminate.
    apply str_last_cons_ne. exact Hne. }
  destruct (withPrefixes ["OV"; "6VP"; "6V"; "OVES"] matchSelectionBody
              (stripTopicSuffix id)) as [[fx sel]|] eqn:E3.
  { intros _. apply withPrefixes_Some in E3 as (p & t & _ & -> & Hb).
    destruct (matchSelectionBody_spec _ _ _ Hb) as (_ & Hsel).
    destruct (matchSelectionBody_ends _ _ _ Hb) as [pre ->].
    destruct (numeric_last sel Hsel) as (c & Hc & Hd).
    exists c. split; [|right; exact Hd].
    rewrite <- Hc, <- str_append_assoc. apply str_last_app.
    intros ->. discriminate Hsel. }
  intros H. contradiction H. reflexivity.
Qed.

Lemma stripTopicSuffix_insert (id : string) :
  str_endsWith "I" id = true -> stripTopicSuffix id = id.
Proof.
  intros HI. rewrite str_endsWith_last in HI. apply String.eqb_eq in HI.
  unfold stripTopicSuffix.
  destruct (firstSome _ _) as [t|] eqn:E; [|reflexivity].
  apply firstSome_Some in E as (suf & Hin & Hs).
  unfold stripSuffix in Hs.
  destruct (str_endsWith suf id) eqn:Ee; [|discriminate Hs].
  exfalso. cbn in Hin.
  repeat (destruct Hin as [<- | Hin];
          [apply endsWith_last_eq in Ee; [|discriminate];
           rewrite HI in Ee; discriminate Ee|]).
  contradiction.
Qed.

Lemma processUpdate_insert (seg : ParsedSegment) (st : State) :
  str_endsWith "I" (header seg) = true -> processUpdate seg st = (st, None).
Proof.
  intros HI. unfold processUpdate.
  destruct (str_isEmpty (header seg)); [reflexivity|].
  unfold stripActionSuffix.
  rewrite (str_endsWith_exclusive "I" "U" _ eq_refl HI),
    (str_endsWith_exclusive "I" "D" _ eq_refl HI). cbn [orb].
  destruct (pid_type (parseItemId (header seg))) eqn:Et; try reflexivity;
    exfalso;
    (destruct (parseItemId_known_last (header seg)) as (c & Hc & Hd);
     [rewrite Et; discriminate|]);
    rewrite (stripTopicSuffix_insert _ HI) in Hc;
    rewrite str_endsWith_last in HI; apply String.eqb_eq in HI;
    rewrite HI in Hc; injection Hc as <-;
    (destruct Hd as [Hd | Hd]; discriminate Hd).
Qed.

(** X28. An insert changes nothing: a sub-message whose header ends in I
    is handed to [processUpdate] by [processMessage], but no item-id
    pattern accepts an id that ends in I, so the state stays as it is and
    no update is pushed; [parseMessage] returns no segment for it. *)
Theorem insert_changes_nothing (h : string) (recs : list string) (st : State)
    (HI : str_endsWith "I" h = true) :
  processSubMessage (h :: recs) st = (st, Normal None)
  /\ parseSubMessage (h :: recs) = [].
Proof.
  unfold parseSubMessage, processSubMessage.
  rewrite (str_endsWith_exclusive "I" "F" h eq_refl HI),
    (str_endsWith_exclusive "I" "U" h eq_refl HI),
    (str_endsWith_exclusive "I" "D" h eq_refl HI), HI.
  cbn [orb].
  rewrite (processUpdate_insert (deltaSegment h recs) st
             (deltaSegment_header_last h recs "I" eq_refl HI)).
  destruct (isSkippedHeader h); split; reflexivity.
Qed.

(** The theorem at an insert for the match of S1. *)
Lemma insert_changes_nothing_witness :
  processSubMessage ["OV190321250C13A_32_0I"; "SS=3-6,2-0;"; ""]
    (fst (processMessage S1_payload initialState))
  = (fst (processMessage S1_payload initialState), Normal None)
  /\ parseSubMessage ["OV190321250C13A_32_0I"; "SS=3-6,2-0;"; ""] = [].
Proof.
  apply insert_changes_nothing. vm_compute. reflexivity.
Defined.

(** ** Names of log files *)

Lemma replaceRuns_clears (p : ascii -> bool) (b : bool) (s : string) :
  p "_"%char = false ->
  str_forallb (fun c => negb (p c)) (replaceRuns p b s) = true.
Proof.
  intros Hu. revert b. induction s as [| c r IH]; intros b; [reflexivity|].
  cbn [replaceRuns]. destruct (p c) eqn:Ec.
  - destruct b; [apply IH|]. cbn [str_forallb]. rewrite Hu, IH. reflexivity.
  - cbn [str_forallb]. rewrite Ec, IH. reflexivity.
Qed.

Lemma replaceRuns_keeps (p q : ascii -> bool) (b : bool) (s : string) :
  q "_"%char = true -> str_forallb q s = true ->
  str_forallb q (replaceRuns p b s) = true.
Proof.
  intros Hu. revert b. induction s as [| c r IH]; intros b H; [reflexivity|].
  cbn [str_forallb] in H. apply andb_true_iff in H as [Hc Hr].
  cbn [replaceRuns]. destruct (p c).
  - destruct b; [apply IH; exact Hr|].
    cbn [str_forallb]. rewrite Hu, (IH true Hr). reflexivity.
  - cbn [str_forallb]. rewrite Hc, (IH false Hr). reflexivity.
Qed.

Lemma replaceRuns_id (p : ascii -> bool) (s : string) :
  str_forallb (fun c => negb (p c)) s = true -> replaceRuns p false s = s.
Proof.
  induction s as [| c r IH]; intros H; [reflexivity|].
  cbn [str_forallb] in H. apply andb_true_iff in H as [Hc Hr].
  apply negb_true_iff in Hc. cbn [replaceRuns]. rewrite Hc, (IH Hr).
  reflexivity.
Qed.

Lemma str_forallb_and (p q : ascii -> bool) (s : string) :
  str_forallb p s = true -> str_forallb q s = true ->
  str_forallb (fun c => p c && q c) s = true.
Proof.
  induction s as [| c r IH]; intros Hp Hq; [reflexivity|].
  cbn [str_forallb] in *.
  apply andb_true_iff in Hp as [Hp Hpr]. apply andb_true_iff in Hq as [Hq Hqr].
  rewrite Hp, Hq, (IH Hpr Hqr). reflexivity.
Qed.

Lemma str_forallb_impl (p q : ascii -> bool) (s : string) :
  (forall c, p c = true -> q c = true) ->
  str_forallb p s = true -> str_forallb q s = true.
Proof.
  intros Hpq. induction s as [| c r IH]; intros H; [reflexivity|].
  cbn [str_forallb] in *. apply andb_true_iff in H as [Hc Hr].
  rewrite (Hpq c Hc), (IH Hr). reflexivity.
Qed.

Lemma str_forallb_map (p : ascii -> bool) (f : ascii -> ascii) (s : string) :
  str_forallb p (str_map f s) = str_forallb (fun c => p (f c)) s.
Proof.
  induction s as [| c r IH]; [reflexivity|].
  cbn [str_map str_forallb]. rewrite IH. reflexivity.
Qed.

Lemma str_forallb_take (p : ascii -> bool) (n : nat) (s : string) :
  str_forallb p s = true -> str_forallb p (str_take n s) = true.
Proof.
  revert n. induction s as [| c r IH]; intros n H; [destruct n; reflexivity|].
  cbn [str_forallb] in H. apply andb_true_iff in H as [Hc Hr].
  destruct n as [| k]; [reflexivity|].
  cbn [str_take str_forallb]. rewrite Hc, (IH k Hr). reflexivity.
Qed.

Lemma str_take_length (n : nat) (s : string) :
  (String.length (str_take n s) <= n)%nat.
Proof.
  revert s. induction n as [| k IH]; intros s; [destruct s; cbn; lia|].
  destruct s as [| c r]; cbn [str_take String.length]; [lia|].
  specialize (IH r). lia.
Qed.

Lemma str_take_all (n : nat) (s : string) :
  (String.length s <= n)%nat -> str_take n s = s.
Proof.
  revert s. induction n as [| k IH]; intros s H.
  - destruct s; [reflexivity | cbn in H; lia].
  - destruct s as [| c r]; [reflexivity|].
    cbn [str_take]. rewrite IH; [reflexivity | cbn in H; lia].
Qed.

Lemma str_take_map (f : ascii -> ascii) (n : nat) (s : string) :
  str_map f (str_take n s) = str_take n (str_map f s).
Proof.
  revert s. induction n as [| k IH]; intros s; [destruct s; reflexivity|].
  destruct s as [| c r]; [reflexivity|].
  cbn [str_take str_map]. rewrite IH. reflexivity.
Qed.

Lemma str_map_idem (f : ascii -> ascii) (s : string) :
  (forall c, f (f c) = f c) -> str_map f (str_map f s) = str_map f s.
Proof.
  intros Hf. induction s as [| c r IH]; [reflexivity|].
  cbn [str_map]. rewrite Hf, IH. reflexivity.
Qed.

Lemma lowerLatin1_safe (c : ascii) :
  negb (isUrlPunctuation c) && negb (isWhiteSpace c) = true ->
  isFilenameSafe (lowerLatin1 c) = true.
Proof.
  destruct c as [[] [] [] [] [] [] [] []]; vm_compute; intros H;
    first [reflexivity | discriminate H].
Qed.

Lemma lowerLatin1_idem (c : ascii) : lowerLatin1 (lowerLatin1 c) = lowerLatin1 c.
Proof. destruct c as [[] [] [] [] [] [] [] []]; vm_compute; reflexivity. Qed.

Lemma sanitize_body_safe (s : string) :
  str_forallb isFilenameSafe
    (str_map lowerLatin1
       (replaceRuns isWhiteSpace false (replaceRuns isUrlPunctuation false s)))
  = true.
Proof.
  rewrite str_forallb_map.
  apply (str_forallb_impl _ _ _ lowerLatin1_safe).
  apply (str_forallb_and (fun c => negb (isUrlPunctuation c))
           (fun c => negb (isWhiteSpace c))).
  - apply replaceRuns_keeps; [reflexivity|].
    apply replaceRuns_clears. reflexivity.
  - apply replaceRuns_clears. reflexivity.
Qed.

(** X29. [sanitizeForFilename] returns at most 100 characters, none of
    them a character of [[/:?&=.]], white space or a capital letter A-Z,
    and sanitizing its result again returns it unchanged. *)
Theorem sanitizeForFilename_safe (s : string) :
  (String.length (sanitizeForFilename s) <= 100)%nat
  /\ str_forallb isFilenameSafe (sanitizeForFilename s) = true
  /\ sanitizeForFilename (sanitizeForFilename s) = sanitizeForFilename s.
Proof.
  assert (Hsafe : str_forallb isFilenameSafe (sanitizeForFilename s) = true).
  { unfold sanitizeForFilename. apply str_forallb_take, sanitize_body_safe. }
  split; [apply str_take_length|]. split; [exact Hsafe|].
  assert (Hp : str_forallb (fun c => negb (isUrlPunctuation c))
                 (sanitizeForFilename s) = true).
  { revert Hsafe. apply str_forallb_impl. intros c H.
    unfold isFilenameSafe in H. apply andb_true_iff in H as [H _].
    apply andb_true_iff in H as [H _]. exact H. }
  assert (Hw : str_forallb (fun c => negb (isWhiteSpace c))
                 (sanitizeForFilename s) = true).
  { revert Hsafe. apply str_forallb_impl. intros c H.
    unfold isFilenameSafe in H. apply andb_true_iff in H as [H _].
    apply andb_true_iff in H as [_ H]. exact H. }
  unfold sanitizeForFilename at 1.
  rewrite (replaceRuns_id _ _ Hp), (replaceRuns_id _ _ Hw).
  unfold sanitizeForFilename.
  rewrite str_take_map, (str_map_idem _ _ lowerLatin1_idem).
  apply str_take_all, str_take_length.
Qed.

(** ** Where the pipe-based regrouping cuts *)

Lemma headerOnlyFirst_snoc (cur : list string) (p : string) :
  isTopicHeader p = false ->
  cur = [] \/ headerOnlyFirst cur = true ->
  headerOnlyFirst (cur ++ [p]) = true.
Proof.
  intros Hp [-> | H]; [reflexivity|].
  destruct cur as [| h r]; [discriminate H|].
  cbn [app headerOnlyFirst] in *. rewrite forallb_app, H. cbn. rewrite Hp.
  reflexivity.
Qed.

Lemma groupParts_headerOnlyFirst (cur parts : list string) :
  cur = [] \/ headerOnlyFirst cur = true ->
  forallb headerOnlyFirst (groupParts cur parts) = true.
Proof.
  revert cur. induction parts as [| p ps IH]; intros cur H; cbn [groupParts].
  - destruct cur; [reflexivity|]. destruct H as [H | H]; [discriminate H|].
    cbn [forallb]. rewrite H. reflexivity.
  - destruct (isTopicHeader p) eqn:Ep.
    + destruct cur as [| c cs].
      * apply IH. right. reflexivity.
      * destruct H as [H | H]; [discriminate H|].
        cbn [forallb]. rewrite H. apply IH. right. reflexivity.
    + apply IH. right. apply headerOnlyFirst_snoc; assumption.
Qed.

Lemma groupParts_beginsWithHeader (cur parts : list string) :
  beginsWithHeader cur = true ->
  forallb beginsWithHeader (groupParts cur parts) = true.
Proof.
  revert cur. induction parts as [| p ps IH]; intros cur H; cbn [groupParts].
  - destruct cur; [discriminate H|]. cbn [forallb]. rewrite H. reflexivity.
  - destruct (isTopicHeader p) eqn:Ep.
    + destruct cur as [| c cs]; [discriminate H|].
      cbn [forallb]. rewrite H. apply IH. exact Ep.
    + apply IH. destruct cur; [discriminate H | exact H].
Qed.

Lemma groupParts_tail_headers (cur parts : list string) :
  cur <> [] ->
  forallb beginsWithHeader (List.tl (groupParts cur parts)) = true.
Proof.
  revert cur. induction parts as [| p ps IH]; intros cur H; cbn [groupParts].
  - destruct cur; [contradiction | reflexivity].
  - destruct (isTopicHeader p) eqn:Ep.
    + destruct cur as [| c cs]; [contradiction|].
      cbn [List.tl]. apply groupParts_beginsWithHeader. exact Ep.
    + apply IH. destruct cur; discriminate.
Qed.

(** X30. The pipe-based regrouping of [splitFrame] cuts at every topic
    header and nowhere else: in each sub-message no part after the first
    is a topic header, and every sub-message after the first begins with
    one. *)
Theorem regrouping_cuts_at_headers (parts : list string) :
  forallb headerOnlyFirst (groupParts [] parts) = true
  /\ forallb beginsWithHeader (List.tl (groupParts [] parts)) = true.
Proof.
  split; [apply groupParts_headerOnlyFirst; left; reflexivity|].
  destruct parts as [| p ps]; [reflexivity|].
  cbn [groupParts app].
  destruct (isTopicHeader p); apply groupParts_tail_headers; discriminate.
Qed.

(** ** Full dumps, record by record *)






















